(** * Python App Launcher: icon generator and launch artifacts

    A shallow embedding of [icon_generator.py] (class [IconGenerator]) and
    of the artifact pipeline of [main.py] (class [PythonAppLauncher]),
    with the properties the specification states about them.

    Conventions of the embedding:
    - a Python [str] is a [string] of code points below 128 (ASCII text,
      [Py.ascii_text]), which is what colour codes and the script
      templates are made of; the string methods are embedded as they act
      on such text, and every statement that depends on it carries
      [ascii_text] as a hypothesis;
    - a Python [int] is a [Z], a Python [float] is a primitive binary64
      [float] (same format and rounding as CPython's); conversions
      between the two are embedded for integers below 2^53, which covers
      colour channels and canvas sizes;
    - a raised exception is a value [Raise e] of [Py.result]. *)

From Stdlib Require Import ZArith Bool List String Ascii Lia.
From Stdlib Require Import Floats.PrimFloat Floats.FloatOps Floats.SpecFloat.
From Stdlib Require Import Numbers.Cyclic.Int63.Uint63.
From Stdlib Require Import Numbers.DecimalString.
From Stdlib Require DecimalNat DecimalFacts.
From Stdlib Require Floats.FloatAxioms.
From stdpp Require Import gmap strings list.

Set Warnings "-inexact-float".

Local Open Scope string_scope.
Local Open Scope Z_scope.

(* ================================================================== *)
(** * The Python built-ins the program relies on *)
(* ================================================================== *)

Module Py.

(** The exception classes that the modelled code can raise. *)
Inductive exn : Set :=
| ValueError | TypeError | OverflowError | ZeroDivisionError | IndexError
| OSError.

Inductive result (A : Type) : Type :=
| Ok (a : A)
| Raise (e : exn).
Arguments Ok {A} a.
Arguments Raise {A} e.

Definition rbind {A B} (r : result A) (k : A -> result B) : result B :=
  match r with
  | Ok a => k a
  | Raise e => Raise e
  end.

Notation "'try!' x <- e ; k" := (rbind e (fun x => k))
  (at level 20, x pattern, e at level 100, k at level 200).

(** ** Characters *)

Definition code (c : ascii) : N := N_of_ascii c.

Definition between (lo hi : N) (c : ascii) : bool :=
  (lo <=? code c)%N && (code c <=? hi)%N.

(** The text the embedding covers: every character is a code point
    below 128. *)
Definition is_ascii (c : ascii) : bool := (code c <? 128)%N.

(** [str.isspace] on ASCII: TAB, LF, VT, FF, CR, FS, GS, RS, US, SPACE.
    (Python counts further code points from 133 on as blank.) *)
Definition isspace (c : ascii) : bool :=
  between 9 13 c || between 28 32 c.

(** The blanks that [int()] skips around an ASCII literal. *)
Definition int_isspace (c : ascii) : bool :=
  between 9 13 c || Ascii.eqb c " ".

(** [str.upper] and [str.lower] on one ASCII character.  (Off ASCII
    Python's case mappings can change the number of characters.) *)
Definition upper_char (c : ascii) : ascii :=
  if between 97 122 c then ascii_of_N (code c - 32) else c.

Definition lower_char (c : ascii) : ascii :=
  if between 65 90 c then ascii_of_N (code c + 32) else c.

Definition hex_digit (c : ascii) : option Z :=
  if between 48 57 c then Some (Z.of_N (code c) - 48)
  else if between 97 102 c then Some (Z.of_N (code c) - 87)
  else if between 65 70 c then Some (Z.of_N (code c) - 55)
  else None.

(** ** Strings *)

Fixpoint smap (f : ascii -> ascii) (s : string) : string :=
  match s with
  | EmptyString => EmptyString
  | String c r => String (f c) (smap f r)
  end.

Definition upper : string -> string := smap upper_char.
Definition lower : string -> string := smap lower_char.

(** [s.replace(old, new)] for one-character [old] and [new]. *)
Definition replace_char (old new : ascii) : string -> string :=
  smap (fun c => if Ascii.eqb c old then new else c).

Fixpoint sall (p : ascii -> bool) (s : string) : bool :=
  match s with
  | EmptyString => true
  | String c r => p c && sall p r
  end.

Definition ascii_text (s : string) : bool := sall is_ascii s.

(** [s.lstrip(...)]: drop the longest prefix of characters satisfying [p]. *)
Fixpoint lstrip_with (p : ascii -> bool) (s : string) : string :=
  match s with
  | EmptyString => EmptyString
  | String c r => if p c then lstrip_with p r else s
  end.

Fixpoint rstrip_with (p : ascii -> bool) (s : string) : string :=
  match s with
  | EmptyString => EmptyString
  | String c r =>
      match rstrip_with p r with
      | EmptyString => if p c then EmptyString else String c EmptyString
      | r' => String c r'
      end
  end.

(** [s.strip()] *)
Definition strip (s : string) : string :=
  rstrip_with isspace (lstrip_with isspace s).

(** [s.split()]: the maximal runs of non-blank characters, in order.
    [cur] is the word being scanned. *)
Fixpoint split_go (cur : string) (s : string) : list string :=
  match s with
  | EmptyString =>
      match cur with EmptyString => [] | _ => [cur] end
  | String c r =>
      if isspace c then
        match cur with
        | EmptyString => split_go EmptyString r
        | _ => cur :: split_go EmptyString r
        end
      else split_go (cur +:+ String c EmptyString) r
  end.

Definition split (s : string) : list string := split_go EmptyString s.

(** [s[i:i+n]], clipped to the string like a Python slice. *)
Definition slice (i n : nat) (s : string) : string := substring i n s.

(** ** [int(s, 16)] on ASCII text *)

(** The digit scan of [PyLong_FromString]: hexadecimal digits with single
    underscores between them.  Returns the value, whether a character was
    consumed, and the unread rest. *)
Fixpoint digits16 (acc : Z) (seen prev_us : bool) (s : string)
  : option (Z * bool * string) :=
  match s with
  | EmptyString => if prev_us then None else Some (acc, seen, s)
  | String c r =>
      match hex_digit c with
      | Some d => digits16 (acc * 16 + d) true false r
      | None =>
          if Ascii.eqb c "_" then
            if prev_us then None else digits16 acc true true r
          else if prev_us then None else Some (acc, seen, s)
      end
  end.

Definition skip_sign (s : string) : bool * string :=
  match s with
  | String c r =>
      if Ascii.eqb c "+" then (false, r)
      else if Ascii.eqb c "-" then (true, r)
      else (false, s)
  | EmptyString => (false, s)
  end.

(** An optional [0x]/[0X] prefix, after which one underscore is allowed. *)
Definition skip_0x (s : string) : string :=
  match s with
  | String c0 (String c1 r) =>
      if Ascii.eqb c0 "0" && (Ascii.eqb c1 "x" || Ascii.eqb c1 "X") then
        match r with
        | String c2 r' => if Ascii.eqb c2 "_" then r' else r
        | EmptyString => r
        end
      else s
  | _ => s
  end.

Definition starts_with_underscore (s : string) : bool :=
  match s with
  | String c _ => Ascii.eqb c "_"
  | EmptyString => false
  end.

Definition int16 (s : string) : result Z :=
  let s1 := lstrip_with int_isspace s in
  let '(neg, s2) := skip_sign s1 in
  let s3 := skip_0x s2 in
  if starts_with_underscore s3 then Raise ValueError else
  match digits16 0 false false s3 with
  | Some (v, true, rest) =>
      if sall int_isspace rest then Ok (if neg then - v else v)
      else Raise ValueError
  | _ => Raise ValueError
  end.

(** ** Loops *)

(** [for i in l: s = body(i, s)], stopping at the first exception. *)
Fixpoint for_each {S : Type} (l : list nat) (body : nat -> S -> result S)
  (s : S) : result S :=
  match l with
  | [] => Ok s
  | i :: l' => try! s' <- body i s; for_each l' body s'
  end.

(** [for i in range(n)] *)
Definition for_range {S : Type} (n : nat) : (nat -> S -> result S) -> S -> result S :=
  for_each (seq 0 n).

(** ** Numbers *)

(** [float(z)] for [|z| <= 2^53], where the conversion is exact: the
    conversion Python applies to an [int] operand that meets a [float].
    (Python converts larger integers too; they are not embedded, and
    the statements below stay within colour channels and canvas sizes
    under 2^53.) *)
Definition float_of_int (z : Z) : float :=
  match z with
  | Z0 => PrimFloat.zero
  | Zpos _ => PrimFloat.of_uint63 (Uint63.of_Z z)
  | Zneg p => PrimFloat.opp (PrimFloat.of_uint63 (Uint63.of_Z (Zpos p)))
  end.

(** [int(x)]: truncation toward zero; [nan] and the infinities raise. *)
Definition int_of_float (x : float) : result Z :=
  match Prim2SF x with
  | S754_zero _ => Ok 0
  | S754_finite s m e =>
      let v := Z.shiftl (Zpos m) e in
      Ok (if s then - v else v)
  | S754_infinity _ => Raise OverflowError
  | S754_nan => Raise ValueError
  end.

(** [round(x)] to the nearest integer, ties to even. *)
Definition round_of_float (x : float) : result Z :=
  try! t <- int_of_float x;
  let d := PrimFloat.abs (PrimFloat.sub x (float_of_int t)) in
  let away := if PrimFloat.ltb x PrimFloat.zero then t - 1 else t + 1 in
  if PrimFloat.ltb d 0.5%float then Ok t
  else if PrimFloat.ltb 0.5%float d then Ok away
  else Ok (if Z.even t then t else away).

(** [a / b] on two [int]s (true division) up to 2^53 in magnitude.
    CPython returns a signed zero for a zero dividend and divides the
    two converted operands when both are exactly representable. *)
Definition truediv (a b : Z) : result float :=
  if b =? 0 then Raise ZeroDivisionError
  else if a =? 0 then
    Ok (if b <? 0 then PrimFloat.opp PrimFloat.zero else PrimFloat.zero)
  else Ok (PrimFloat.div (float_of_int a) (float_of_int b)).

(** [x / y] on two [float]s. *)
Definition fdiv (x y : float) : result float :=
  if PrimFloat.eqb y PrimFloat.zero then Raise ZeroDivisionError
  else Ok (PrimFloat.div x y).

(** C's [fmod(x, 1.0)]: the fractional part, with the sign of [x]. *)
Definition fmod_one (x : float) : float :=
  match Prim2SF x with
  | S754_zero _ => x
  | S754_finite s m e =>
      if 0 <=? e then
        (if s then PrimFloat.opp PrimFloat.zero else PrimFloat.zero)
      else
        let t := Z.shiftl (Zpos m) e in
        PrimFloat.sub x (float_of_int (if s then - t else t))
  | _ => PrimFloat.nan
  end.

(** [x % 1.0]: the remainder takes the sign of the divisor. *)
Definition mod_one (x : float) : float :=
  let m := fmod_one x in
  if PrimFloat.eqb m PrimFloat.zero then PrimFloat.zero
  else if PrimFloat.ltb m PrimFloat.zero then PrimFloat.add m PrimFloat.one
  else m.

(** [max(a, b, c)] and [min(a, b, c)]: the first maximal (minimal) item. *)
Definition max3 (a b c : float) : float :=
  let m := if PrimFloat.ltb a b then b else a in
  if PrimFloat.ltb m c then c else m.

Definition min3 (a b c : float) : float :=
  let m := if PrimFloat.ltb b a then b else a in
  if PrimFloat.ltb c m then c else m.

(** ** [s.split(sep)] and [int(s)] *)

(** [s.split(sep)] for a one-character separator: the pieces between
    the separators, empty ones included.  [cur] is the piece being read. *)
Fixpoint split_on (sep : ascii) (cur : string) (s : string) : list string :=
  match s with
  | EmptyString => [cur]
  | String c r =>
      if Ascii.eqb c sep then cur :: split_on sep EmptyString r
      else split_on sep (cur +:+ String c EmptyString) r
  end.

Definition dec_digit (c : ascii) : option Z :=
  if between 48 57 c then Some (Z.of_N (code c) - 48) else None.

(** The digit scan of [PyLong_FromString] in base 10: decimal digits
    with single underscores between them.  Returns the value, the number
    of digits read, and the unread rest. *)
Fixpoint digits10 (acc : Z) (count : nat) (prev_us : bool) (s : string)
  : option (Z * nat * string) :=
  match s with
  | EmptyString => if prev_us then None else Some (acc, count, s)
  | String c r =>
      match dec_digit c with
      | Some d => digits10 (acc * 10 + d) (S count) false r
      | None =>
          if Ascii.eqb c "_" then
            if prev_us then None else digits10 acc count true r
          else if prev_us then None else Some (acc, count, s)
      end
  end.

(** [sys.get_int_max_str_digits()], as the interpreter starts. *)
Definition int_max_str_digits : nat := 4300.

(** [int(s)]: blanks, a sign, digits, blanks; no digit and too many
    digits are errors. *)
Definition int10 (s : string) : result Z :=
  let s1 := lstrip_with int_isspace s in
  let '(neg, s2) := skip_sign s1 in
  if starts_with_underscore s2 then Raise ValueError else
  match digits10 0 0 false s2 with
  | Some (v, count, rest) =>
      if (count =? 0)%nat then Raise ValueError
      else if (int_max_str_digits <? count)%nat then Raise ValueError
      else if sall int_isspace rest then Ok (if neg then - v else v)
      else Raise ValueError
  | None => Raise ValueError
  end.

End Py.

Import Py.

(* ================================================================== *)
(** * The standard module [colorsys] *)
(* ================================================================== *)

Module Colorsys.

Local Open Scope float_scope.

Definition rgb_to_hsv (r g b : float) : result (float * float * float) :=
  let maxc := max3 r g b in
  let minc := min3 r g b in
  let rangec := maxc - minc in
  let v := maxc in
  if PrimFloat.eqb minc maxc then Ok (0, 0, v) else
  try! s <- fdiv rangec maxc;
  try! rc <- fdiv (maxc - r) rangec;
  try! gc <- fdiv (maxc - g) rangec;
  try! bc <- fdiv (maxc - b) rangec;
  let h := if PrimFloat.eqb r maxc then bc - gc
           else if PrimFloat.eqb g maxc then 2 + rc - bc
           else 4 + gc - rc in
  Ok (mod_one (h / 6), s, v).

Definition hsv_to_rgb (h s v : float) : result (float * float * float) :=
  if PrimFloat.eqb s 0 then Ok (v, v, v) else
  try! i <- int_of_float (h * 6);
  let f := h * 6 - float_of_int i in
  let p := v * (1 - s) in
  let q := v * (1 - s * f) in
  let t := v * (1 - s * (1 - f)) in
  let i := (i mod 6)%Z in
  if (i =? 0)%Z then Ok (v, t, p)
  else if (i =? 1)%Z then Ok (q, v, p)
  else if (i =? 2)%Z then Ok (p, v, t)
  else if (i =? 3)%Z then Ok (p, q, v)
  else if (i =? 4)%Z then Ok (t, p, v)
  else if (i =? 5)%Z then Ok (v, p, q)
  else Raise TypeError.  (* falls off the end: [None] cannot be unpacked *)

End Colorsys.


(* ================================================================== *)
(** * [icon_generator.py]: class [IconGenerator] *)
(* ================================================================== *)

Module IconGenerator.

Definition rgb : Type := Z * Z * Z.

Definition DEFAULT_SIZE : nat := 256.
Definition DEFAULT_BG_COLOR : rgb := (66, 133, 244).
Definition DEFAULT_TEXT_COLOR : rgb := (255, 255, 255).

(** [w[0]] *)
Definition first_char (w : string) : result string :=
  match w with
  | String c _ => Ok (String c EmptyString)
  | EmptyString => Raise IndexError
  end.

Definition get_initials (text : string) : result string :=
  let words := split (strip text) in
  match words with
  | [] => Ok "?"
  | [w] => Ok (upper (slice 0 2 w))
  | w0 :: w1 :: _ =>
      try! a <- first_char w0;
      try! b <- first_char w1;
      Ok (upper (a +:+ b))
  end.

Definition hex_to_rgb (hex_color : string) : result rgb :=
  let hex_color := lstrip_with (Ascii.eqb "#") hex_color in
  try! r <- int16 (slice 0 2 hex_color);
  try! g <- int16 (slice 2 2 hex_color);
  try! b <- int16 (slice 4 2 hex_color);
  Ok (r, g, b).

Section Shade.
Local Open Scope float_scope.

(** The three channels scaled to [[0,1]] and taken to HSV. *)
Definition to_hsv (c : rgb) : result (float * float * float) :=
  let '(r, g, b) := c in
  try! fr <- truediv r 255;
  try! fg <- truediv g 255;
  try! fb <- truediv b 255;
  Colorsys.rgb_to_hsv fr fg fb.

Definition lighten_color (c : rgb) (factor : float) : result rgb :=
  try! (h, s, v) <- to_hsv c;
  let v := if PrimFloat.ltb (v + factor) 1 then v + factor else 1 in
  try! (r, g, b) <- Colorsys.hsv_to_rgb h s v;
  try! r' <- int_of_float (r * 255);
  try! g' <- int_of_float (g * 255);
  try! b' <- int_of_float (b * 255);
  Ok (r', g', b').

(** [max(0, v - factor)] yields the integer [0] when the difference is
    not positive; [hsv_to_rgb] and the final [int(_ * 255)] compute the
    same channels from it as from [0.0], which stands for it here. *)
Definition darken_color (c : rgb) (factor : float) : result rgb :=
  try! (h, s, v) <- to_hsv c;
  let v := if PrimFloat.ltb 0 (v - factor) then v - factor else 0 in
  try! (r, g, b) <- Colorsys.hsv_to_rgb h s v;
  try! r' <- int_of_float (r * 255);
  try! g' <- int_of_float (g * 255);
  try! b' <- int_of_float (b * 255);
  Ok (r', g', b').

End Shade.

(** ** The raster *)

(** A PIL image in mode RGB: rows of pixels, [img !! y !! x]. *)
Abbreviation image := (list (list rgb)).

(** PIL stores a channel of mode RGB in one byte: a value given to
    [Image.new] or [putpixel] is clipped to [0..255]. *)
Definition clip8 (v : Z) : Z := Z.max 0 (Z.min 255 v).

Definition clip_color (c : rgb) : rgb :=
  (clip8 c.1.1, clip8 c.1.2, clip8 c.2).

(** [Image.new('RGB', (size, size), color)] *)
Definition new_image (size : nat) (color : rgb) : image :=
  replicate size (replicate size (clip_color color)).

(** [img.putpixel((x, y), color)] *)
Definition putpixel (img : image) (x y : nat) (color : rgb) : result image :=
  match img !! y with
  | Some row =>
      if (x <? length row)%nat
      then Ok (<[y := <[x := clip_color color]> row]> img)
      else Raise IndexError
  | None => Raise IndexError
  end.

Definition getpixel (img : image) (x y : nat) : option rgb :=
  row ← img !! y; row !! x.

(** One channel of a gradient row:
    [int(bg * (1 - ratio) + darker * ratio)]. *)
Definition blend (bg darker : Z) (ratio : float) : result Z :=
  int_of_float
    (PrimFloat.add
       (PrimFloat.mul (float_of_int bg) (PrimFloat.sub PrimFloat.one ratio))
       (PrimFloat.mul (float_of_int darker) ratio)).

(** The colour computed for row [y] by the body of the gradient loop. *)
Definition gradient_row (size : nat) (bg darker : rgb) (y : nat) : result rgb :=
  try! ratio <- truediv (Z.of_nat y) (Z.of_nat size);
  try! r <- blend bg.1.1 darker.1.1 ratio;
  try! g <- blend bg.1.2 darker.1.2 ratio;
  try! b <- blend bg.2 darker.2 ratio;
  Ok (r, g, b).

(** The background stage of [generate_icon]: the flat fill and, when
    requested, the gradient painted over it pixel by pixel. *)
Definition background (size : nat) (bg_color : rgb) (with_gradient : bool)
  : result image :=
  let img := new_image size bg_color in
  if with_gradient then
    try! darker <- darken_color bg_color 0.15%float;
    for_range size (fun y img =>
      try! c <- gradient_row size bg_color darker y;
      for_range size (fun x img => putpixel img x y c) img) img
  else Ok img.

(** ** Fonts *)

Definition bold_fonts : list string :=
  [ "/usr/share/fonts/truetype/dejavu/DejaVuSans-Bold.ttf";
    "/usr/share/fonts/truetype/liberation/LiberationSans-Bold.ttf";
    "/System/Library/Fonts/Helvetica.ttc";
    "C:\Windows\Fonts\arial.ttf" ].

Definition regular_fonts : list string :=
  [ "/usr/share/fonts/truetype/dejavu/DejaVuSans.ttf";
    "/usr/share/fonts/truetype/liberation/LiberationSans-Regular.ttf";
    "/System/Library/Fonts/Helvetica.ttc";
    "C:\Windows\Fonts\arial.ttf" ].

(** [exists] is [os.path.exists]. *)
Definition _get_font_path (exists_ : string -> bool) (bold : bool) : string :=
  let font_names := if bold then bold_fonts else regular_fonts in
  match filter (fun p => exists_ p = true) font_names with
  | p :: _ => p
  | [] => default EmptyString (head font_names)
  end.

(** ** [generate_icon] *)

(** The [bg_color] and [text_color] arguments: [None], a hex string or a
    tuple. *)
Inductive color_arg : Type :=
| NoColor
| HexColor (s : string)
| TupleColor (c : rgb).

Definition resolve_color (dflt : rgb) (a : color_arg) : result rgb :=
  match a with
  | NoColor => Ok dflt
  | HexColor s => hex_to_rgb s
  | TupleColor c => Ok c
  end.

(** What [generate_icon] hands to PIL: the painted background and the
    parameters of the two drawing calls ([draw.text], [draw.rectangle]).
    Glyph rasterisation and the measured text box belong to PIL. *)
Record drawing : Type := Drawing {
  canvas : image;
  initials : string;
  text_fill : rgb;
  font_path : string;
  font_size : Z;
  border_color : rgb;
  border_box : (Z * Z) * (Z * Z);
  border_width : Z
}.

Definition generate_icon (exists_ : string -> bool) (size : nat)
  (app_name : string) (bg_color text_color : color_arg) (bold : bool)
  (with_gradient : bool) : result drawing :=
  try! bg <- resolve_color DEFAULT_BG_COLOR bg_color;
  try! fg <- resolve_color DEFAULT_TEXT_COLOR text_color;
  try! img <- background size bg with_gradient;
  try! ini <- get_initials app_name;
  try! fsize <- int_of_float
                  (PrimFloat.mul (float_of_int (Z.of_nat size)) 0.5%float);
  let fpath := _get_font_path exists_ bold in
  try! border <- darken_color bg 0.1%float;
  (* [draw.rectangle] refuses a box whose second corner lies before
     the first *)
  if (size =? 0)%nat then Raise ValueError else
  Ok {| canvas := img; initials := ini; text_fill := fg;
        font_path := fpath; font_size := fsize; border_color := border;
        border_box := ((0, 0), (Z.of_nat size - 1, Z.of_nat size - 1));
        border_width := 2 |}.

(** ** [rgb_to_hex] *)

(** One hexadecimal digit, in lower case. *)
Definition hex_char (d : Z) : ascii :=
  ascii_of_N (Z.to_N (if d <? 10 then 48 + d else 87 + d)).

(** [format(n, 'x')] for [0 <= n]: the digits, the most significant
    first.  [fuel] bounds their number. *)
Fixpoint hex_of (fuel : nat) (n : Z) (acc : string) : string :=
  match fuel with
  | O => acc
  | S fuel' =>
      let acc' := String (hex_char (n mod 16)) acc in
      if n / 16 =? 0 then acc' else hex_of fuel' (n / 16) acc'
  end.

Definition format_x (n : Z) : string :=
  hex_of (S (Z.to_nat (Z.log2 n))) n EmptyString.

Fixpoint zeros (n : nat) : string :=
  match n with
  | O => EmptyString
  | S n' => String "0" (zeros n')
  end.

(** ['{:02x}'.format(v)]: the sign of a negative number, zeros up to a
    width of two characters, the digits. *)
Definition format_02x (v : Z) : string :=
  let digits := format_x (Z.abs v) in
  let sign := if v <? 0 then "-" else EmptyString in
  sign +:+ zeros (2 - String.length sign - String.length digits) +:+ digits.

Definition rgb_to_hex (c : rgb) : string :=
  let '(r, g, b) := c in
  "#" +:+ format_02x r +:+ format_02x g +:+ format_02x b.

(** ** Preset styles *)

(** The palettes, each as its ['bg'] and its ['text'] colour. *)
Definition COLOR_PALETTES : list (rgb * rgb) :=
  [ ((66, 133, 244), (255, 255, 255));
    ((219, 68, 55), (255, 255, 255));
    ((244, 81, 30), (255, 255, 255));
    ((251, 188, 5), (50, 50, 50));
    ((52, 168, 83), (255, 255, 255));
    ((156, 39, 176), (255, 255, 255));
    ((0, 150, 136), (255, 255, 255));
    ((63, 81, 181), (255, 255, 255));
    ((233, 30, 99), (255, 255, 255));
    ((76, 175, 80), (255, 255, 255)) ].

Definition get_color_palettes : list (rgb * rgb) := COLOR_PALETTES.

(** [l[i]] for a list and an index that is not negative. *)
Definition item {A : Type} (l : list A) (i : nat) : result A :=
  match l !! i with
  | Some x => Ok x
  | None => Raise IndexError
  end.

(** The palette of a style.  [drawn] is the position [random.choice]
    draws, taken below the number of palettes. *)
Definition style_palette (drawn : nat) (style : string) : result (rgb * rgb) :=
  if String.eqb style "auto" then
    item COLOR_PALETTES (drawn mod length COLOR_PALETTES)
  else
    try! part <- item (split_on "_" EmptyString style) 1;
    try! n <- int10 part;
    let idx := n - 1 in
    item COLOR_PALETTES
      (Z.to_nat (idx mod Z.of_nat (length COLOR_PALETTES))).

Definition generate_icon_with_style (exists_ : string -> bool) (size : nat)
  (drawn : nat) (app_name style : string) : result drawing :=
  try! palette <- style_palette drawn style;
  generate_icon exists_ size app_name (TupleColor palette.1)
    (TupleColor palette.2) false true.

End IconGenerator.

(* ================================================================== *)
(** * [main.py]: class [PythonAppLauncher] *)
(* ================================================================== *)

Module Launcher.

Import IconGenerator.

(** ** Text helpers *)

Definition nl : string := String "010"%char EmptyString.
Definition dq : string := String "034"%char EmptyString.
Definition sq : string := String "039"%char EmptyString.

(** A block of text: every line terminated by a newline. *)
Fixpoint unlines (ls : list string) : string :=
  match ls with
  | [] => EmptyString
  | l :: ls' => l +:+ nl +:+ unlines ls'
  end.

Definition str_of_nat (n : nat) : string :=
  NilEmpty.string_of_uint (Nat.to_uint n).

(** [str(b).lower()] *)
Definition str_lower_bool (b : bool) : string :=
  if b then "true" else "false".

(** [s or dflt] *)
Definition or_default (s dflt : string) : string :=
  match s with EmptyString => dflt | _ => s end.

(** ** [os.path] (the POSIX flavour) *)

Definition starts_with_slash (s : string) : bool :=
  match s with String c _ => Ascii.eqb c "/" | EmptyString => false end.

Fixpoint ends_with_slash (s : string) : bool :=
  match s with
  | EmptyString => false
  | String c EmptyString => Ascii.eqb c "/"
  | String _ r => ends_with_slash r
  end.

Definition join2 (a b : string) : string :=
  if starts_with_slash b then b
  else match a with
       | EmptyString => b
       | _ => if ends_with_slash a then a +:+ b else a +:+ "/" +:+ b
       end.

(** [os.path.join(a, *ps)] *)
Definition join (a : string) (ps : list string) : string :=
  fold_left join2 ps a.

(** [(head, tail)] around the last slash, the slash kept in [head];
    [cur] collects the characters read since the last slash. *)
Fixpoint split_last_slash (hd cur s : string) : string * string :=
  match s with
  | EmptyString => (hd, cur)
  | String c r =>
      if Ascii.eqb c "/"
      then split_last_slash (hd +:+ cur +:+ "/") EmptyString r
      else split_last_slash hd (cur +:+ String c EmptyString) r
  end.

Definition basename (p : string) : string :=
  (split_last_slash EmptyString EmptyString p).2.

Definition dirname (p : string) : string :=
  let hd := (split_last_slash EmptyString EmptyString p).1 in
  if sall (Ascii.eqb "/") hd then hd
  else rstrip_with (Ascii.eqb "/") hd.

(** ** Application descriptors *)

Record icon_settings : Type := IconSettings {
  bg_color : string;
  text_color : string;
  bold : bool;
  gradient : bool
}.

(** One entry of [saved_apps]: the dictionary built by
    [save_and_create_script], with the keys later operations add.
    [None] stands for an absent key (for [last_run] also for the value
    [None], which the program never tells apart). *)
Record app : Type := App {
  name : string;
  venv : string;
  script : string;
  args : option string;
  workdir : option string;
  created : option string;
  last_run : option string;
  activation_script : option string;
  launcher_script : option string;
  desktop_file : option string;
  icon_path : option string;
  icon_type : option string;
  icon_settings_of : option icon_settings;
  icon_name : option string
}.

Definition set_last_run (v : option string) (a : app) : app :=
  App (name a) (venv a) (script a) (args a) (workdir a) (created a) v
      (activation_script a) (launcher_script a) (desktop_file a)
      (icon_path a) (icon_type a) (icon_settings_of a) (icon_name a).

Definition set_scripts (act lau : string) (a : app) : app :=
  App (name a) (venv a) (script a) (args a) (workdir a) (created a)
      (last_run a) (Some act) (Some lau) (desktop_file a)
      (icon_path a) (icon_type a) (icon_settings_of a) (icon_name a).

Definition set_desktop_file (v : option string) (a : app) : app :=
  App (name a) (venv a) (script a) (args a) (workdir a) (created a)
      (last_run a) (activation_script a) (launcher_script a) v
      (icon_path a) (icon_type a) (icon_settings_of a) (icon_name a).

Definition set_generated_icon (path : string) (st : icon_settings) (a : app) : app :=
  App (name a) (venv a) (script a) (args a) (workdir a) (created a)
      (last_run a) (activation_script a) (launcher_script a) (desktop_file a)
      (Some path) (Some "generated") (Some st) (icon_name a).

Definition set_custom_icon (path : string) (a : app) : app :=
  App (name a) (venv a) (script a) (args a) (workdir a) (created a)
      (last_run a) (activation_script a) (launcher_script a) (desktop_file a)
      (Some path) (Some "custom") (icon_settings_of a) (icon_name a).

Definition set_system_icon (nm : string) (a : app) : app :=
  App (name a) (venv a) (script a) (args a) (workdir a) (created a)
      (last_run a) (activation_script a) (launcher_script a) (desktop_file a)
      (icon_path a) (Some "system") (icon_settings_of a) (Some nm).

(** ** The world the program runs in *)

(** A reading of [datetime.now()], known by the two renderings the
    program takes of it. *)
Record datetime : Type := DateTime {
  isoformat : string;      (* .isoformat() *)
  hms : string             (* .strftime("%H:%M:%S") *)
}.

(** The Tk variables behind the two forms. *)
Record form : Type := Form {
  app_name_var : string;
  venv_path_var : string;
  script_path_var : string;
  args_var : string;
  workdir_var : string;
  icon_type_var : string;
  bg_color_var : string;
  text_color_var : string;
  bold_icon_var : bool;
  gradient_icon_var : bool;
  custom_icon_path_var : string;
  icon_name_var : string;
  categories_var : string;
  terminal_var : bool
}.

Inductive node : Type :=
| File (content : string) (mode : option Z)
| Dir.

(** What the program does to its surroundings, in order. *)
Inductive event : Type :=
| Write (path content : string)
| Chmod (path : string) (mode : Z)
| Mkdir (path : string)
| Popen (argv : list string) (shell new_session : bool)
| Message (kind title text : string)
| Ask (title text : string) (answer : bool).

(** What is outside the program: the host, the clock, the user, the
    operating system's consent, and the libraries [json] and PIL. *)
Record Env : Type := {
  system : string;                       (* platform.system() *)
  home : string;                         (* os.path.expanduser("~") *)
  now : nat -> datetime;                 (* successive clock readings *)
  answers : nat -> bool;                 (* successive yes/no answers *)
  can_write : string -> bool;            (* may this path be created or written *)
  can_spawn : list string -> bool;       (* can this command be started *)
  describe : exn -> string;              (* str(e) *)
  json_dump : list app -> string;        (* json.dump(_, indent=2) *)
  json_load : string -> option (list app);  (* json.load; None when it raises *)
  png : drawing -> string                (* PIL's rendering and PNG encoding *)
}.

Record World : Type := {
  saved_apps : list app;
  vars : form;
  fs : gmap string node;
  ticks : nat;
  asked : nat;
  events : list event;
  output_text : list (string * string);
  desktop_console : list (string * string)
}.

Definition with_saved_apps (l : list app) (w : World) : World :=
  Build_World l (vars w) (fs w) (ticks w) (asked w) (events w)
    (output_text w) (desktop_console w).

Definition with_fs (m : gmap string node) (w : World) : World :=
  Build_World (saved_apps w) (vars w) m (ticks w) (asked w) (events w)
    (output_text w) (desktop_console w).

Definition with_ticks (n : nat) (w : World) : World :=
  Build_World (saved_apps w) (vars w) (fs w) n (asked w) (events w)
    (output_text w) (desktop_console w).

Definition with_asked (n : nat) (w : World) : World :=
  Build_World (saved_apps w) (vars w) (fs w) (ticks w) n (events w)
    (output_text w) (desktop_console w).

Definition with_events (l : list event) (w : World) : World :=
  Build_World (saved_apps w) (vars w) (fs w) (ticks w) (asked w) l
    (output_text w) (desktop_console w).

Definition with_output_text (l : list (string * string)) (w : World) : World :=
  Build_World (saved_apps w) (vars w) (fs w) (ticks w) (asked w) (events w)
    l (desktop_console w).

Definition with_desktop_console (l : list (string * string)) (w : World) : World :=
  Build_World (saved_apps w) (vars w) (fs w) (ticks w) (asked w) (events w)
    (output_text w) l.

(** ** Computations: a state that survives exceptions *)

Definition M (A : Type) : Type := World -> result A * World.

Definition ret {A} (a : A) : M A := fun w => (Ok a, w).

Definition bind {A B} (m : M A) (k : A -> M B) : M B :=
  fun w => match m w with
           | (Ok a, w') => k a w'
           | (Raise e, w') => (Raise e, w')
           end.

Definition raise {A} (e : exn) : M A := fun w => (Raise e, w).

(** [try: m  except Exception as e: h e] *)
Definition catch {A} (m : M A) (h : exn -> M A) : M A :=
  fun w => match m w with
           | (Ok a, w') => (Ok a, w')
           | (Raise e, w') => h e w'
           end.

Definition gets {A} (f : World -> A) : M A := fun w => (Ok (f w), w).
Definition modify (f : World -> World) : M unit := fun w => (Ok tt, f w).
Definition lift {A} (r : result A) : M A := fun w => (r, w).

Notation "'do' x <- e ; k" := (bind e (fun x => k))
  (at level 20, x pattern, e at level 100, k at level 200).
Notation "e ;; k" := (bind e (fun _ => k))
  (at level 100, k at level 200, right associativity).

Definition emit (ev : event) : M unit :=
  modify (fun w => with_events (events w ++ [ev]) w).

Section Program.

Variable E : Env.

(** ** Effects *)

Definition datetime_now : M datetime :=
  do n <- gets ticks;
  modify (with_ticks (S n));;
  ret (now E n).

Definition timestamped (t : datetime) (message : string) : string :=
  "[" +:+ hms t +:+ "] " +:+ message +:+ nl.

Definition log_to_console (message tag : string) : M unit :=
  do t <- datetime_now;
  modify (fun w => with_output_text (output_text w ++ [(timestamped t message, tag)]) w).

Definition desktop_log (message tag : string) : M unit :=
  do t <- datetime_now;
  modify (fun w =>
    with_desktop_console (desktop_console w ++ [(timestamped t message, tag)]) w).

(** [os.path.exists] *)
Definition path_exists (w : World) (p : string) : bool :=
  bool_decide (is_Some (fs w !! p)).

Definition exists_ (p : string) : M bool := gets (fun w => path_exists w p).

(** [with open(path, 'w') as f: f.write(content)] *)
Definition write_file (path content : string) : M unit :=
  do m <- gets fs;
  match m !! path with
  | Some Dir => raise OSError
  | Some (File _ mode) =>
      if can_write E path
      then modify (with_fs (<[path := File content mode]> m));;
           emit (Write path content)
      else raise OSError
  | None =>
      if can_write E path
      then modify (with_fs (<[path := File content None]> m));;
           emit (Write path content)
      else raise OSError
  end.

(** [with open(path, 'r') as f: f.read()] *)
Definition read_file (path : string) : M string :=
  do m <- gets fs;
  match m !! path with
  | Some (File content _) => ret content
  | _ => raise OSError
  end.

(** [os.chmod(path, mode)] *)
Definition chmod (path : string) (mode : Z) : M unit :=
  do m <- gets fs;
  match m !! path with
  | Some (File content _) =>
      modify (with_fs (<[path := File content (Some mode)]> m));;
      emit (Chmod path mode)
  | Some Dir => emit (Chmod path mode)
  | None => raise OSError
  end.

(** [os.makedirs(path, exist_ok=True)] *)
Definition makedirs (path : string) : M unit :=
  do m <- gets fs;
  match m !! path with
  | Some Dir => ret tt
  | Some (File _ _) => raise OSError
  | None =>
      if can_write E path
      then modify (with_fs (<[path := Dir]> m));; emit (Mkdir path)
      else raise OSError
  end.

(** [subprocess.Popen(argv, ...)] *)
Definition popen (argv : list string) (shell new_session : bool) : M unit :=
  if can_spawn E argv then emit (Popen argv shell new_session)
  else raise OSError.

Definition showerror (title text : string) : M unit :=
  emit (Message "error" title text).
Definition showwarning (title text : string) : M unit :=
  emit (Message "warning" title text).
Definition showinfo (title text : string) : M unit :=
  emit (Message "info" title text).

Definition askyesno (title text : string) : M bool :=
  do n <- gets asked;
  modify (with_asked (S n));;
  emit (Ask title text (answers E n));;
  ret (answers E n).

(** ** Artifact names *)

Definition config_dir : string := join (home E) [".python_app_launcher"].
Definition scripts_dir : string := join config_dir ["scripts"].
Definition apps_file : string := join config_dir ["apps.json"].

(** [app_name.lower().replace(' ', '_').replace('-', '_')] *)
Definition safe_name (app_name : string) : string :=
  replace_char "-" "_" (replace_char " " "_" (lower app_name)).

Definition quoted (s : string) : string := dq +:+ s +:+ dq.

Definition on_windows : bool := String.eqb (system E) "Windows".

(** ** Script templates *)

Definition posix_activation (app_name workdir venv_path script_path args_ : string)
  : string :=
  unlines
    [ "#!/bin/bash";
      "echo " +:+ quoted ("Running " +:+ app_name +:+ "...");
      "echo " +:+ quoted EmptyString;
      EmptyString;
      "# Change to working directory";
      "cd " +:+ quoted workdir;
      EmptyString;
      "# Activate virtual environment";
      "echo " +:+ quoted "Activating virtual environment...";
      "source " +:+ quoted (join venv_path ["bin"; "activate"]);
      EmptyString;
      "# Run the Python script";
      "echo " +:+ quoted ("Running script: " +:+ basename script_path);
      "python3 " +:+ quoted script_path +:+ " " +:+ args_;
      EmptyString;
      "# Keep terminal open";
      "echo " +:+ quoted EmptyString;
      "echo " +:+ quoted "Script execution complete.";
      "read -p " +:+ quoted "Press Enter to exit..." ].

(** The batch variant.  [os.path] is modelled in its POSIX flavour
    throughout; this branch is kept as the source writes it. *)
Definition windows_activation (app_name workdir venv_path script_path args_ : string)
  : string :=
  unlines
    [ "@echo off";
      "echo Running " +:+ app_name +:+ "...";
      "echo.";
      EmptyString;
      "REM Change to working directory";
      "cd /D " +:+ quoted workdir;
      EmptyString;
      "REM Activate virtual environment";
      "echo Activating virtual environment...";
      "call " +:+ quoted (join venv_path ["Scripts"; "activate.bat"]);
      EmptyString;
      "REM Run the Python script";
      "echo Running script: " +:+ basename script_path;
      "python " +:+ quoted script_path +:+ " " +:+ args_;
      EmptyString;
      "REM Keep window open";
      "echo.";
      "echo Script execution complete.";
      "pause" ].

Definition activation_content (app_config : app) : string :=
  let workdir_ := default (dirname (script app_config)) (workdir app_config) in
  let args_ := default EmptyString (args app_config) in
  if on_windows
  then windows_activation (name app_config) workdir_ (venv app_config)
         (script app_config) args_
  else posix_activation (name app_config) workdir_ (venv app_config)
         (script app_config) args_.

Definition activation_path (app_name : string) : string :=
  join scripts_dir [safe_name app_name +:+ ".sh"].

Definition create_activation_script (app_config : app) : M string :=
  let script_filename := safe_name (name app_config) +:+ ".sh" in
  let script_filepath := join scripts_dir [script_filename] in
  write_file script_filepath (activation_content app_config);;
  (if on_windows then ret tt else chmod script_filepath 493);;
  log_to_console ("Created activation script: " +:+ script_filename) "success";;
  ret script_filepath.

Definition launcher_content (app_name activation_script_ : string) : string :=
  if on_windows then
    unlines
      [ "@echo off";
        "start " +:+ quoted ("Running " +:+ app_name) +:+ " cmd /K "
          +:+ quoted activation_script_ ]
  else
    unlines
      [ "#!/bin/bash";
        "xterm -title " +:+ quoted ("Running: " +:+ app_name)
          +:+ " -geometry 100x30 -e "
          +:+ quoted ("bash -i " +:+ sq +:+ activation_script_ +:+ sq)
          +:+ " &" ].

Definition launcher_path (app_name : string) : string :=
  join scripts_dir ["launch_" +:+ safe_name app_name +:+ ".sh"].

Definition create_xterm_launcher (app_config : app) (activation_script_ : string)
  : M string :=
  let launcher_filename := "launch_" +:+ safe_name (name app_config) +:+ ".sh" in
  let launcher_filepath := join scripts_dir [launcher_filename] in
  write_file launcher_filepath
    (launcher_content (name app_config) activation_script_);;
  (if on_windows then ret tt else chmod launcher_filepath 493);;
  log_to_console ("Created launcher: " +:+ launcher_filename) "success";;
  ret launcher_filepath.

(** ** The registry *)

Definition save_apps : M unit :=
  catch
    (do apps <- gets saved_apps;
     write_file apps_file (json_dump E apps))
    (fun e => log_to_console ("Error saving apps: " +:+ describe E e) "error").

(** The tree view it refills is display only; the log line is kept. *)
Definition refresh_apps_list : M unit :=
  do apps <- gets saved_apps;
  log_to_console
    ("Refreshed apps list (" +:+ str_of_nat (length apps) +:+ " apps)") "info".

Definition load_apps : M unit :=
  catch
    (do there <- exists_ apps_file;
     if there then
       do content <- read_file apps_file;
       match json_load E content with
       | Some apps =>
           modify (with_saved_apps apps);;
           refresh_apps_list;;
           log_to_console
             ("Loaded " +:+ str_of_nat (length apps) +:+ " saved apps") "success"
       | None => raise ValueError
       end
     else ret tt)
    (fun _ => modify (with_saved_apps [])).

(** The registry part of [__init__]: the two directories, the empty
    list, then [load_apps]. *)
Definition init : M unit :=
  makedirs config_dir;;
  makedirs scripts_dir;;
  modify (with_saved_apps []);;
  load_apps.

(** The first entry named [app_name], with its position. *)
Definition find_app (app_name : string) (apps : list app) : option (nat * app) :=
  list_find (fun a => name a = app_name) apps.

Definition run_script_file (script_path : string) : M unit :=
  do there <- exists_ script_path;
  if negb there then
    log_to_console ("Error: Script not found: " +:+ script_path) "error"
  else
    catch
      (if on_windows then
         popen ["start"; "cmd"; "/K"; script_path] true false;;
         log_to_console
           ("✓ Launched in new terminal: " +:+ basename script_path) "success"
       else
         popen ["xterm"; "-title"; "Python App Launcher"; "-geometry"; "100x30";
                "-e"; "bash -i " +:+ quoted script_path] false true;;
         log_to_console
           ("✓ Launched in xterm: " +:+ basename script_path) "success")
      (fun e =>
         log_to_console ("Error launching terminal: " +:+ describe E e) "error";;
         catch
           (popen ["bash"; script_path] false true;;
            log_to_console "✓ Launched with fallback method" "success")
           (fun e2 =>
              log_to_console ("Fallback also failed: " +:+ describe E e2) "error")).

Definition is_empty (s : string) : bool :=
  match s with EmptyString => true | _ => false end.

(** Replace the entry at position [i] of [saved_apps]. *)
Definition store_app (i : nat) (a : app) : M unit :=
  modify (fun w => with_saved_apps (<[i := a]> (saved_apps w)) w).

(** Lines 831-843 of [save_and_create_script]: put [app_config] in the
    registry, over the first entry of the same name (after the user
    confirms) or at the end.  Returns the position written, if any. *)
Definition upsert (app_config : app) : M (option nat) :=
  do apps <- gets saved_apps;
  match find_app (name app_config) apps with
  | Some (existing_index, _) =>
      do yes <- askyesno "Confirm"
                  ("App '" +:+ name app_config +:+ "' already exists. Overwrite?");
      if yes then store_app existing_index app_config;; ret (Some existing_index)
      else ret None
  | None =>
      modify (with_saved_apps (apps ++ [app_config]));;
      ret (Some (length apps))
  end.

(** Lines 845-872: persist, generate the two scripts, record their paths
    on the entry just stored at position [i], offer to run. *)
Definition create_scripts (i : nat) (app_config : app) : M unit :=
  save_apps;;
  do activation_script_ <- create_activation_script app_config;
  do launcher_script_ <- create_xterm_launcher app_config activation_script_;
  store_app i (set_scripts activation_script_ launcher_script_ app_config);;
  refresh_apps_list;;
  log_to_console
    ("✓ App '" +:+ name app_config +:+ "' saved and scripts created") "success";;
  log_to_console
    ("  Activation script: " +:+ basename activation_script_) "info";;
  log_to_console
    ("  Launcher script: " +:+ basename launcher_script_) "info";;
  do run_it <- askyesno "Success"
    ("App '" +:+ name app_config +:+ "' has been saved!" +:+ nl +:+ nl
     +:+ "Created activation script: " +:+ basename activation_script_ +:+ nl
     +:+ "Created launcher script: " +:+ basename launcher_script_ +:+ nl +:+ nl
     +:+ "Do you want to run it now?");
  if run_it then run_script_file launcher_script_ else ret tt.

(** The dictionary built from the form at clock reading [t]. *)
Definition new_app (v : form) (t : datetime) : app :=
  App (strip (app_name_var v)) (strip (venv_path_var v))
      (strip (script_path_var v)) (Some (strip (args_var v)))
      (Some (strip (workdir_var v))) (Some (isoformat t)) None
      None None None None None None None.

Definition save_and_create_script : M unit :=
  do v <- gets vars;
  let app_name := strip (app_name_var v) in
  let venv_path := strip (venv_path_var v) in
  let script_path := strip (script_path_var v) in
  if is_empty app_name then showerror "Error" "Please enter an app name!"
  else if is_empty venv_path then
    showerror "Error" "Please select a virtual environment!"
  else if is_empty script_path then
    showerror "Error" "Please select a Python script!"
  else
  do venv_there <- exists_ venv_path;
  if negb venv_there then
    showerror "Error" ("Virtual environment not found: " +:+ venv_path)
  else
  do script_there <- exists_ script_path;
  if negb script_there then
    showerror "Error" ("Script not found: " +:+ script_path)
  else
  do t <- datetime_now;
  let app_config := new_app v t in
  do slot <- upsert app_config;
  match slot with
  | None => ret tt
  | Some i => create_scripts i app_config
  end.

(** [selection] is the name shown in the selected row, if any. *)
Definition run_selected_app (selection : option string) : M unit :=
  match selection with
  | None => showwarning "Warning" "Please select an app to run!"
  | Some app_name =>
      do apps <- gets saved_apps;
      match find_app app_name apps with
      | None => ret tt
      | Some (i, a) =>
          do t <- datetime_now;
          let a1 := set_last_run (Some (isoformat t)) a in
          store_app i a1;;
          save_apps;;
          do ready <- match launcher_script a1 with
                      | Some p => exists_ p
                      | None => ret false
                      end;
          (if ready then run_script_file (default EmptyString (launcher_script a1))
           else
             do activation_script_ <- create_activation_script a1;
             do launcher_script_ <- create_xterm_launcher a1 activation_script_;
             store_app i (set_scripts activation_script_ launcher_script_ a1);;
             save_apps;;
             run_script_file launcher_script_);;
          log_to_console ("✓ Running app: " +:+ app_name) "success"
      end
  end.

(** ** Desktop entries *)

Definition desktop_files_dir : string :=
  join (home E) [".local"; "share"; "applications"].

Definition desktop_path (app_name : string) : string :=
  join desktop_files_dir [safe_name app_name +:+ ".desktop"].

(** [IconGenerator.get_icons_dir()] without its [makedirs] *)
Definition icons_dir : string :=
  join (home E) [".local"; "share"; "icons"; "python-launcher"].

Definition icon_file (app_name : string) : string :=
  join icons_dir [safe_name app_name +:+ ".png"].

(** [IconGenerator.get_icon_path(app_name)] *)
Definition get_icon_path (app_name : string) : M string :=
  makedirs icons_dir;;
  ret (icon_file app_name).

Definition default_icon : string := "application-x-python".

(** The ["generate"] branch: render at size 256, save the PNG, record the
    icon on the descriptor.  Returns the descriptor and the icon reference. *)
Definition generated_icon (app_config : app) (v : form) : M (app * string) :=
  catch
    (let bg := or_default (bg_color_var v) "#4285F4" in
     let fg := or_default (text_color_var v) "#FFFFFF" in
     let bold_ := bold_icon_var v in
     let with_gradient := gradient_icon_var v in
     do icon_path_ <- get_icon_path (name app_config);
     do w <- gets (fun w => w);
     do d <- lift (generate_icon (path_exists w) 256 (name app_config)
                     (HexColor bg) (HexColor fg) bold_ with_gradient);
     write_file icon_path_ (png E d);;
     desktop_log
       ("✓ Generated icon for " +:+ name app_config +:+ ": " +:+ icon_path_)
       "success";;
     ret (set_generated_icon icon_path_
            (IconSettings bg fg bold_ with_gradient) app_config,
          icon_path_))
    (fun e =>
       desktop_log ("⚠ Could not generate icon: " +:+ describe E e) "warning";;
       ret (app_config, default_icon)).

Definition custom_icon (app_config : app) (v : form) : M (app * string) :=
  let custom := custom_icon_path_var v in
  do there <- exists_ custom;
  if negb (is_empty custom) && there then
    desktop_log ("✓ Using custom icon: " +:+ custom) "success";;
    ret (set_custom_icon custom app_config, custom)
  else
    desktop_log "⚠ Custom icon not found, using default" "warning";;
    ret (app_config, default_icon).

Definition system_icon (app_config : app) (v : form) : M (app * string) :=
  let sys_icon := icon_name_var v in
  if is_empty sys_icon then ret (app_config, default_icon)
  else
    desktop_log ("✓ Using system icon: " +:+ sys_icon) "success";;
    ret (set_system_icon sys_icon app_config, sys_icon).

Definition exec_command (launcher_script_ : string) : string :=
  "bash -i " +:+ sq +:+ launcher_script_ +:+ sq.

Definition desktop_content (app_config : app) (exec icon_ref : string)
  (terminal : bool) (categories : string) : string :=
  unlines
    [ "[Desktop Entry]";
      "Type=Application";
      "Name=" +:+ name app_config;
      "Comment=Python application - " +:+ name app_config;
      "Exec=" +:+ exec;
      "Icon=" +:+ icon_ref;
      "Terminal=" +:+ str_lower_bool terminal;
      "Categories=" +:+ categories;
      "StartupNotify=true";
      "Version=1.0";
      "Path=" +:+ default (dirname (script app_config)) (workdir app_config) ].

(** The descriptor is a dictionary mutated in place; the function returns
    it as left by the call, next to the path it returns ([None] when the
    entry could not be written). *)
Definition create_desktop_file (app_config : app) : M (app * option string) :=
  makedirs desktop_files_dir;;
  let desktop_filename := safe_name (name app_config) +:+ ".desktop" in
  let desktop_filepath := join desktop_files_dir [desktop_filename] in
  do launcher_script_ <-
    match launcher_script app_config with
    | Some p => ret p
    | None => create_activation_script app_config
    end;
  do v <- gets vars;
  let icon_type_ := or_default (icon_type_var v) "generate" in
  do (app_config', icon_ref) <-
    (if String.eqb icon_type_ "generate" then generated_icon app_config v
     else if String.eqb icon_type_ "custom" then custom_icon app_config v
     else system_icon app_config v);
  let categories := or_default (categories_var v) "Development" in
  let content :=
    desktop_content app_config (exec_command launcher_script_) icon_ref
      (terminal_var v) categories in
  catch
    (write_file desktop_filepath content;;
     chmod desktop_filepath 493;;
     desktop_log ("✓ Created desktop file: " +:+ desktop_filename) "success";;
     ret (set_desktop_file (Some desktop_filepath) app_config',
          Some desktop_filepath))
    (fun e =>
       desktop_log ("✗ Error creating desktop file: " +:+ describe E e) "error";;
       ret (app_config', None)).

Definition generate_selected_desktop_file (selection : option string) : M unit :=
  match selection with
  | None =>
      showwarning "Warning" "Please select an app to generate desktop file for!"
  | Some app_name =>
      do apps <- gets saved_apps;
      match find_app app_name apps with
      | None => ret tt
      | Some (i, a) =>
          do (a', desktop_path_) <- create_desktop_file a;
          store_app i a';;
          match desktop_path_ with
          | Some p =>
              save_apps;;
              desktop_log ("✓ Desktop file ready for: " +:+ app_name) "success";;
              desktop_log ("  Location: " +:+ p) "info";;
              showinfo "Success"
                ("Desktop file created!" +:+ nl +:+ nl
                 +:+ "File: " +:+ basename p +:+ nl
                 +:+ "Location: " +:+ dirname p +:+ nl +:+ nl
                 +:+ "The application should now appear in your Applications menu."
                 +:+ nl
                 +:+ "You may need to refresh your app menu (press Super key and search).")
          | None => ret tt
          end
      end
  end.

(** ** Loading an entry into the form *)

Definition with_vars (v : form) (w : World) : World :=
  Build_World (saved_apps w) v (fs w) (ticks w) (asked w) (events w)
    (output_text w) (desktop_console w).

(** The five fields of the form that describe an app. *)
Definition set_fields (app_name venv_path script_path args_ workdir_ : string)
  (v : form) : form :=
  Form app_name venv_path script_path args_ workdir_
       (icon_type_var v) (bg_color_var v) (text_color_var v)
       (bold_icon_var v) (gradient_icon_var v) (custom_icon_path_var v)
       (icon_name_var v) (categories_var v) (terminal_var v).

(** [cwd] is [os.getcwd()]. *)
Definition load_selected_app (cwd : string) (selection : option string) : M unit :=
  match selection with
  | None => showwarning "Warning" "Please select an app to load!"
  | Some app_name =>
      do apps <- gets saved_apps;
      match find_app app_name apps with
      | Some (_, a) =>
          modify (fun w =>
            with_vars
              (set_fields (name a) (venv a) (script a)
                 (default EmptyString (args a)) (default cwd (workdir a))
                 (vars w)) w);;
          log_to_console ("✓ Loaded app: " +:+ app_name) "success"
      | None => ret tt
      end
  end.

(** ** Running the form without saving *)

(** [stamp] is [strftime('%H%M%S')], a rendering of the clock that
    [datetime] does not carry. *)
Definition run_now (stamp : datetime -> string) : M unit :=
  do v <- gets vars;
  let app_name := strip (app_name_var v) in
  let venv_path := strip (venv_path_var v) in
  let script_path := strip (script_path_var v) in
  if is_empty venv_path then
    showerror "Error" "Please select a virtual environment!"
  else if is_empty script_path then
    showerror "Error" "Please select a Python script!"
  else
  do app_name <-
    (if is_empty app_name
     then do t <- datetime_now; ret ("Temp_" +:+ stamp t)
     else ret app_name);
  do t <- datetime_now;
  let app_config :=
    App app_name venv_path script_path (Some (strip (args_var v)))
        (Some (strip (workdir_var v))) (Some (isoformat t)) None
        None None None None None None None in
  do temp_script <- create_activation_script app_config;
  run_script_file temp_script.

(** ** Deleting *)

(** [os.remove(path)]: the file goes from the file system; a directory,
    a missing path and a refusal of the operating system raise. *)
Definition remove_file (path : string) : M unit :=
  do m <- gets fs;
  match m !! path with
  | Some (File _ _) =>
      if can_write E path then modify (with_fs (delete path m))
      else raise OSError
  | _ => raise OSError
  end.

(** The deletion of one recorded script: when the key is present and
    the file exists, [try: os.remove(p); log  except: pass]. *)
Definition remove_recorded (recorded : option string) : M unit :=
  match recorded with
  | None => ret tt
  | Some p =>
      do there <- exists_ p;
      if there then
        catch
          (remove_file p;;
           log_to_console ("Deleted: " +:+ basename p) "info")
          (fun _ => ret tt)
      else ret tt
  end.

Definition delete_selected_app (selection : option string) : M unit :=
  match selection with
  | None => showwarning "Warning" "Please select an app to delete!"
  | Some app_name =>
      do yes <- askyesno "Confirm Delete"
                  ("Delete app '" +:+ app_name +:+ "'?" +:+ nl +:+ nl
                   +:+ "This will also delete the activation scripts.");
      if yes then
        do apps <- gets saved_apps;
        match find_app app_name apps with
        | Some (_, a) =>
            remove_recorded (activation_script a);;
            remove_recorded (launcher_script a)
        | None => ret tt
        end;;
        modify (fun w =>
          with_saved_apps
            (filter (fun a => name a <> app_name) (saved_apps w)) w);;
        save_apps;;
        refresh_apps_list;;
        log_to_console ("✓ Deleted app: " +:+ app_name) "success"
      else ret tt
  end.

(** The list it refills afterwards is display only. *)
Definition delete_desktop_file (selection : option string) : M unit :=
  match selection with
  | None => showwarning "Warning" "Please select an app!"
  | Some app_name =>
      do yes <- askyesno "Confirm"
                  ("Delete desktop file for '" +:+ app_name +:+ "'?");
      if yes then
        do apps <- gets saved_apps;
        match find_app app_name apps with
        | Some (i, a) =>
            match desktop_file a with
            | Some p =>
                catch
                  (do there <- exists_ p;
                   (if there then
                      remove_file p;;
                      desktop_log ("✓ Deleted: " +:+ basename p) "success"
                    else ret tt);;
                   store_app i (set_desktop_file None a);;
                   save_apps)
                  (fun e =>
                     desktop_log
                       ("✗ Error deleting desktop file: " +:+ describe E e)
                       "error")
            | None => ret tt
            end
        | None => ret tt
        end
      else ret tt
  end.

(** ** Desktop entries for the whole registry *)

(** [subprocess.run([...], capture_output=True, timeout=5)]: the command
    is started and waited for; a command that cannot be started or does
    not finish in time raises. *)
Definition update_desktop_database : M unit :=
  catch
    (popen ["update-desktop-database"; desktop_files_dir] false false;;
     desktop_log "✓ Desktop database updated" "success")
    (fun e =>
       desktop_log ("⚠ Could not update desktop database: " +:+ describe E e)
         "warning").

(** [for app in self.saved_apps] from position [i], for at most [n]
    entries; each entry is a dictionary that [create_desktop_file]
    changes in place.  [counts] is [(created_count, error_count)]. *)
Fixpoint desktop_files_from (i n : nat) (counts : nat * nat) : M (nat * nat) :=
  match n with
  | O => ret counts
  | S n' =>
      do apps <- gets saved_apps;
      match apps !! i with
      | None => ret counts
      | Some a =>
          do r <- create_desktop_file a;
          store_app i r.1;;
          desktop_files_from (S i) n'
            (match r.2 with
             | Some _ => (S counts.1, counts.2)
             | None => (counts.1, S counts.2)
             end)
      end
  end.

Definition generate_and_refresh_desktop : M unit :=
  do apps <- gets saved_apps;
  match apps with
  | [] =>
      showinfo "Info" "No saved applications to generate desktop files for."
  | _ =>
      desktop_log "Starting desktop file generation for all apps..." "info";;
      do counts <- desktop_files_from 0 (length apps) (0%nat, 0%nat);
      save_apps;;
      update_desktop_database;;
      desktop_log
        ("✓ Generation complete: " +:+ str_of_nat counts.1 +:+ " created, "
         +:+ str_of_nat counts.2 +:+ " failed") "success";;
      showinfo "Success"
        ("Desktop files generated!" +:+ nl +:+ nl
         +:+ "Created: " +:+ str_of_nat counts.1 +:+ nl
         +:+ "Failed: " +:+ str_of_nat counts.2 +:+ nl +:+ nl
         +:+ "Your applications should now appear in the Applications menu.")
  end.

End Program.

End Launcher.

(* ================================================================== *)
(** * Facts about the built-ins *)
(* ================================================================== *)

Module PyFacts.

(** ** Checking a property on every character *)

Definition all_ascii (p : ascii -> bool) : bool :=
  forallb (fun n => p (ascii_of_nat n)) (seq 0 256).

Lemma all_ascii_spec (p : ascii -> bool) :
  all_ascii p = true -> forall c, p c = true.
Proof.
  unfold all_ascii. rewrite forallb_forall. intros H c.
  rewrite <- (ascii_nat_embedding c). apply H.
  apply in_seq. pose proof (nat_ascii_bounded c). lia.
Qed.

(** ** Strings *)

Lemma append_nil_l (t : string) : EmptyString +:+ t = t.
Proof. reflexivity. Qed.

Lemma append_cons (c : ascii) (s t : string) :
  String c s +:+ t = String c (s +:+ t).
Proof. reflexivity. Qed.

Lemma append_nil_r (s : string) : s +:+ EmptyString = s.
Proof.
  induction s as [|c s IH]; [reflexivity|]. now rewrite append_cons, IH.
Qed.

Lemma append_assoc (s t u : string) : (s +:+ t) +:+ u = s +:+ (t +:+ u).
Proof.
  induction s as [|c s IH]; [reflexivity|]. now rewrite !append_cons, IH.
Qed.

Lemma append_snoc (s t : string) (c : ascii) :
  (s +:+ String c EmptyString) +:+ t = s +:+ String c t.
Proof. now rewrite append_assoc. Qed.

(** ** [split] *)

Definition nonblank (c : ascii) : bool := negb (isspace c).

(** A word: non-empty and free of blanks. *)
Definition is_word (w : string) : Prop :=
  w <> EmptyString /\ sall nonblank w = true.

(** What may follow a word: nothing, or a blank. *)
Definition at_boundary (s : string) : Prop :=
  match s with
  | EmptyString => True
  | String c _ => isspace c = true
  end.

Lemma split_go_cons (cur : string) (c : ascii) (r : string) :
  split_go cur (String c r) =
  if isspace c then
    match cur with
    | EmptyString => split_go EmptyString r
    | _ => cur :: split_go EmptyString r
    end
  else split_go (cur +:+ String c EmptyString) r.
Proof. reflexivity. Qed.

Lemma split_go_blanks (b s : string) (cur : string) :
  sall isspace b = true -> cur = EmptyString ->
  split_go cur (b +:+ s) = split_go cur s.
Proof.
  intros Hb ->. induction b as [|c b IH]; [reflexivity|].
  simpl in Hb. apply andb_prop in Hb as [Hc Hb].
  rewrite append_cons. simpl. rewrite Hc. auto.
Qed.

Lemma split_go_word (w s cur : string) :
  sall nonblank w = true ->
  split_go cur (w +:+ s) = split_go (cur +:+ w) s.
Proof.
  revert cur. induction w as [|c w IH]; intros cur Hw.
  - now rewrite append_nil_l, append_nil_r.
  - simpl in Hw. apply andb_prop in Hw as [Hc Hw]. unfold nonblank in Hc.
    apply negb_true_iff in Hc. rewrite append_cons. simpl.
    rewrite Hc, IH by assumption. now rewrite append_snoc.
Qed.

Lemma split_go_boundary (cur s : string) :
  cur <> EmptyString -> at_boundary s ->
  split_go cur s = cur :: split_go EmptyString s.
Proof.
  intros Hcur Hs. destruct s as [|c s]; simpl in *.
  - destruct cur; [contradiction | reflexivity].
  - rewrite Hs. destruct cur; [contradiction | reflexivity].
Qed.

Lemma split_go_trailing_blanks (b cur : string) :
  sall isspace b = true -> split_go cur b = split_go cur EmptyString.
Proof.
  intros Hb. destruct b as [|c b]; [reflexivity|].
  simpl in Hb. apply andb_prop in Hb as [Hc Hb].
  assert (Hnil : split_go EmptyString b = []).
  { rewrite <- (append_nil_r b).
    rewrite split_go_blanks by (assumption || reflexivity). reflexivity. }
  simpl. rewrite Hc, Hnil. destruct cur; reflexivity.
Qed.

Lemma split_lstrip (s : string) :
  split (lstrip_with isspace s) = split s.
Proof.
  unfold split. induction s as [|c s IH]; simpl; [reflexivity|].
  destruct (isspace c) eqn:Hc; [exact IH|]. simpl. now rewrite Hc.
Qed.

Lemma rstrip_empty (s : string) :
  rstrip_with isspace s = EmptyString -> sall isspace s = true.
Proof.
  induction s as [|c s IH]; simpl; [reflexivity|].
  destruct (rstrip_with isspace s) eqn:Hr; [|discriminate].
  destruct (isspace c) eqn:Hc; [|discriminate]. intros _. now rewrite IH.
Qed.

Lemma split_go_rstrip (s cur : string) :
  split_go cur (rstrip_with isspace s) = split_go cur s.
Proof.
  revert cur. induction s as [|c s IH]; intros cur; [reflexivity|].
  simpl rstrip_with.
  destruct (rstrip_with isspace s) as [|c' r'] eqn:Hr.
  - pose proof (rstrip_empty s Hr) as Hs.
    destruct (isspace c) eqn:Hc.
    + symmetry. apply split_go_trailing_blanks. simpl. now rewrite Hc, Hs.
    + simpl. rewrite Hc. symmetry. apply split_go_trailing_blanks, Hs.
  - rewrite (split_go_cons cur c (String c' r')), (split_go_cons cur c s).
    now rewrite !IH.
Qed.

Lemma split_strip (s : string) : split (strip s) = split s.
Proof.
  unfold strip, split at 1. rewrite split_go_rstrip. apply split_lstrip.
Qed.

Lemma split_go_words_nonempty (s cur : string) :
  Forall (fun w => w <> EmptyString) (split_go cur s).
Proof.
  revert cur. induction s as [|c s IH]; intros cur; simpl.
  - destruct cur; repeat constructor. discriminate.
  - destruct (isspace c); [|apply IH].
    destruct cur; [apply IH|]. constructor; [discriminate | apply IH].
Qed.

End PyFacts.

(* ================================================================== *)
(** * Properties of [IconGenerator]: initials and colour codes *)
(* ================================================================== *)

Module IconGeneratorSpec.

Import IconGenerator PyFacts.

(** ** Initials *)

(** The words of a text, as the specification reads them: the text is a
    run of blanks, or blanks, a word, and the rest starting at a blank. *)
Inductive words_of : string -> list string -> Prop :=
| words_done (b : string) :
    sall isspace b = true -> words_of b []
| words_more (b w rest : string) (ws : list string) :
    sall isspace b = true -> is_word w -> at_boundary rest ->
    words_of rest ws -> words_of (b +:+ w +:+ rest) (w :: ws).

(** The initials of a list of words, in the specification's words: none
    gives a question mark, one gives its first two characters, more give
    the first characters of the first two, all in upper case. *)
Definition initials_of (ws : list string) : string :=
  match ws with
  | [] => "?"
  | [w] => upper (slice 0 2 w)
  | w0 :: w1 :: _ => upper (slice 0 1 w0 +:+ slice 0 1 w1)
  end.

Lemma split_words_of (text : string) (ws : list string) :
  words_of text ws -> split text = ws.
Proof.
  induction 1 as [b Hb | b w rest ws Hb [Hne Hw] Hrest _ IH].
  - unfold split. now rewrite split_go_trailing_blanks.
  - unfold split in *.
    rewrite split_go_blanks by (assumption || reflexivity).
    rewrite split_go_word, append_nil_l by assumption.
    rewrite split_go_boundary by assumption. now rewrite IH.
Qed.

(** Every text has words: the longest run of blanks, the longest run of
    other characters, and so on. *)
Fixpoint span_with (p : ascii -> bool) (s : string) : string :=
  match s with
  | EmptyString => EmptyString
  | String c r => if p c then String c (span_with p r) else EmptyString
  end.

Lemma span_lstrip (p : ascii -> bool) (s : string) :
  span_with p s +:+ lstrip_with p s = s.
Proof.
  induction s as [|c s IH]; [reflexivity|]. simpl.
  destruct (p c); [|reflexivity]. now rewrite append_cons, IH.
Qed.

Lemma span_all (p : ascii -> bool) (s : string) : sall p (span_with p s) = true.
Proof.
  induction s as [|c s IH]; [reflexivity|]. simpl.
  destruct (p c) eqn:Hc; [|reflexivity]. simpl. now rewrite Hc, IH.
Qed.

Lemma lstrip_head (p : ascii -> bool) (s : string) (c : ascii) (r : string) :
  lstrip_with p s = String c r -> p c = false.
Proof.
  induction s as [|c' s IH]; [discriminate|]. simpl.
  destruct (p c') eqn:Hc; [exact IH|]. now intros [= <- <-].
Qed.

Lemma lstrip_length (p : ascii -> bool) (s : string) :
  (String.length (lstrip_with p s) <= String.length s)%nat.
Proof.
  induction s as [|c s IH]; [reflexivity|]. simpl.
  destruct (p c); simpl; lia.
Qed.

Lemma words_of_total (text : string) : exists ws, words_of text ws.
Proof.
  remember (String.length text) as n eqn:Hn.
  revert text Hn. induction n as [n IH] using lt_wf_ind. intros text ->.
  pose proof (span_lstrip isspace text) as Hsplit.
  pose proof (span_all isspace text) as Hblank.
  destruct (lstrip_with isspace text) as [|c r] eqn:Hrest.
  - exists []. rewrite <- Hsplit, append_nil_r. now constructor.
  - pose proof (lstrip_head _ _ _ _ Hrest) as Hc.
    pose proof (span_lstrip nonblank (String c r)) as Hsplit'.
    pose proof (span_all nonblank (String c r)) as Hword.
    assert (Hne : span_with nonblank (String c r) <> EmptyString).
    { simpl. unfold nonblank at 1. now rewrite Hc. }
    assert (Hbound : at_boundary (lstrip_with nonblank (String c r))).
    { destruct (lstrip_with nonblank (String c r)) as [|c' r'] eqn:Hr';
        [exact I|].
      apply lstrip_head in Hr'. unfold nonblank in Hr'.
      now apply negb_false_iff in Hr'. }
    assert (Hlen : (String.length (lstrip_with nonblank (String c r))
                    < String.length text)%nat).
    { pose proof (lstrip_length isspace text) as H1. rewrite Hrest in H1.
      assert (H2 : (String.length (lstrip_with nonblank (String c r))
                    <= String.length r)%nat).
      { simpl. unfold nonblank at 1. rewrite Hc. simpl.
        apply lstrip_length. }
      simpl in H1. lia. }
    destruct (IH _ Hlen _ eq_refl) as [ws Hws].
    exists (span_with nonblank (String c r) :: ws).
    set (b := span_with isspace text) in *.
    set (w := span_with nonblank (String c r)) in *.
    set (rest := lstrip_with nonblank (String c r)) in *.
    clearbody b w rest. subst text. rewrite <- Hsplit'. now constructor.
Qed.

Lemma first_char_slice (w : string) :
  w <> EmptyString -> first_char w = Ok (slice 0 1 w).
Proof. destruct w as [|c [|c' w]]; [contradiction | reflexivity..]. Qed.

Lemma get_initials_words (text : string) :
  get_initials text = Ok (initials_of (split text)).
Proof.
  unfold get_initials. rewrite split_strip.
  pose proof (split_go_words_nonempty text EmptyString) as Hne.
  fold (split text) in Hne.
  destruct (split text) as [|w0 [|w1 ws]]; try reflexivity.
  inversion Hne as [|? ? H0 Hne']; subst.
  inversion Hne' as [|? ? H1 _]; subst.
  rewrite (first_char_slice w0 H0), (first_char_slice w1 H1). reflexivity.
Qed.

(** ** Colour codes *)

Definition is_hex (c : ascii) : bool :=
  match hex_digit c with Some _ => true | None => false end.

Definition hex_val (c : ascii) : Z := default 0 (hex_digit c).

(** The string without one optional leading [#]. *)
Definition hex_body (s : string) : string :=
  match s with
  | String c r => if Ascii.eqb c "#" then r else s
  | EmptyString => s
  end.

(** [#RRGGBB] or [RRGGBB]: exactly six hexadecimal digits after an
    optional leading [#]. *)
Definition is_hex6 (s : string) : bool :=
  (String.length (hex_body s) =? 6)%nat && sall is_hex (hex_body s).

(** The channel written at digits [i] and [i+1]. *)
Definition channel (i : nat) (b : string) : Z :=
  match String.get i b, String.get (S i) b with
  | Some c1, Some c2 => 16 * hex_val c1 + hex_val c2
  | _, _ => 0
  end.

(** The characters that can occur in a literal [int(_, 16)] accepts when
    it is at most two characters long. *)
Definition literal_char (c : ascii) : bool :=
  is_hex c || int_isspace c || Ascii.eqb c "+" || Ascii.eqb c "-".

Definition is_value_error {A : Type} (r : result A) : bool :=
  match r with Raise ValueError => true | _ => false end.

Definition is_ok_with (r : result Z) (v : Z) : bool :=
  match r with Ok v' => v' =? v | Raise _ => false end.

Definition one (c : ascii) : string := String c EmptyString.
Definition two (c1 c2 : ascii) : string := String c1 (String c2 EmptyString).

Definition single_ok (c : ascii) : bool :=
  literal_char c || is_value_error (int16 (one c)).

Definition pair_ok (c1 c2 : ascii) : bool :=
  (if is_hex c1 && is_hex c2
   then is_ok_with (int16 (two c1 c2)) (16 * hex_val c1 + hex_val c2)
   else true)
  && (literal_char c1 && literal_char c2 || is_value_error (int16 (two c1 c2))).

Lemma singles_checked : all_ascii single_ok = true.
Proof. vm_compute. reflexivity. Qed.

Lemma pairs_checked : all_ascii (fun c1 => all_ascii (pair_ok c1)) = true.
Proof. vm_compute. reflexivity. Qed.

Lemma pair_checked (c1 c2 : ascii) : pair_ok c1 c2 = true.
Proof.
  exact (all_ascii_spec _ (all_ascii_spec _ pairs_checked c1) c2).
Qed.

Lemma int16_hex_pair (c1 c2 : ascii) :
  is_hex c1 = true -> is_hex c2 = true ->
  int16 (two c1 c2) = Ok (16 * hex_val c1 + hex_val c2).
Proof.
  intros H1 H2. pose proof (pair_checked c1 c2) as H.
  unfold pair_ok in H. rewrite H1, H2 in H. simpl in H.
  apply andb_prop in H as [H _].
  destruct (int16 (two c1 c2)) as [v|e]; simpl in H; [|discriminate].
  apply Z.eqb_eq in H. now subst.
Qed.

Lemma value_error_true {A : Type} (r : result A) :
  is_value_error r = true -> r = Raise ValueError.
Proof. destruct r as [a|[]]; simpl; intros; (discriminate || reflexivity). Qed.

Lemma int16_bad_pair (c1 c2 : ascii) :
  literal_char c1 = false \/ literal_char c2 = false ->
  int16 (two c1 c2) = Raise ValueError.
Proof.
  intros Hbad. pose proof (pair_checked c1 c2) as H.
  unfold pair_ok in H. apply andb_prop in H as [_ H].
  apply value_error_true.
  destruct Hbad as [Hb|Hb]; rewrite Hb in H; simpl in H;
    rewrite ?andb_false_r in H; exact H.
Qed.

Lemma int16_bad_single (c : ascii) :
  literal_char c = false -> int16 (one c) = Raise ValueError.
Proof.
  intros Hb. pose proof (all_ascii_spec _ singles_checked c) as H.
  unfold single_ok in H. rewrite Hb in H. now apply value_error_true.
Qed.

(** [int(_, 16)] raises nothing but [ValueError]. *)
Lemma int16_raises (s : string) (e : exn) :
  int16 s = Raise e -> e = ValueError.
Proof.
  unfold int16. destruct (skip_sign _) as [neg s2].
  destruct (starts_with_underscore _); [congruence|].
  destruct (digits16 _ _ _ _) as [[[v []] rest]|]; try congruence.
  destruct (sall _ _); congruence.
Qed.

(** The three slices parsed in turn. *)
Definition parse3 (b : string) : result rgb :=
  try! r <- int16 (slice 0 2 b);
  try! g <- int16 (slice 2 2 b);
  try! bl <- int16 (slice 4 2 b);
  Ok (r, g, bl).

Lemma hex_to_rgb_parse3 (s : string) :
  hex_to_rgb s = parse3 (lstrip_with (Ascii.eqb "#") s).
Proof. reflexivity. Qed.

Lemma parse3_raises (b : string) (e : exn) :
  parse3 b = Raise e -> e = ValueError.
Proof.
  unfold parse3.
  destruct (int16 (slice 0 2 b)) eqn:H0; simpl;
    [|intros [= <-]; eapply int16_raises; eassumption].
  destruct (int16 (slice 2 2 b)) eqn:H1; simpl;
    [|intros [= <-]; eapply int16_raises; eassumption].
  destruct (int16 (slice 4 2 b)) eqn:H2; simpl;
    [discriminate|intros [= <-]; eapply int16_raises; eassumption].
Qed.

Lemma parse3_bad (b : string) :
  int16 (slice 0 2 b) = Raise ValueError \/
  int16 (slice 2 2 b) = Raise ValueError \/
  int16 (slice 4 2 b) = Raise ValueError ->
  parse3 b = Raise ValueError.
Proof.
  intros H. destruct (parse3 b) as [v|e] eqn:Hp.
  - exfalso. unfold parse3 in Hp.
    destruct (int16 (slice 0 2 b)); simpl in Hp; [|discriminate].
    destruct (int16 (slice 2 2 b)); simpl in Hp; [|discriminate].
    destruct (int16 (slice 4 2 b)); simpl in Hp; [|discriminate].
    destruct H as [H|[H|H]]; discriminate.
  - f_equal. eapply parse3_raises; eassumption.
Qed.

Lemma parse3_short (b : string) :
  (String.length b < 5)%nat -> parse3 b = Raise ValueError.
Proof.
  intros Hlen. apply parse3_bad. right; right.
  destruct b as [|c0 [|c1 [|c2 [|c3 [|c4 b]]]]]; simpl in Hlen;
    try reflexivity; lia.
Qed.

Lemma substring_zero (b : string) : substring 0 0 b = EmptyString.
Proof. destruct b; reflexivity. Qed.

Lemma parse3_bad_char (b : string) (i : nat) (c : ascii) :
  (i < 6)%nat -> String.get i b = Some c -> literal_char c = false ->
  parse3 b = Raise ValueError.
Proof.
  intros Hi Hget Hbad. apply parse3_bad.
  destruct b as [|c0 [|c1 [|c2 [|c3 [|c4 [|c5 b]]]]]];
    do 6 (try destruct i as [|i]); simpl in Hget; try discriminate;
    try lia; injection Hget as <-; cbn [slice substring];
    rewrite ?substring_zero;
    first
      [ left; solve [ apply int16_bad_pair; auto | apply int16_bad_single; auto ]
      | right; left;
        solve [ apply int16_bad_pair; auto | apply int16_bad_single; auto ]
      | right; right;
        solve [ apply int16_bad_pair; auto | apply int16_bad_single; auto ] ].
Qed.

Lemma is_hex_not_hash (c : ascii) :
  is_hex c = true -> Ascii.eqb "#" c = false.
Proof.
  intros H. destruct (Ascii.eqb "#" c) eqn:Heq; [|reflexivity].
  apply Ascii.eqb_eq in Heq. subst. discriminate.
Qed.

Lemma parse3_hex6 (b : string) :
  String.length b = 6%nat -> sall is_hex b = true ->
  parse3 b = Ok (channel 0 b, channel 2 b, channel 4 b).
Proof.
  intros Hlen Hhex.
  destruct b as [|c0 [|c1 [|c2 [|c3 [|c4 [|c5 [|c6 b]]]]]]]; try discriminate.
  simpl in Hhex.
  repeat (apply andb_prop in Hhex as [? Hhex]).
  unfold parse3. cbn [slice substring].
  fold (two c0 c1) (two c2 c3) (two c4 c5).
  rewrite !int16_hex_pair by assumption. reflexivity.
Qed.

Lemma lstrip_with_cons (p : ascii -> bool) (c : ascii) (r : string) :
  lstrip_with p (String c r) = if p c then lstrip_with p r else String c r.
Proof. reflexivity. Qed.

Lemma lstrip_hex (b : string) :
  (0 < String.length b)%nat -> sall is_hex b = true ->
  lstrip_with (Ascii.eqb "#") b = b.
Proof.
  destruct b as [|c b]; [simpl; lia|]. intros _ H.
  simpl in H. apply andb_prop in H as [H _].
  now rewrite lstrip_with_cons, (is_hex_not_hash c H).
Qed.

Lemma lstrip_app (p : ascii -> bool) (s t : string) :
  lstrip_with p s <> EmptyString ->
  lstrip_with p (s +:+ t) = lstrip_with p s +:+ t.
Proof.
  induction s as [|c s IH]; [intros []; reflexivity|].
  rewrite append_cons, !lstrip_with_cons. destruct (p c); [exact IH|].
  intros _. now rewrite append_cons.
Qed.

Lemma parse3_app (b t : string) :
  (6 <= String.length b)%nat -> parse3 (b +:+ t) = parse3 b.
Proof.
  intros Hlen.
  destruct b as [|c0 [|c1 [|c2 [|c3 [|c4 [|c5 b]]]]]]; simpl in Hlen; try lia.
  rewrite !append_cons. unfold parse3. cbn [slice substring].
  now rewrite !substring_zero.
Qed.

Lemma lstrip_hex_body (s : string) :
  is_hex6 s = true -> lstrip_with (Ascii.eqb "#") s = hex_body s.
Proof.
  unfold is_hex6. intros H. apply andb_prop in H as [Hlen Hhex].
  apply Nat.eqb_eq in Hlen.
  destruct s as [|c r]; [discriminate|].
  unfold hex_body in *. rewrite lstrip_with_cons, (Ascii.eqb_sym "#" c).
  destruct (Ascii.eqb c "#").
  - apply lstrip_hex; [lia | assumption].
  - reflexivity.
Qed.

(** ** The claims on initials and colour codes *)

(** C9. [get_initials] maps the empty text to a question mark, [x] to
    [X], [ab] to [AB], [My App] to [MA] and a padded three-word text to
    [MW]; in general every text has a list of words [ws] (after
    trimming, split at blanks), and: no word yields a question mark, one
    word its first two characters in upper case (one if it has only
    one), two or more words the first characters of the first two words
    in upper case. *)
Theorem get_initials_spec :
  (get_initials EmptyString = Ok "?" /\
   get_initials "x" = Ok "X" /\
   get_initials "ab" = Ok "AB" /\
   get_initials "My App" = Ok "MA" /\
   get_initials "  multi   word name  " = Ok "MW") /\
  (forall text, exists ws, words_of text ws) /\
  (forall text ws, words_of text ws ->
     get_initials text = Ok (initials_of ws)).
Proof.
  split; [repeat split; reflexivity|]. split; [exact words_of_total|].
  intros text ws H. rewrite get_initials_words.
  now rewrite (split_words_of text ws H).
Qed.

Lemma get_initials_spec_witness :
  words_of "My App" ["My"; "App"] /\ get_initials "My App" = Ok "MA".
Proof.
  assert (H : words_of "My App" ["My"; "App"]).
  { apply (words_more EmptyString "My" " App");
      [reflexivity | split; [discriminate | reflexivity] | reflexivity |].
    apply (words_more " " "App" EmptyString);
      [reflexivity | split; [discriminate | reflexivity] | exact I |].
    apply (words_done EmptyString). reflexivity. }
  split; [exact H | exact (proj2 (proj2 get_initials_spec) _ _ H)].
Defined.

(** C2, counterexample.  An eight-digit string is not of the form
    [#RRGGBB] or [RRGGBB], yet [hex_to_rgb] returns a colour for it
    instead of failing. *)
Lemma hex_to_rgb_accepts_longer :
  is_hex6 "aabbccdd" = false /\
  hex_to_rgb "aabbccdd" = Ok (170, 187, 204).
Proof. split; reflexivity. Qed.

(** C2, amended.  [hex_to_rgb] strips every leading [#] and reads the
    next three pairs of characters with [int(_, 16)].  For an optional
    [#] followed by exactly six hexadecimal digits it returns the
    corresponding triple.  It can only fail with [ValueError], and does
    so when fewer than five characters remain after stripping, or when
    the string is ASCII text and one of the first six characters is not
    a hexadecimal digit, a blank or a sign.  Characters after the sixth
    are ignored, and so are repeated leading [#]. *)
Theorem hex_to_rgb_spec :
  (forall s, is_hex6 s = true ->
     hex_to_rgb s =
     Ok (channel 0 (hex_body s), channel 2 (hex_body s), channel 4 (hex_body s)))
  /\ (forall s e, hex_to_rgb s = Raise e -> e = ValueError)
  /\ (forall s,
        (String.length (lstrip_with (Ascii.eqb "#") s) < 5)%nat ->
        hex_to_rgb s = Raise ValueError)
  /\ (forall s i c,
        ascii_text s = true ->
        (i < 6)%nat ->
        String.get i (lstrip_with (Ascii.eqb "#") s) = Some c ->
        literal_char c = false ->
        hex_to_rgb s = Raise ValueError)
  /\ (forall s t,
        (6 <= String.length (lstrip_with (Ascii.eqb "#") s))%nat ->
        hex_to_rgb (s +:+ t) = hex_to_rgb s)
  /\ (forall s, hex_to_rgb ("#" +:+ s) = hex_to_rgb s).
Proof.
  repeat split.
  - intros s H. rewrite hex_to_rgb_parse3, (lstrip_hex_body s H).
    unfold is_hex6 in H. apply andb_prop in H as [Hlen Hhex].
    apply Nat.eqb_eq in Hlen. now apply parse3_hex6.
  - intros s e. rewrite hex_to_rgb_parse3. apply parse3_raises.
  - intros s. rewrite hex_to_rgb_parse3. apply parse3_short.
  - intros s i c _. rewrite hex_to_rgb_parse3. apply parse3_bad_char.
  - intros s t Hlen. rewrite !hex_to_rgb_parse3.
    rewrite lstrip_app; [now apply parse3_app|].
    intros Heq. rewrite Heq in Hlen. simpl in Hlen. lia.
Qed.

Lemma hex_to_rgb_spec_witness :
  is_hex6 "#4285F4" = true /\ hex_to_rgb "#4285F4" = Ok (66, 133, 244) /\
  ascii_text "#4285G4" = true /\ hex_to_rgb "#4285G4" = Raise ValueError.
Proof.
  split; [reflexivity|].
  split; [exact (proj1 hex_to_rgb_spec "#4285F4" eq_refl)|].
  split; [reflexivity|].
  exact (proj1 (proj2 (proj2 (proj2 hex_to_rgb_spec))) "#4285G4" 4%nat "G"%char
           eq_refl ltac:(lia) eq_refl eq_refl).
Defined.

End IconGeneratorSpec.

(* ================================================================== *)
(** * Properties of [IconGenerator]: shades and the gradient *)
(* ================================================================== *)

Module ShadeSpec.

Import IconGenerator PyFacts.

Local Open Scope list_scope.

Definition valid (c : rgb) : Prop :=
  (0 <= c.1.1 <= 255) /\ (0 <= c.1.2 <= 255) /\ (0 <= c.2 <= 255).

(** ** The pipeline in the specification's words *)

(** To HSV, move V, back to RGB, each channel scaled by 255 and made an
    integer by [to_int]. *)
Definition shade (to_int : float -> result Z) (move : float -> float)
  (c : rgb) : result rgb :=
  try! (h, s, v) <- to_hsv c;
  try! (r, g, b) <- Colorsys.hsv_to_rgb h s (move v);
  try! r' <- to_int (PrimFloat.mul r 255%float);
  try! g' <- to_int (PrimFloat.mul g 255%float);
  try! b' <- to_int (PrimFloat.mul b 255%float);
  Ok (r', g', b').

(** V raised by [factor], capped at the top of the range. *)
Definition raise_value (factor v : float) : float :=
  let x := PrimFloat.add v factor in
  if PrimFloat.ltb x 1%float then x else 1%float.

(** V lowered by [factor], floored at the bottom of the range. *)
Definition lower_value (factor v : float) : float :=
  let x := PrimFloat.sub v factor in
  if PrimFloat.ltb 0%float x then x else 0%float.

(** ** The gradient in closed form *)

(** [[f x | x <- l]], stopping at the first exception. *)
Fixpoint collect {A B : Type} (f : A -> result B) (l : list A) : result (list B) :=
  match l with
  | [] => Ok []
  | x :: l' => try! y <- f x; try! ys <- collect f l'; Ok (y :: ys)
  end.

Lemma collect_lookup {A B : Type} (f : A -> result B) (l : list A) (ys : list B) :
  collect f l = Ok ys ->
  length ys = length l /\
  forall i x, l !! i = Some x -> exists y, f x = Ok y /\ ys !! i = Some y.
Proof.
  revert ys. induction l as [|x l IH]; intros ys; simpl.
  - intros [= <-]. split; [reflexivity|]. intros i x Hx. discriminate.
  - destruct (f x) as [y|e] eqn:Hfx; simpl; [|discriminate].
    destruct (collect f l) as [ys'|e]; simpl; [|discriminate].
    intros [= <-]. destruct (IH ys' eq_refl) as [Hlen Hall].
    split; [simpl; now rewrite Hlen|].
    intros [|i] x' Hx'; simpl in *.
    + injection Hx' as <-. eauto.
    + apply Hall, Hx'.
Qed.

Section Loops.

Variables (n : nat) (row_color : nat -> result rgb).

Definition paint_row (y : nat) (img : image) : result image :=
  try! c <- row_color y;
  for_range n (fun x img => putpixel img x y c) img.

(** The inner loop repaints one row, left to right. *)
Lemma paint_pixels (c : rgb) (y m a : nat) (img : image) (row : list rgb) :
  img !! y = Some row -> (a + m)%nat = length row ->
  for_each (seq a m) (fun x img => putpixel img x y c) img
  = Ok (<[y := take a row ++ replicate m (clip_color c)]> img).
Proof.
  revert a img row. induction m as [|m IH]; intros a img row Hrow Hlen.
  - cbn [seq for_each replicate].
    rewrite app_nil_r, take_ge by lia. now rewrite list_insert_id.
  - cbn [seq for_each replicate]. unfold putpixel at 1. rewrite Hrow.
    assert (Ha : (a < length row)%nat) by lia.
    apply Nat.ltb_lt in Ha as Hb. rewrite Hb. cbn [rbind].
    assert (Hy : (y < length img)%nat) by (eapply lookup_lt_Some; eassumption).
    rewrite (IH (S a) _ (<[a := clip_color c]> row)).
    + rewrite list_insert_insert_eq. do 2 f_equal.
      destruct (lookup_lt_is_Some_2 row a Ha) as [old Hold].
      rewrite (take_S_r _ _ (clip_color c))
        by (now apply list_lookup_insert_eq).
      rewrite take_insert_ge by lia. now rewrite <- app_assoc.
    + now apply list_lookup_insert_eq.
    + rewrite length_insert. lia.
Qed.

Lemma paint_row_ok (y : nat) (img : image) (row : list rgb) :
  img !! y = Some row -> length row = n ->
  paint_row y img
  = try! c <- row_color y; Ok (<[y := replicate n (clip_color c)]> img).
Proof.
  intros Hrow Hlen. unfold paint_row, for_range.
  destruct (row_color y) as [c|e]; cbn [rbind]; [|reflexivity].
  rewrite (paint_pixels c y n 0 img row) by (assumption || lia).
  reflexivity.
Qed.

(** The outer loop repaints the rows, top to bottom. *)
Lemma paint_rows (m a : nat) (img : image) :
  length img = (a + m)%nat -> Forall (fun row => length row = n) img ->
  for_each (seq a m) paint_row img
  = try! cs <- collect row_color (seq a m);
    Ok (take a img ++ (replicate n <$> (clip_color <$> cs))).
Proof.
  revert a img. induction m as [|m IH]; intros a img Hlen Hrows.
  - cbn [seq for_each collect rbind fmap list_fmap].
    rewrite app_nil_r, take_ge by lia. reflexivity.
  - cbn [seq for_each collect].
    assert (Ha : (a < length img)%nat) by lia.
    destruct (lookup_lt_is_Some_2 img a Ha) as [row Hrow].
    rewrite (paint_row_ok a img row Hrow)
      by (eapply Forall_lookup_1 in Hrows; eassumption).
    destruct (row_color a) as [c|e]; cbn [rbind]; [|reflexivity].
    rewrite IH.
    + destruct (collect row_color (seq (S a) m)) as [cs|e]; cbn [rbind];
        [|reflexivity].
      f_equal. rewrite !fmap_cons.
      rewrite (take_S_r _ _ (replicate n (clip_color c)))
        by (now apply list_lookup_insert_eq).
      rewrite take_insert_ge by lia. now rewrite <- app_assoc.
    + rewrite length_insert. lia.
    + apply Forall_insert; [assumption | apply length_replicate].
Qed.

End Loops.

Lemma new_image_rows (size : nat) (c : rgb) :
  Forall (fun row => length row = size) (new_image size c).
Proof.
  unfold new_image. apply Forall_replicate, length_replicate.
Qed.

(** The gradient loops compute one colour per row and fill the row. *)
Lemma background_closed_form (size : nat) (bg : rgb) :
  background size bg true =
  try! darker <- darken_color bg 0.15%float;
  try! cs <- collect (gradient_row size bg darker) (seq 0 size);
  Ok (replicate size <$> (clip_color <$> cs)).
Proof.
  unfold background. destruct (darken_color bg _) as [darker|e]; cbn [rbind];
    [|reflexivity].
  unfold for_range.
  change (for_each (seq 0 size) ?f) with
    (for_each (seq 0 size) (paint_row size (gradient_row size bg darker))).
  rewrite paint_rows.
  - reflexivity.
  - unfold new_image. now rewrite length_replicate.
  - apply new_image_rows.
Qed.

Lemma collect_total {A B : Type} (f : A -> result B) (l : list A) :
  (forall i x, l !! i = Some x -> exists y, f x = Ok y) ->
  exists ys, collect f l = Ok ys.
Proof.
  induction l as [|x l IH]; intros Hall; simpl; [eauto|].
  destruct (Hall 0%nat x eq_refl) as [y ->].
  destruct IH as [ys ->]; [intros i; apply (Hall (S i))|]. simpl. eauto.
Qed.

(** ** Small integers as floats *)

Lemma byte_range_ind (P : Z -> Prop) :
  (forall k : nat, (k < 256)%nat -> P (Z.of_nat k)) ->
  forall z, 0 <= z <= 255 -> P z.
Proof.
  intros H z Hz. rewrite <- (Z2Nat.id z) by lia. apply H. lia.
Qed.

Ltac each_byte k :=
  do 256 (destruct k as [|k]; [reflexivity|]); exfalso; lia.

Lemma byte_times_zero (d : Z) :
  0 <= d <= 255 -> PrimFloat.mul (float_of_int d) 0%float = 0%float.
Proof.
  revert d. apply byte_range_ind. intros k Hk. each_byte k.
Qed.

Lemma byte_kept (c : Z) :
  0 <= c <= 255 ->
  int_of_float
    (PrimFloat.add
       (PrimFloat.mul (float_of_int c) (PrimFloat.sub 1%float 0%float))
       0%float) = Ok c.
Proof.
  revert c. apply byte_range_ind. intros k Hk. each_byte k.
Qed.

Lemma blend_at_zero (c d : Z) :
  0 <= c <= 255 -> 0 <= d <= 255 -> blend c d 0%float = Ok c.
Proof.
  intros Hc Hd. unfold blend.
  change PrimFloat.one with 1%float.
  rewrite (byte_times_zero d Hd). now apply byte_kept.
Qed.

Lemma truediv_zero (b : Z) : 0 < b -> truediv 0 b = Ok 0%float.
Proof.
  intros Hb. unfold truediv.
  destruct (Z.eqb_spec b 0) as [Heq|_]; [lia|].
  destruct (Z.ltb_spec b 0) as [Hlt|_]; [lia|]. reflexivity.
Qed.

Lemma gradient_row_top (size : nat) (bg darker : rgb) :
  (0 < size)%nat -> valid bg -> valid darker ->
  gradient_row size bg darker 0 = Ok bg.
Proof.
  intros Hsize (Hr & Hg & Hb) (Hr' & Hg' & Hb').
  unfold gradient_row. change (Z.of_nat 0) with 0.
  rewrite truediv_zero by lia. cbn [rbind].
  rewrite !blend_at_zero by assumption. cbn [rbind].
  now destruct bg as [[r g] b].
Qed.

(** ** Signs of sums and differences *)

(** Zero, or above it. *)
Definition sf_nonneg (x : spec_float) : bool :=
  match x with
  | S754_zero _ | S754_finite false _ _ | S754_infinity false => true
  | _ => false
  end.

Definition sf_nan (x : spec_float) : bool :=
  match x with S754_nan => true | _ => false end.

Lemma leb_zero_nonneg (x : float) :
  PrimFloat.leb 0%float x = sf_nonneg (Prim2SF x).
Proof.
  rewrite FloatAxioms.leb_spec.
  change (Prim2SF 0%float) with (S754_zero false).
  now destruct (Prim2SF x) as [[]|[]| |[] m e].
Qed.

Lemma ltb_zero_nonneg (x : float) :
  sf_nonneg (Prim2SF x) || sf_nan (Prim2SF x) = true ->
  PrimFloat.ltb x 0%float = false.
Proof.
  rewrite FloatAxioms.ltb_spec.
  change (Prim2SF 0%float) with (S754_zero false).
  now destruct (Prim2SF x) as [[]|[]| |[] m e].
Qed.

Lemma binary_round_sign (s : bool) (m : positive) (e : Z) :
  match binary_round prec emax s m e with
  | S754_zero s' | S754_infinity s' | S754_finite s' _ _ => s' = s
  | S754_nan => True
  end.
Proof.
  unfold binary_round. destruct (shl_align _ _ _) as [mz ez].
  unfold binary_round_aux.
  destruct (shr_fexp prec emax (Z.pos mz) ez loc_Exact) as [mrs' e'].
  destruct (shr_fexp _ _ _ _ _) as [mrs'' e''].
  destruct (shr_m mrs''); [reflexivity| |exact I].
  now destruct (_ <=? _).
Qed.

Lemma add_nonneg (a b : float) :
  PrimFloat.leb 0%float a = true -> PrimFloat.leb 0%float b = true ->
  sf_nonneg (Prim2SF (PrimFloat.add a b))
  || sf_nan (Prim2SF (PrimFloat.add a b)) = true.
Proof.
  rewrite !leb_zero_nonneg, FloatAxioms.add_spec. unfold FloatAxioms.SF64add, SFadd.
  destruct (Prim2SF a) as [[]|[]| |[] ma ea]; try discriminate;
    destruct (Prim2SF b) as [[]|[]| |[] mb eb]; try discriminate;
    intros _ _; try reflexivity.
  cbn [cond_Zopp]. rewrite <- Pos2Z.inj_add. cbn [binary_normalize].
  pose proof (binary_round_sign false
                ((shl_align ma ea (ea `min` eb)).1 + (shl_align mb eb (ea `min` eb)).1)
                (ea `min` eb)) as H.
  destruct (binary_round _ _ _ _ _) as [s|s| |s m e]; try subst s; reflexivity.
Qed.

Lemma ltb_leb (x y : float) :
  PrimFloat.ltb x y = true -> PrimFloat.leb x y = true.
Proof.
  rewrite FloatAxioms.ltb_spec, FloatAxioms.leb_spec. unfold SFltb, SFleb.
  now destruct (SFcompare _ _) as [[]|].
Qed.

Lemma ltb_not_nan (x y : float) :
  PrimFloat.ltb x y = true -> sf_nan (Prim2SF x) = false.
Proof.
  rewrite FloatAxioms.ltb_spec. unfold SFltb.
  now destruct (Prim2SF x).
Qed.


(** ** Enumerating channels *)

(** [p] holds of [0 .. n-1]. *)
Fixpoint upto (n : nat) (p : Z -> bool) : bool :=
  match n with
  | O => true
  | S n' => p (Z.of_nat n') && upto n' p
  end.

Lemma upto_spec (n : nat) (p : Z -> bool) :
  upto n p = true -> forall k, 0 <= k < Z.of_nat n -> p k = true.
Proof.
  induction n as [|n IH]; intros H k Hk; [lia|].
  cbn [upto] in H. apply andb_prop in H as [Hn H].
  destruct (Z.eq_dec k (Z.of_nat n)) as [->|Hne]; [exact Hn|].
  apply IH; [exact H | lia].
Qed.

(** The channel [k] on the scale of [colorsys]: [k / 255]. *)
Definition unit_float (k : Z) : float :=
  PrimFloat.div (float_of_int k) 255%float.

Lemma truediv_unit (k : Z) : truediv k 255 = Ok (unit_float k).
Proof.
  unfold truediv, unit_float. cbn [Z.eqb].
  destruct (Z.eqb_spec k 0) as [->|_]; reflexivity.
Qed.

(** Scaling keeps the order of channels, and nothing but channel 0 is
    scaled to zero. *)
Definition scaled_pair_ok (a b : Z) : bool :=
  let fa := unit_float a in
  let fb := unit_float b in
  Bool.eqb (PrimFloat.ltb fa fb) (a <? b)
  && Bool.eqb (PrimFloat.eqb fa fb) (a =? b)
  && Bool.eqb (PrimFloat.eqb (PrimFloat.sub fa fb) 0%float) (a =? b)
  && Bool.eqb (PrimFloat.eqb fa 0%float) (a =? 0)
  && PrimFloat.leb 0%float fa && PrimFloat.leb fa 1%float.

Lemma scaled_pairs_checked :
  upto 256 (fun a => upto 256 (scaled_pair_ok a)) = true.
Proof. vm_compute. reflexivity. Qed.

Lemma scaled_pair (a b : Z) :
  0 <= a <= 255 -> 0 <= b <= 255 ->
  PrimFloat.ltb (unit_float a) (unit_float b) = (a <? b) /\
  PrimFloat.eqb (unit_float a) (unit_float b) = (a =? b) /\
  PrimFloat.eqb (PrimFloat.sub (unit_float a) (unit_float b)) 0%float
    = (a =? b) /\
  PrimFloat.eqb (unit_float a) 0%float = (a =? 0) /\
  PrimFloat.leb 0%float (unit_float a) = true /\
  PrimFloat.leb (unit_float a) 1%float = true.
Proof.
  intros Ha Hb.
  pose proof (upto_spec _ _ (upto_spec _ _ scaled_pairs_checked a
                               ltac:(simpl; lia)) b ltac:(simpl; lia)) as H.
  unfold scaled_pair_ok in H. cbv zeta in H.
  repeat (apply andb_prop in H as [H ?]).
  repeat split; try assumption; now apply Bool.eqb_prop.
Qed.

Lemma max3_scaled (r g b : Z) :
  valid (r, g, b) ->
  max3 (unit_float r) (unit_float g) (unit_float b)
  = unit_float (Z.max r (Z.max g b)).
Proof.
  intros (Hr & Hg & Hb). cbn [fst snd] in *. unfold max3.
  rewrite (proj1 (scaled_pair r g Hr Hg)).
  destruct (Z.ltb_spec r g).
  - rewrite (proj1 (scaled_pair g b Hg Hb)).
    destruct (Z.ltb_spec g b); f_equal; lia.
  - rewrite (proj1 (scaled_pair r b Hr Hb)).
    destruct (Z.ltb_spec r b); f_equal; lia.
Qed.

Lemma min3_scaled (r g b : Z) :
  valid (r, g, b) ->
  min3 (unit_float r) (unit_float g) (unit_float b)
  = unit_float (Z.min r (Z.min g b)).
Proof.
  intros (Hr & Hg & Hb). cbn [fst snd] in *. unfold min3.
  rewrite (proj1 (scaled_pair g r Hg Hr)).
  destruct (Z.ltb_spec g r).
  - rewrite (proj1 (scaled_pair b g Hb Hg)).
    destruct (Z.ltb_spec b g); f_equal; lia.
  - rewrite (proj1 (scaled_pair b r Hb Hr)).
    destruct (Z.ltb_spec b r); f_equal; lia.
Qed.

(** Every valid colour has its HSV form; V is the largest channel. *)
Lemma rgb_to_hsv_total (r g b : Z) :
  valid (r, g, b) ->
  exists h s,
    Colorsys.rgb_to_hsv (unit_float r) (unit_float g) (unit_float b)
    = Ok (h, s, unit_float (Z.max r (Z.max g b))).
Proof.
  intros Hv. pose proof Hv as (Hr & Hg & Hb). cbn [fst snd] in *.
  unfold Colorsys.rgb_to_hsv. cbv zeta.
  rewrite (max3_scaled r g b Hv), (min3_scaled r g b Hv).
  set (M := Z.max r (Z.max g b)). set (m := Z.min r (Z.min g b)).
  assert (HM : 0 <= M <= 255) by lia. assert (Hm : 0 <= m <= 255) by lia.
  destruct (scaled_pair m M Hm HM) as (_ & Heq & _).
  destruct (scaled_pair M m HM Hm) as (_ & _ & Hsub & Hzero & _).
  rewrite Heq. destruct (Z.eqb_spec m M) as [_|Hne]; [eauto|].
  unfold fdiv. change PrimFloat.zero with 0%float. rewrite Hzero, Hsub.
  destruct (Z.eqb_spec M 0) as [H0|_]; [lia|].
  destruct (Z.eqb_spec M m) as [H0|_]; [lia|].
  cbn [rbind]. eauto.
Qed.


(** ** Truncation *)

(** [z] is [x] without its fraction: [x] is [m * 2^e] with a sign, and
    [z] is, with the same sign, the natural number [a] such that
    [a <= m * 2^e < a + 1]. *)
Definition truncated (x : float) (z : Z) : Prop :=
  match Prim2SF x with
  | S754_zero _ => z = 0
  | S754_finite s m e =>
      exists a,
        0 <= a /\ z = (if s then - a else a) /\
        a * 2 ^ Z.max 0 (- e) <= Zpos m * 2 ^ Z.max 0 e
          < (a + 1) * 2 ^ Z.max 0 (- e)
  | _ => False
  end.

Lemma int_of_float_truncated (x : float) (z : Z) :
  int_of_float x = Ok z <-> truncated x z.
Proof.
  unfold int_of_float, truncated.
  destruct (Prim2SF x) as [s|s| |s m e]; try (split; [discriminate|tauto]).
  - split; [now intros [= <-] | now intros ->].
  - assert (Hnn : 0 <= Z.shiftl (Z.pos m) e) by (apply Z.shiftl_nonneg; lia).
    destruct (Z.le_gt_cases 0 e) as [He|He].
    + rewrite Z.shiftl_mul_pow2 in * by lia.
      rewrite (Z.max_l 0 (- e)), (Z.max_r 0 e) by lia.
      change (2 ^ 0) with 1. split.
      * intros [= <-]. exists (Z.pos m * 2 ^ e).
        repeat split; try reflexivity; lia.
      * intros (a & Ha & -> & Hlo & Hhi).
        assert (a = Z.pos m * 2 ^ e) as -> by lia. reflexivity.
    + assert (Hsh : Z.shiftl (Z.pos m) e = Z.pos m / 2 ^ (- e)).
      { rewrite <- (Z.opp_involutive e) at 1.
        rewrite Z.shiftl_opp_r. apply Z.shiftr_div_pow2. lia. }
      rewrite Hsh in *.
      rewrite (Z.max_r 0 (- e)), (Z.max_l 0 e) by lia.
      change (2 ^ 0) with 1.
      assert (Hpow : 0 < 2 ^ (- e)) by (apply Z.pow_pos_nonneg; lia).
      pose proof (Z.div_mod (Z.pos m) (2 ^ (- e)) ltac:(lia)) as Hdm.
      pose proof (Z.mod_pos_bound (Z.pos m) (2 ^ (- e)) Hpow) as Hmod.
      split.
      * intros [= <-]. exists (Z.pos m / 2 ^ (- e)).
        repeat split; try reflexivity; nia.
      * intros (a & Ha & -> & Hlo & Hhi).
        assert (a = Z.pos m / 2 ^ (- e)) as ->; [|reflexivity].
        apply (Z.div_unique _ _ _ (Z.pos m - a * 2 ^ (- e))); lia.
Qed.

(** ** The pipeline, stage by stage *)

Definition in_unit (x : float) : Prop :=
  PrimFloat.leb 0%float x = true /\ PrimFloat.leb x 1%float = true.

(** Back from HSV, each channel scaled by 255 and truncated. *)
Definition shaded (h s v : float) (out : rgb) : Prop :=
  exists r g b,
    Colorsys.hsv_to_rgb h s v = Ok (r, g, b) /\
    truncated (PrimFloat.mul r 255%float) out.1.1 /\
    truncated (PrimFloat.mul g 255%float) out.1.2 /\
    truncated (PrimFloat.mul b 255%float) out.2.

Lemma shaded_ints (h s v : float) (out : rgb) :
  (try! (r, g, b) <- Colorsys.hsv_to_rgb h s v;
   try! r' <- int_of_float (PrimFloat.mul r 255%float);
   try! g' <- int_of_float (PrimFloat.mul g 255%float);
   try! b' <- int_of_float (PrimFloat.mul b 255%float);
   Ok (r', g', b')) = Ok out <-> shaded h s v out.
Proof.
  unfold shaded. destruct out as [[r' g'] b']. cbn [fst snd]. split.
  - destruct (Colorsys.hsv_to_rgb h s v) as [[[r g] b]|e]; cbn [rbind];
      [|discriminate].
    destruct (int_of_float (PrimFloat.mul r _)) as [x|e] eqn:Hr; cbn [rbind];
      [|discriminate].
    destruct (int_of_float (PrimFloat.mul g _)) as [y|e] eqn:Hg; cbn [rbind];
      [|discriminate].
    destruct (int_of_float (PrimFloat.mul b _)) as [z|e] eqn:Hb; cbn [rbind];
      [|discriminate].
    intros [= <- <- <-]. exists r, g, b.
    repeat split; try reflexivity; now apply int_of_float_truncated.
  - intros (r & g & b & -> & Hr & Hg & Hb). cbn [rbind].
    apply int_of_float_truncated in Hr, Hg, Hb. now rewrite Hr, Hg, Hb.
Qed.

Lemma raise_value_in_unit (factor v : float) :
  PrimFloat.leb 0%float factor = true -> PrimFloat.leb 0%float v = true ->
  in_unit (raise_value factor v).
Proof.
  intros Hf Hv. unfold raise_value. cbv zeta.
  destruct (PrimFloat.ltb (PrimFloat.add v factor) 1%float) eqn:Hlt;
    [|split; reflexivity].
  split; [|now apply ltb_leb].
  rewrite leb_zero_nonneg. pose proof (add_nonneg v factor Hv Hf) as H.
  now rewrite (ltb_not_nan _ _ Hlt), orb_false_r in H.
Qed.

Lemma lower_value_nonneg (factor v : float) :
  PrimFloat.leb 0%float (lower_value factor v) = true.
Proof.
  unfold lower_value. cbv zeta.
  destruct (PrimFloat.ltb 0%float (PrimFloat.sub v factor)) eqn:Hlt;
    [now apply ltb_leb | reflexivity].
Qed.

(** ** The claims on shades and the gradient *)

(** C3, counterexample.  For the launcher's default blue, darkening by
    0.15 yields channel products 55.65.., 112.15.., 205.75: the code
    returns (55, 112, 205), rounding to the nearest integers would give
    (56, 112, 206).  Lightening by 0.2 likewise returns (68, 138, 255)
    where rounding gives (69, 139, 255). *)
Lemma shades_do_not_round :
  darken_color (66, 133, 244) 0.15%float = Ok (55, 112, 205) /\
  shade round_of_float (lower_value 0.15%float) (66, 133, 244)
    = Ok (56, 112, 206) /\
  lighten_color (66, 133, 244) 0.2%float = Ok (68, 138, 255) /\
  shade round_of_float (raise_value 0.2%float) (66, 133, 244)
    = Ok (69, 139, 255).
Proof. repeat split; vm_compute; reflexivity. Qed.

(** C3, amended.  For every RGB triple with channels in [0,255] and
    every factor in [0,1], [lighten_color] (resp. [darken_color])
    converts the colour to HSV, which always succeeds, V being the
    largest channel over 255; adds (resp. subtracts) the factor to V as
    an absolute amount and caps the sum at 1 (resp. floors the
    difference at 0), which keeps the raised V within [0,1] and the
    lowered V at or above 0; converts back to RGB; and returns exactly
    the integers obtained from the three channels times 255 by dropping
    the fraction (truncation toward zero, not rounding to nearest). *)
Theorem shades_spec (c : rgb) (factor : float) :
  valid c ->
  PrimFloat.leb 0%float factor = true -> PrimFloat.leb factor 1%float = true ->
  exists h s v,
    Colorsys.rgb_to_hsv (unit_float c.1.1) (unit_float c.1.2) (unit_float c.2)
      = Ok (h, s, v) /\
    v = unit_float (Z.max c.1.1 (Z.max c.1.2 c.2)) /\ in_unit v /\
    in_unit (raise_value factor v) /\
    PrimFloat.leb 0%float (lower_value factor v) = true /\
    (forall out,
       lighten_color c factor = Ok out <->
       shaded h s (raise_value factor v) out) /\
    (forall out,
       darken_color c factor = Ok out <->
       shaded h s (lower_value factor v) out).
Proof.
  destruct c as [[r g] b]. intros Hc Hf0 Hf1. cbn [fst snd].
  destruct (rgb_to_hsv_total r g b Hc) as (h & s & Hhsv).
  set (v := unit_float (Z.max r (Z.max g b))) in *.
  assert (Hv : in_unit v).
  { destruct Hc as (Hr & Hg & Hb). cbn [fst snd] in *.
    assert (HM : 0 <= Z.max r (Z.max g b) <= 255) by lia.
    destruct (scaled_pair _ _ HM HM) as (_ & _ & _ & _ & H0 & H1).
    now split. }
  exists h, s, v. split; [exact Hhsv|]. split; [reflexivity|].
  split; [exact Hv|].
  split; [apply raise_value_in_unit; [exact Hf0 | apply Hv]|].
  split; [apply lower_value_nonneg|].
  assert (Hto : to_hsv (r, g, b) = Ok (h, s, v)).
  { unfold to_hsv. rewrite !truediv_unit. cbn [rbind]. exact Hhsv. }
  split; intros out.
  - unfold lighten_color. rewrite Hto. cbn [rbind].
    apply shaded_ints.
  - unfold darken_color. rewrite Hto. cbn [rbind].
    apply shaded_ints.
Qed.


Lemma shades_spec_witness :
  valid (66, 133, 244) /\
  exists h s v,
    v = unit_float 244 /\ in_unit v /\
    shaded h s (lower_value 0.15%float v) (55, 112, 205) /\
    shaded h s (raise_value 0.15%float v) (68, 138, 255).
Proof.
  assert (Hc : valid (66, 133, 244)) by (repeat split; cbn; lia).
  split; [exact Hc|].
  destruct (shades_spec (66, 133, 244) 0.15%float Hc eq_refl eq_refl)
    as (h & s & v & _ & Hv & Hin & _ & _ & Hup & Hdown).
  exists h, s, v. split; [exact Hv|]. split; [exact Hin|]. split.
  - apply Hdown. vm_compute. reflexivity.
  - apply Hup. vm_compute. reflexivity.
Defined.

(** C4, counterexample.  On a canvas of side 2 the bottom row is row 1;
    it is painted with the blend at ratio 1/2, (60, 122, 224), not with
    [darken(bgColor, 0.15)] = (55, 112, 205). *)
Lemma gradient_bottom_row_differs :
  darken_color (66, 133, 244) 0.15%float = Ok (55, 112, 205) /\
  background 2 (66, 133, 244) true
    = Ok [ [(66, 133, 244); (66, 133, 244)];
           [(60, 122, 224); (60, 122, 224)] ].
Proof. split; vm_compute; reflexivity. Qed.

(** A valid colour is stored as it is. *)
Lemma clip_color_valid (c : rgb) : valid c -> clip_color c = c.
Proof.
  destruct c as [[r g] b]. intros (Hr & Hg & Hb). cbn [fst snd] in *.
  unfold clip_color, clip8. cbn [fst snd]. repeat f_equal; lia.
Qed.

(** The ratio of the last row of the default canvas. *)
Definition last_ratio : float :=
  PrimFloat.div (float_of_int 255) (float_of_int 256).

Definition bottom_ok (a d : Z) : bool :=
  (a <? d)
  || match blend a d last_ratio with
     | Ok z => z =? d
     | Raise _ => false
     end.

Lemma bottom_checked : upto 256 (fun a => upto 256 (bottom_ok a)) = true.
Proof. vm_compute. reflexivity. Qed.

Lemma blend_bottom (a d : Z) :
  0 <= d -> d <= a -> a <= 255 -> blend a d last_ratio = Ok d.
Proof.
  intros H0 Hda Ha.
  pose proof (upto_spec _ _ (upto_spec _ _ bottom_checked a
                               ltac:(simpl; lia)) d ltac:(simpl; lia)) as H.
  unfold bottom_ok in H. destruct (Z.ltb_spec a d); [lia|]. cbn [orb] in H.
  destruct (blend a d last_ratio) as [z|e]; [|discriminate].
  apply Z.eqb_eq in H. now subst.
Qed.

(** No channel of [darker] is above that of [bg]. *)
Definition no_lighter (darker bg : rgb) : Prop :=
  darker.1.1 <= bg.1.1 /\ darker.1.2 <= bg.1.2 /\ darker.2 <= bg.2.

Lemma gradient_row_bottom (bg darker : rgb) :
  valid bg -> valid darker -> no_lighter darker bg ->
  gradient_row DEFAULT_SIZE bg darker (DEFAULT_SIZE - 1) = Ok darker.
Proof.
  intros (Hr & Hg & Hb) (Hr' & Hg' & Hb') (Lr & Lg & Lb).
  unfold gradient_row.
  change (truediv (Z.of_nat (DEFAULT_SIZE - 1)) (Z.of_nat DEFAULT_SIZE))
    with (@Ok float last_ratio).
  cbn [rbind]. rewrite !blend_bottom by lia. cbn [rbind].
  now destruct darker as [[r g] b].
Qed.

(** What the gradient loops leave on a canvas of [size] rows, painted
    from [bg] to [darker]: every row is the blend of the two colours at
    ratio row/height, channel by channel, truncated and stored as PIL
    stores a channel; the top row is [bg]; and on the default canvas
    the bottom row is [darker], when that is in no channel above
    [bg]. *)
Definition gradient_described (size : nat) (bg darker : rgb) (img : image)
  : Prop :=
  length img = size /\
  (forall x y, (x < size)%nat -> (y < size)%nat ->
     exists ratio r g b,
       truediv (Z.of_nat y) (Z.of_nat size) = Ok ratio /\
       blend bg.1.1 darker.1.1 ratio = Ok r /\
       blend bg.1.2 darker.1.2 ratio = Ok g /\
       blend bg.2 darker.2 ratio = Ok b /\
       getpixel img x y = Some (clip_color (r, g, b))) /\
  (forall x, (x < size)%nat -> getpixel img x 0 = Some bg) /\
  (size = DEFAULT_SIZE -> no_lighter darker bg ->
   forall x, (x < size)%nat -> getpixel img x (size - 1) = Some darker).

Lemma gradient_painted (size : nat) (bg darker : rgb) (img : image) :
  valid bg -> Z.of_nat size <= 2 ^ 53 ->
  darken_color bg 0.15%float = Ok darker -> valid darker ->
  background size bg true = Ok img -> gradient_described size bg darker img.
Proof.
  intros Hbg Hsize Hd Hdark. rewrite background_closed_form, Hd. cbn [rbind].
  destruct (collect _ _) as [cs|e] eqn:Hcs; cbn [rbind]; [|discriminate].
  intros [= <-].
  destruct (collect_lookup _ _ _ Hcs) as [Hlen Hall].
  rewrite length_seq in Hlen.
  assert (Hpix : forall x y c, (x < size)%nat -> cs !! y = Some c ->
            getpixel (replicate size <$> (clip_color <$> cs)) x y
            = Some (clip_color c)).
  { intros x y c Hx Hc. unfold getpixel.
    rewrite !list_lookup_fmap, Hc. simpl. now apply lookup_replicate_2. }
  split; [now rewrite !length_fmap|]. split; [|split].
  - intros x y Hx Hy.
    destruct (Hall y y) as [[[r g] b] [Hrow Hc]]; [now apply lookup_seq_lt|].
    unfold gradient_row in Hrow.
    destruct (truediv _ _) as [ratio|?] eqn:H0; cbn [rbind] in Hrow;
      [|discriminate].
    destruct (blend bg.1.1 _ _) as [r'|?] eqn:H1; cbn [rbind] in Hrow;
      [|discriminate].
    destruct (blend bg.1.2 _ _) as [g'|?] eqn:H2; cbn [rbind] in Hrow;
      [|discriminate].
    destruct (blend bg.2 _ _) as [b'|?] eqn:H3; cbn [rbind] in Hrow;
      [|discriminate].
    injection Hrow as <- <- <-. exists ratio, r', g', b'.
    repeat split; try assumption. now apply Hpix.
  - intros x Hx.
    destruct (Hall 0%nat 0%nat) as [c [Hrow Hc]]; [apply lookup_seq_lt; lia|].
    rewrite gradient_row_top in Hrow by (assumption || lia).
    injection Hrow as <-.
    replace (Some bg) with (Some (clip_color bg))
      by (now rewrite clip_color_valid).
    now apply Hpix.
  - intros -> Hno x Hx.
    destruct (Hall (DEFAULT_SIZE - 1)%nat (DEFAULT_SIZE - 1)%nat)
      as [c [Hrow Hc]]; [apply lookup_seq_lt; unfold DEFAULT_SIZE; lia|].
    rewrite (gradient_row_bottom bg darker Hbg Hdark Hno) in Hrow.
    injection Hrow as <-.
    replace (Some darker) with (Some (clip_color darker))
      by (now rewrite clip_color_valid).
    now apply Hpix.
Qed.

(** The converse: the background is rendered as soon as the darker
    colour and every row's blend are defined. *)
Lemma background_rendered (size : nat) (bg darker : rgb) :
  darken_color bg 0.15%float = Ok darker ->
  (forall y, (y < size)%nat -> exists c, gradient_row size bg darker y = Ok c) ->
  exists img, background size bg true = Ok img.
Proof.
  intros Hd Hrows. rewrite background_closed_form, Hd. cbn [rbind].
  destruct (collect_total (gradient_row size bg darker) (seq 0 size)) as [cs ->].
  - intros i y Hy. apply lookup_seq in Hy as [-> Hi]. now apply Hrows.
  - cbn [rbind]. eauto.
Qed.

(** Row [y] of the default canvas has its colour. *)
Definition row_ok (bg darker : rgb) (y : Z) : bool :=
  match gradient_row DEFAULT_SIZE bg darker (Z.to_nat y) with
  | Ok _ => true
  | Raise _ => false
  end.

(** ** The colours of the program *)

(** The default background and the backgrounds of the ten palettes. *)
Definition preset_backgrounds : list rgb :=
  DEFAULT_BG_COLOR :: (fst <$> COLOR_PALETTES).

Definition byte (v : Z) : bool := (0 <=? v) && (v <=? 255).

Definition preset_ok (bg : rgb) : bool :=
  byte bg.1.1 && byte bg.1.2 && byte bg.2
  && match darken_color bg 0.15%float with
     | Ok d =>
         byte d.1.1 && byte d.1.2 && byte d.2
         && (d.1.1 <=? bg.1.1) && (d.1.2 <=? bg.1.2) && (d.2 <=? bg.2)
         && upto 256 (row_ok bg d)
     | Raise _ => false
     end.

Lemma presets_checked : forallb preset_ok preset_backgrounds = true.
Proof. vm_compute. reflexivity. Qed.

Lemma byte_spec (v : Z) : byte v = true -> 0 <= v <= 255.
Proof. unfold byte. intros H. apply andb_prop in H as [H1 H2]. lia. Qed.

Lemma preset_shade (bg : rgb) :
  bg ∈ preset_backgrounds ->
  valid bg /\
  exists darker,
    darken_color bg 0.15%float = Ok darker /\ valid darker /\
    no_lighter darker bg /\
    forall y, (y < DEFAULT_SIZE)%nat ->
              exists c, gradient_row DEFAULT_SIZE bg darker y = Ok c.
Proof.
  intros Hin. pose proof presets_checked as H.
  rewrite forallb_forall in H. specialize (H bg).
  rewrite <- list_elem_of_In in H. specialize (H Hin).
  unfold preset_ok in H.
  destruct (darken_color bg 0.15%float) as [d|e];
    [|now rewrite andb_false_r in H].
  repeat match goal with
         | Hb : (_ && _) = true |- _ => apply andb_prop in Hb as [? ?]
         end.
  repeat match goal with
         | Hb : byte _ = true |- _ => apply byte_spec in Hb
         | Hb : (_ <=? _) = true |- _ => apply Z.leb_le in Hb
         end.
  split; [repeat split; lia|].
  exists d. split; [reflexivity|].
  split; [repeat split; lia|].
  split; [repeat split; lia|].
  intros y Hy.
  match goal with
  | Hrows : upto 256 _ = true |- _ =>
      pose proof (upto_spec _ _ Hrows (Z.of_nat y)
                    ltac:(unfold DEFAULT_SIZE in Hy; lia)) as Hrow
  end.
  unfold row_ok in Hrow. rewrite Nat2Z.id in Hrow.
  destruct (gradient_row _ _ _ y) as [c|e]; [eauto | discriminate].
Qed.

Lemma preset_gradient (bg : rgb) :
  bg ∈ preset_backgrounds ->
  exists darker img,
    darken_color bg 0.15%float = Ok darker /\
    background DEFAULT_SIZE bg true = Ok img /\
    forall x, (x < DEFAULT_SIZE)%nat ->
      getpixel img x 0 = Some bg /\
      getpixel img x (DEFAULT_SIZE - 1) = Some darker.
Proof.
  intros Hin.
  destruct (preset_shade bg Hin) as (Hbg & darker & Hd & Hdark & Hno & Hrows).
  destruct (background_rendered DEFAULT_SIZE bg darker Hd Hrows) as [img Himg].
  exists darker, img. split; [exact Hd|]. split; [exact Himg|].
  assert (Hsize : Z.of_nat DEFAULT_SIZE <= 2 ^ 53)
    by (vm_compute; discriminate).
  destruct (gradient_painted DEFAULT_SIZE bg darker img Hbg Hsize Hd Hdark Himg)
    as (_ & _ & Htop & Hbottom).
  intros x Hx. split; [now apply Htop | now apply (Hbottom eq_refl)].
Qed.

(** C4, amended.  For every valid bgColor and canvas size (below 2^53),
    with [darker = darken(bgColor, 0.15)] a valid colour, the
    background rendered with the gradient has in each row [y] the
    three channels [int(bg * (1 - y/size) + darker * (y/size))], each
    blended independently by the ratio row/height, truncated and
    stored as PIL stores a channel; the top row equals [bgColor]; the
    bottom row is the blend at ratio [(size-1)/size] like any other
    row, and on the default canvas of 256 rows it equals [darker]
    whenever no channel of [darker] is above that of [bgColor].  For
    the default background and the ten palette backgrounds the canvas
    of 256 rows is rendered, from [bgColor] in the top row to
    [darken(bgColor, 0.15)] in the bottom row. *)
Theorem gradient_rows :
  (forall size bg darker img,
     valid bg -> Z.of_nat size <= 2 ^ 53 ->
     darken_color bg 0.15%float = Ok darker -> valid darker ->
     background size bg true = Ok img ->
     gradient_described size bg darker img) /\
  (forall bg,
     bg ∈ preset_backgrounds ->
     exists darker img,
       darken_color bg 0.15%float = Ok darker /\
       background DEFAULT_SIZE bg true = Ok img /\
       forall x, (x < DEFAULT_SIZE)%nat ->
         getpixel img x 0 = Some bg /\
         getpixel img x (DEFAULT_SIZE - 1) = Some darker).
Proof. split; [exact gradient_painted | exact preset_gradient]. Qed.

Lemma gradient_rows_witness :
  valid (66, 133, 244) /\ valid (55, 112, 205) /\
  darken_color (66, 133, 244) 0.15%float = Ok (55, 112, 205) /\
  exists img,
    background DEFAULT_SIZE (66, 133, 244) true = Ok img /\
    gradient_described DEFAULT_SIZE (66, 133, 244) (55, 112, 205) img /\
    getpixel img 0 0 = Some (66, 133, 244) /\
    getpixel img 0 255 = Some (55, 112, 205).
Proof.
  assert (Hbg : valid (66, 133, 244)) by (repeat split; cbn; lia).
  assert (Hdark : valid (55, 112, 205)) by (repeat split; cbn; lia).
  assert (Hd : darken_color (66, 133, 244) 0.15%float = Ok (55, 112, 205))
    by (vm_compute; reflexivity).
  assert (Hsize : Z.of_nat DEFAULT_SIZE <= 2 ^ 53)
    by (vm_compute; discriminate).
  split; [exact Hbg|]. split; [exact Hdark|]. split; [exact Hd|].
  destruct (proj2 gradient_rows (66, 133, 244)) as (darker & img & Hd' & Himg & _).
  { apply list_elem_of_here. }
  exists img. split; [exact Himg|].
  pose proof (proj1 gradient_rows DEFAULT_SIZE _ _ img Hbg Hsize Hd Hdark Himg)
    as Hrows.
  split; [exact Hrows|].
  destruct Hrows as (_ & _ & Htop & Hbottom).
  split; [apply Htop; unfold DEFAULT_SIZE; lia|].
  apply (Hbottom eq_refl); [repeat split; cbn; lia | unfold DEFAULT_SIZE; lia].
Defined.

End ShadeSpec.

(* ================================================================== *)
(** * Properties of the launcher: registry and artifacts *)
(* ================================================================== *)

Module LauncherSpec.

Import Launcher PyFacts.

Local Open Scope list_scope.

Section Frames.

Variable E : Env.

(** ** Computations that leave the registry alone *)

Definition keeps {A : Type} (m : M A) : Prop :=
  forall w, saved_apps (m w).2 = saved_apps w.

Lemma keeps_ret {A : Type} (a : A) : keeps (ret a).
Proof. intros w. reflexivity. Qed.

Lemma keeps_raise {A : Type} (e : exn) : keeps (@raise A e).
Proof. intros w. reflexivity. Qed.

Lemma keeps_gets {A : Type} (f : World -> A) : keeps (gets f).
Proof. intros w. reflexivity. Qed.

Lemma keeps_lift {A : Type} (r : result A) : keeps (lift r).
Proof. intros w. reflexivity. Qed.

Lemma keeps_bind {A B : Type} (m : M A) (k : A -> M B) :
  keeps m -> (forall a, keeps (k a)) -> keeps (bind m k).
Proof.
  intros Hm Hk w. unfold bind. specialize (Hm w).
  destruct (m w) as [[a|e] w1]; simpl in *; [rewrite Hk|]; assumption.
Qed.

Lemma keeps_catch {A : Type} (m : M A) (h : exn -> M A) :
  keeps m -> (forall e, keeps (h e)) -> keeps (catch m h).
Proof.
  intros Hm Hh w. unfold catch. specialize (Hm w).
  destruct (m w) as [[a|e] w1]; simpl in *; [|rewrite Hh]; assumption.
Qed.

Lemma keeps_modify (f : World -> World) :
  (forall w, saved_apps (f w) = saved_apps w) -> keeps (modify f).
Proof. intros Hf w. apply Hf. Qed.

Lemma keeps_emit (ev : event) : keeps (emit ev).
Proof. intros w. reflexivity. Qed.

Ltac keeps_step :=
  lazymatch goal with
  | |- keeps (ret _) => apply keeps_ret
  | |- keeps (raise _) => apply keeps_raise
  | |- keeps (gets _) => apply keeps_gets
  | |- keeps (lift _) => apply keeps_lift
  | |- keeps (emit _) => apply keeps_emit
  | |- keeps (modify _) => apply keeps_modify; intros; reflexivity
  | |- keeps (bind _ _) => apply keeps_bind; [|intros]
  | |- keeps (catch _ _) => apply keeps_catch; [|intros]
  | |- keeps (if ?b then _ else _) => destruct b
  | |- keeps (match ?x with _ => _ end) => destruct x
  | |- keeps _ => solve [auto 1]
  end.

Ltac keeps_auto := repeat keeps_step.

Lemma keeps_log_to_console (message tag : string) :
  keeps (log_to_console E message tag).
Proof. unfold log_to_console, datetime_now. keeps_auto. Qed.

Lemma keeps_desktop_log (message tag : string) :
  keeps (desktop_log E message tag).
Proof. unfold desktop_log, datetime_now. keeps_auto. Qed.

Lemma keeps_write_file (path content : string) :
  keeps (write_file E path content).
Proof. unfold write_file. keeps_auto. Qed.

Lemma keeps_chmod (path : string) (mode : Z) : keeps (chmod path mode).
Proof. unfold chmod. keeps_auto. Qed.

Lemma keeps_makedirs (path : string) : keeps (makedirs E path).
Proof. unfold makedirs. keeps_auto. Qed.

Lemma keeps_popen (argv : list string) (shell new_session : bool) :
  keeps (popen E argv shell new_session).
Proof. unfold popen. keeps_auto. Qed.

Lemma keeps_askyesno (title text : string) : keeps (askyesno E title text).
Proof. unfold askyesno. keeps_auto. Qed.

Lemma keeps_exists (p : string) : keeps (exists_ p).
Proof. unfold exists_. keeps_auto. Qed.

Lemma keeps_create_activation_script (a : app) :
  keeps (create_activation_script E a).
Proof.
  pose proof keeps_write_file. pose proof keeps_chmod.
  pose proof keeps_log_to_console.
  unfold create_activation_script. keeps_auto; auto.
Qed.

Lemma keeps_create_xterm_launcher (a : app) (act : string) :
  keeps (create_xterm_launcher E a act).
Proof.
  pose proof keeps_write_file. pose proof keeps_chmod.
  pose proof keeps_log_to_console.
  unfold create_xterm_launcher. keeps_auto; auto.
Qed.

Lemma keeps_save_apps : keeps (save_apps E).
Proof.
  pose proof keeps_write_file. pose proof keeps_log_to_console.
  unfold save_apps. keeps_auto; auto.
Qed.

Lemma keeps_refresh_apps_list : keeps (refresh_apps_list E).
Proof.
  pose proof keeps_log_to_console. unfold refresh_apps_list. keeps_auto; auto.
Qed.

Lemma keeps_run_script_file (p : string) : keeps (run_script_file E p).
Proof.
  pose proof keeps_popen. pose proof keeps_log_to_console.
  pose proof keeps_exists.
  unfold run_script_file. keeps_auto; auto.
Qed.

(** A step [bind m k] whose first part leaves the registry alone either
    stops there with an exception or goes on from a world with the same
    registry. *)
Lemma bind_keeps {A B : Type} (m : M A) (k : A -> M B) (w : World) :
  keeps m ->
  (exists e w1, bind m k w = (Raise e, w1) /\ saved_apps w1 = saved_apps w) \/
  (exists a w1, bind m k w = k a w1 /\ saved_apps w1 = saved_apps w).
Proof.
  intros Hm. unfold bind. specialize (Hm w).
  destruct (m w) as [[a|e] w1]; simpl in Hm; [right | left]; eauto.
Qed.

Ltac step_keeps H e a w1 K :=
  match goal with
  | |- context [bind ?m ?k ?w] =>
      destruct (bind_keeps m k w H) as [(e & w1 & -> & K)|(a & w1 & -> & K)]
  end.

(** ** The registry after a save *)

Definition names (l : list app) : list string := name <$> l.

Lemma find_app_Some (nm : string) (apps : list app) (i : nat) (a : app) :
  find_app nm apps = Some (i, a) ->
  apps !! i = Some a /\ name a = nm /\
  forall j b, apps !! j = Some b -> (j < i)%nat -> name b <> nm.
Proof. unfold find_app. intros H. now apply list_find_Some in H. Qed.

Lemma find_app_None (nm : string) (apps : list app) :
  find_app nm apps = None -> nm ∉ names apps.
Proof.
  unfold find_app, names. intros H Hin. apply list_find_None in H.
  apply list_elem_of_fmap in Hin as (a & -> & Ha).
  rewrite Forall_forall in H. now apply (H a).
Qed.

Lemma upsert_outcome (cfg : app) (w : World) :
  match find_app (name cfg) (saved_apps w) with
  | Some (i, _) =>
      if answers E (asked w)
      then (upsert E cfg w).1 = Ok (Some i) /\
           saved_apps (upsert E cfg w).2 = <[i := cfg]> (saved_apps w)
      else (upsert E cfg w).1 = Ok None /\
           saved_apps (upsert E cfg w).2 = saved_apps w
  | None =>
      (upsert E cfg w).1 = Ok (Some (length (saved_apps w))) /\
      saved_apps (upsert E cfg w).2 = saved_apps w ++ [cfg]
  end.
Proof.
  unfold upsert, bind, gets. cbn [fst snd].
  destruct (find_app (name cfg) (saved_apps w)) as [[i old]|].
  - unfold askyesno, bind, gets, modify, emit, ret, store_app. cbn.
    destruct (answers E (asked w)); cbn; split; reflexivity.
  - unfold modify, ret. cbn. split; reflexivity.
Qed.

Lemma create_scripts_outcome (i : nat) (cfg : app) (w : World) :
  saved_apps (create_scripts E i cfg w).2 = saved_apps w \/
  exists act lau,
    saved_apps (create_scripts E i cfg w).2
    = <[i := set_scripts act lau cfg]> (saved_apps w).
Proof.
  unfold create_scripts.
  step_keeps keeps_save_apps e u w1 K1; [now left|].
  step_keeps (keeps_create_activation_script cfg) e act w2 K2;
    [left; cbn; congruence|].
  step_keeps (keeps_create_xterm_launcher cfg act) e lau w3 K3;
    [left; cbn; congruence|].
  right. exists act, lau.
  unfold bind at 1. unfold store_app at 1. unfold modify at 1.
  match goal with
  | |- saved_apps (?m ?w0).2 = _ =>
      assert (Hk : keeps m); [|rewrite (Hk w0)]
  end.
  { pose proof keeps_refresh_apps_list. pose proof keeps_log_to_console.
    pose proof keeps_askyesno. pose proof keeps_run_script_file.
    keeps_auto; auto. }
  cbn. congruence.
Qed.

Definition stored_as (cfg cfg' : app) : Prop :=
  cfg' = cfg \/ exists act lau, cfg' = set_scripts act lau cfg.

(** [apps'] is [apps] untouched, or with [cfg] (possibly with its script
    paths recorded) put over the first entry of its name or, if there is
    none, at the end. *)
Definition upserted (apps : list app) (cfg : app) (apps' : list app) : Prop :=
  apps' = apps \/
  exists cfg',
    stored_as cfg cfg' /\
    ((exists i old, find_app (name cfg) apps = Some (i, old) /\
                    apps' = <[i := cfg']> apps) \/
     (find_app (name cfg) apps = None /\ apps' = apps ++ [cfg'])).

(** [a'] is the descriptor [a] with, at most, other bookkeeping fields. *)
Definition same_identity (a a' : app) : Prop :=
  name a' = name a /\ venv a' = venv a /\ script a' = script a /\
  args a' = args a /\ workdir a' = workdir a /\ created a' = created a.

Lemma same_identity_trans (a b c : app) :
  same_identity a b -> same_identity b c -> same_identity a c.
Proof. unfold same_identity. intuition congruence. Qed.

(** The form passes the checks of [save_and_create_script]: the three
    fields are filled in and the two paths exist. *)
Definition accepted (w : World) : bool :=
  let v := vars w in
  negb (is_empty (strip (app_name_var v)))
  && negb (is_empty (strip (venv_path_var v)))
  && negb (is_empty (strip (script_path_var v)))
  && path_exists w (strip (venv_path_var v))
  && path_exists w (strip (script_path_var v)).

(** The registry [apps'] that [save_and_create_script] leaves in [w]. *)
Definition saved_as (w : World) (apps' : list app) : Prop :=
  let apps := saved_apps w in
  let cfg := new_app (vars w) (now E (ticks w)) in
  if accepted w then
    match find_app (name cfg) apps with
    | Some (i, _) =>
        if answers E (asked w)
        then exists cfg', stored_as cfg cfg' /\ apps' = <[i := cfg']> apps
        else apps' = apps
    | None => exists cfg', stored_as cfg cfg' /\ apps' = apps ++ [cfg']
    end
  else apps' = apps.

Lemma save_outcome_exact (w : World) :
  saved_as w (saved_apps (save_and_create_script E w).2).
Proof.
  cut (forall apps', apps' = saved_apps (save_and_create_script E w).2 ->
                     saved_as w apps'); [intros H; now apply H|].
  intros apps'. unfold saved_as. set (apps := saved_apps w).
  set (cfg := new_app (vars w) (now E (ticks w))).
  unfold accepted, save_and_create_script.
  cbn [bind gets exists_].
  destruct (is_empty (strip (app_name_var (vars w)))); [now intros ->|].
  destruct (is_empty (strip (venv_path_var (vars w)))); [now intros ->|].
  destruct (is_empty (strip (script_path_var (vars w)))); [now intros ->|].
  cbn [bind gets exists_ negb andb].
  destruct (path_exists w (strip (venv_path_var (vars w)))); [|now intros ->].
  cbn [bind gets exists_ negb andb].
  destruct (path_exists w (strip (script_path_var (vars w)))); [|now intros ->].
  cbn [negb andb].
  unfold datetime_now at 1. cbn [bind gets modify ret]. fold cfg.
  set (w0 := with_ticks (S (ticks w)) w).
  assert (Hw0 : saved_apps w0 = apps) by reflexivity.
  assert (Hq : asked w0 = asked w) by reflexivity.
  pose proof (upsert_outcome cfg w0) as Hup. rewrite Hw0, Hq in Hup.
  unfold bind at 1.
  destruct (upsert E cfg w0) as [r w1]. cbn [fst snd] in Hup.
  destruct (find_app (name cfg) apps) as [[i old]|] eqn:Hfind.
  - destruct (answers E (asked w)); destruct Hup as [-> Hw1];
      cbv beta iota; intros ->; [|exact Hw1].
    destruct (create_scripts_outcome i cfg w1) as [->|(act & lau & ->)];
      rewrite Hw1.
    + exists cfg. split; [now left | reflexivity].
    + exists (set_scripts act lau cfg). split; [right; eauto|].
      apply list_insert_insert_eq.
  - destruct Hup as [-> Hw1]. cbv beta iota. intros ->.
    destruct (create_scripts_outcome (length apps) cfg w1)
      as [->|(act & lau & ->)]; rewrite Hw1.
    + exists cfg. split; [now left | reflexivity].
    + exists (set_scripts act lau cfg). split; [right; eauto|].
      rewrite insert_app_r_alt by lia. now rewrite Nat.sub_diag.
Qed.

Lemma save_outcome (w : World) :
  upserted (saved_apps w) (new_app (vars w) (now E (ticks w)))
    (saved_apps (save_and_create_script E w).2).
Proof.
  pose proof (save_outcome_exact w) as H. unfold saved_as in H.
  cbv zeta in H. unfold upserted.
  destruct (accepted w); [|now left].
  destruct (find_app _ _) as [[i old]|] eqn:Hfind.
  - destruct (answers E (asked w)); [|now left].
    destruct H as (cfg' & Hs & ->). right. exists cfg'. split; [exact Hs|].
    left. eauto.
  - destruct H as (cfg' & Hs & ->). right. exists cfg'. split; [exact Hs|].
    right. now split.
Qed.

Lemma stored_as_identity (cfg cfg' : app) :
  stored_as cfg cfg' -> same_identity cfg cfg'.
Proof. intros [->|(act & lau & ->)]; repeat split. Qed.

(** ** The registry after a run or a desktop entry *)

(** [apps'] is [apps] with at most one entry's bookkeeping changed. *)
Definition touched (apps apps' : list app) : Prop :=
  apps' = apps \/
  exists i a a',
    apps !! i = Some a /\ same_identity a a' /\ apps' = <[i := a']> apps.

Lemma run_outcome (selection : option string) (w : World) :
  touched (saved_apps w) (saved_apps (run_selected_app E selection w).2).
Proof.
  unfold run_selected_app.
  destruct selection as [nm|]; [|now left].
  unfold bind at 1. unfold gets at 1.
  destruct (find_app nm (saved_apps w)) as [[i a]|] eqn:Hfind; [|now left].
  apply find_app_Some in Hfind as (Hi & _ & _).
  unfold bind at 1. unfold datetime_now at 1.
  unfold bind at 1. unfold gets at 1. unfold bind at 1. unfold modify at 1.
  unfold ret at 1. cbv beta iota.
  set (a1 := set_last_run _ a).
  unfold bind at 1. unfold store_app at 1. unfold modify at 1. cbv beta iota.
  set (w0 := with_saved_apps _ _).
  assert (Hw0 : saved_apps w0 = <[i := a1]> (saved_apps w)) by reflexivity.
  assert (Ha1 : same_identity a a1) by (repeat split).
  assert (Hleft : touched (saved_apps w) (<[i := a1]> (saved_apps w))).
  { right. exists i, a, a1. auto. }
  clearbody w0.
  step_keeps keeps_save_apps e u w1 K1; [cbn; congruence|].
  unfold bind at 1.
  match goal with
  | |- context [match ?m w1 with _ => _ end] =>
      assert (Hm : keeps m) by
        (pose proof keeps_exists; keeps_auto);
      pose proof (Hm w1) as K2; destruct (m w1) as [[ready|e] w2]
  end; cbn [snd] in K2; [|cbn; congruence].
  destruct ready.
  - match goal with
    | |- touched _ (saved_apps (?m w2).2) =>
        assert (Hk : keeps m) by
          (pose proof keeps_run_script_file; pose proof keeps_log_to_console;
           keeps_auto);
        rewrite (Hk w2)
    end. congruence.
  - unfold bind at 1. unfold bind at 1.
    pose proof (keeps_create_activation_script a1 w2) as K3.
    destruct (create_activation_script E a1 w2) as [[act|e] w3];
      cbn [snd] in K3; [|cbn; congruence].
    unfold bind at 1.
    pose proof (keeps_create_xterm_launcher a1 act w3) as K4.
    destruct (create_xterm_launcher E a1 act w3) as [[lau|e] w4];
      cbn [snd] in K4; [|cbn; congruence].
    unfold bind at 1. unfold store_app at 1. unfold modify at 1.
    cbv beta iota.
    match goal with
    | |- touched _ (saved_apps (match ?m ?w5 with _ => _ end).2) =>
        assert (Hk : keeps m) by
          (pose proof keeps_run_script_file; pose proof keeps_save_apps;
           keeps_auto);
        pose proof (Hk w5) as K5; destruct (m w5) as [[[]|e] w6]
    end; cbn [snd saved_apps with_saved_apps] in K5.
    + rewrite (keeps_log_to_console _ _ w6), K5, K4, K3, K2, K1, Hw0.
      rewrite list_insert_insert_eq. right. exists i, a, (set_scripts act lau a1).
      repeat split; assumption.
    + cbn [snd]. rewrite K5, K4, K3, K2, K1, Hw0.
      rewrite list_insert_insert_eq. right. exists i, a, (set_scripts act lau a1).
      repeat split; assumption.
Qed.

(** What a computation can return. *)
Definition returns {A : Type} (P : A -> Prop) (m : M A) : Prop :=
  forall w, match (m w).1 with Ok a => P a | Raise _ => True end.

Lemma returns_ret {A : Type} (P : A -> Prop) (a : A) : P a -> returns P (ret a).
Proof. intros H w. exact H. Qed.

Lemma returns_bind {A B : Type} (P : A -> Prop) (Q : B -> Prop)
  (m : M A) (k : A -> M B) :
  returns P m -> (forall a, P a -> returns Q (k a)) -> returns Q (bind m k).
Proof.
  intros Hm Hk w. unfold bind. specialize (Hm w).
  destruct (m w) as [[a|e] w1]; cbn [fst] in *; [now apply Hk | exact I].
Qed.

Lemma returns_any {A : Type} (m : M A) : returns (fun _ => True) m.
Proof. intros w. now destruct (m w).1. Qed.

Lemma returns_seq {A B : Type} (Q : B -> Prop) (m : M A) (k : A -> M B) :
  (forall a, returns Q (k a)) -> returns Q (bind m k).
Proof. intros Hk. apply (returns_bind (fun _ => True)); auto using returns_any. Qed.

Lemma returns_catch {A : Type} (P : A -> Prop) (m : M A) (h : exn -> M A) :
  returns P m -> (forall e, returns P (h e)) -> returns P (catch m h).
Proof.
  intros Hm Hh w. unfold catch. specialize (Hm w).
  destruct (m w) as [[a|e] w1]; cbn [fst] in *; [assumption | apply Hh].
Qed.

Ltac returns_step :=
  lazymatch goal with
  | |- returns _ (ret _) => apply returns_ret
  | |- returns _ (bind _ _) => apply returns_seq; intros
  | |- returns _ (catch _ _) => apply returns_catch; [|intros]
  | |- returns _ (if ?b then _ else _) => destruct b
  end.

Definition keeps_identity (a : app) (r : app * string) : Prop :=
  same_identity a r.1.

Lemma generated_icon_identity (a : app) (v : form) :
  returns (keeps_identity a) (generated_icon E a v).
Proof.
  unfold generated_icon. repeat returns_step; repeat split.
Qed.

Lemma custom_icon_identity (a : app) (v : form) :
  returns (keeps_identity a) (custom_icon E a v).
Proof.
  unfold custom_icon. repeat returns_step; repeat split.
Qed.

Lemma system_icon_identity (a : app) (v : form) :
  returns (keeps_identity a) (system_icon E a v).
Proof.
  unfold system_icon. repeat returns_step; repeat split.
Qed.

Lemma create_desktop_file_identity (a : app) :
  returns (fun r => same_identity a r.1) (create_desktop_file E a).
Proof.
  unfold create_desktop_file.
  apply returns_seq; intros _. apply returns_seq; intros launcher.
  apply returns_seq; intros v.
  apply (returns_bind (keeps_identity a)).
  - destruct (String.eqb _ _); [apply generated_icon_identity|].
    destruct (String.eqb _ _);
      [apply custom_icon_identity | apply system_icon_identity].
  - intros [a' icon] Ha'. unfold keeps_identity in Ha'. cbn [fst] in Ha'.
    repeat returns_step; cbn [fst]; [|assumption].
    eapply same_identity_trans; [eassumption|]. repeat split.
Qed.

Lemma keeps_create_desktop_file (a : app) : keeps (create_desktop_file E a).
Proof.
  pose proof keeps_makedirs. pose proof keeps_create_activation_script.
  pose proof keeps_write_file. pose proof keeps_chmod.
  pose proof keeps_desktop_log. pose proof keeps_exists.
  unfold create_desktop_file, generated_icon, custom_icon, system_icon,
    get_icon_path.
  keeps_auto.
Qed.

Lemma desktop_outcome (selection : option string) (w : World) :
  touched (saved_apps w)
    (saved_apps (generate_selected_desktop_file E selection w).2).
Proof.
  unfold generate_selected_desktop_file.
  destruct selection as [nm|]; [|now left].
  unfold bind at 1. unfold gets at 1.
  destruct (find_app nm (saved_apps w)) as [[i a]|] eqn:Hfind; [|now left].
  apply find_app_Some in Hfind as (Hi & _ & _).
  unfold bind at 1.
  pose proof (keeps_create_desktop_file a w) as K1.
  pose proof (create_desktop_file_identity a w) as R1.
  destruct (create_desktop_file E a w) as [[[a' r]|e] w1];
    cbn [fst snd] in K1, R1; [|left; exact K1].
  unfold bind at 1. unfold store_app at 1. unfold modify at 1. cbv beta iota.
  match goal with
  | |- touched _ (saved_apps (?m ?w2).2) =>
      assert (Hk : keeps m) by
        (pose proof keeps_save_apps; pose proof keeps_desktop_log;
         unfold showinfo; keeps_auto);
      rewrite (Hk w2)
  end.
  cbn [saved_apps with_saved_apps]. rewrite K1.
  right. exists i, a, a'. auto.
Qed.

(** ** Names and creation times along the registry's history *)

Lemma fmap_insert_same {B : Type} (f : app -> B) (apps : list app) (i : nat)
  (a a' : app) :
  apps !! i = Some a -> f a' = f a -> f <$> <[i := a']> apps = f <$> apps.
Proof.
  intros Hi Hf. rewrite list_fmap_insert, Hf.
  apply list_insert_id. now rewrite list_lookup_fmap, Hi.
Qed.

Lemma touched_names (apps apps' : list app) :
  touched apps apps' -> names apps' = names apps.
Proof.
  intros [->|(i & a & a' & Hi & Hid & ->)]; [reflexivity|].
  apply (fmap_insert_same name _ _ a); [assumption | apply Hid].
Qed.

Lemma touched_created (apps apps' : list app) :
  touched apps apps' -> created <$> apps' = created <$> apps.
Proof.
  intros [->|(i & a & a' & Hi & Hid & ->)]; [reflexivity|].
  apply (fmap_insert_same created _ _ a); [assumption | apply Hid].
Qed.

Lemma stored_as_name (cfg cfg' : app) : stored_as cfg cfg' -> name cfg' = name cfg.
Proof. intros H. apply (stored_as_identity _ _ H). Qed.

Lemma upserted_names (apps apps' : list app) (cfg : app) :
  upserted apps cfg apps' ->
  names apps' = names apps \/
  ((name cfg ∉ names apps) /\ names apps' = names apps ++ [name cfg]).
Proof.
  intros [->|(cfg' & Hs & [(i & old & Hfind & ->)|(Hfind & ->)])]; [now left|..].
  - left. apply find_app_Some in Hfind as (Hi & Hn & _).
    apply (fmap_insert_same name _ _ old); [assumption|].
    now rewrite (stored_as_name _ _ Hs).
  - right. split; [now apply find_app_None|].
    unfold names. now rewrite fmap_app, <- (stored_as_name _ _ Hs).
Qed.

Lemma upserted_others (apps apps' : list app) (cfg : app) (j : nat) (a : app) :
  upserted apps cfg apps' -> apps !! j = Some a -> name a <> name cfg ->
  apps' !! j = Some a.
Proof.
  intros [->|(cfg' & Hs & [(i & old & Hfind & ->)|(Hfind & ->)])] Hj Hne;
    [assumption|..].
  - apply find_app_Some in Hfind as (Hi & Hn & _).
    rewrite list_lookup_insert_ne; [assumption|]. congruence.
  - now apply lookup_app_l_Some.
Qed.

Lemma upserted_NoDup (apps apps' : list app) (cfg : app) :
  upserted apps cfg apps' -> NoDup (names apps) -> NoDup (names apps').
Proof.
  intros H Hnd. destruct (upserted_names _ _ _ H) as [->|[Hnew ->]];
    [assumption|].
  apply NoDup_app. split; [assumption|]. split; [|apply NoDup_singleton].
  intros x Hx Hx'. apply list_elem_of_singleton in Hx'. now subst.
Qed.

(** The worlds the program can be in: it starts with a registry without
    duplicate names (the empty one, when there is no registry file); the
    user and the system change what is outside the registry; the three
    registry operations run. *)
Inductive reachable : World -> Prop :=
| reach_start (w : World) :
    NoDup (names (saved_apps w)) -> reachable w
| reach_outside (w w' : World) :
    reachable w -> saved_apps w' = saved_apps w -> reachable w'
| reach_save (w : World) :
    reachable w -> reachable (save_and_create_script E w).2
| reach_run (w : World) (selection : option string) :
    reachable w -> reachable (run_selected_app E selection w).2
| reach_desktop (w : World) (selection : option string) :
    reachable w -> reachable (generate_selected_desktop_file E selection w).2.

Lemma reachable_NoDup (w : World) :
  reachable w -> NoDup (names (saved_apps w)).
Proof.
  induction 1 as [w H0 | w w' _ IH Heq | w _ IH | w sel _ IH | w sel _ IH].
  - exact H0.
  - now rewrite Heq.
  - eapply upserted_NoDup; [apply save_outcome | exact IH].
  - now rewrite (touched_names _ _ (run_outcome sel w)).
  - now rewrite (touched_names _ _ (desktop_outcome sel w)).
Qed.

(** ** Loading the registry *)

Lemma path_exists_Some (w : World) (p : string) (n : node) :
  fs w !! p = Some n -> path_exists w p = true.
Proof. intros H. unfold path_exists. apply bool_decide_eq_true_2. eauto. Qed.

Lemma path_exists_None (w : World) (p : string) :
  fs w !! p = None -> path_exists w p = false.
Proof.
  intros H. unfold path_exists. apply bool_decide_eq_false_2.
  rewrite H. intros [? ?]. discriminate.
Qed.

(** ** Running a computation step by step *)

Lemma bind_ok {A B : Type} (m : M A) (k : A -> M B) (w w1 : World) (a : A) :
  m w = (Ok a, w1) -> bind m k w = k a w1.
Proof. intros H. unfold bind. now rewrite H. Qed.

Lemma catch_ok {A : Type} (m : M A) (h : exn -> M A) (w w1 : World) (a : A) :
  m w = (Ok a, w1) -> catch m h w = (Ok a, w1).
Proof. intros H. unfold catch. now rewrite H. Qed.

Lemma bind_ret {A B : Type} (a : A) (k : A -> M B) (w : World) :
  bind (ret a) k w = k a w.
Proof. reflexivity. Qed.

Lemma bind_gets {A B : Type} (f : World -> A) (k : A -> M B) (w : World) :
  bind (gets f) k w = k (f w) w.
Proof. reflexivity. Qed.

Lemma bind_modify {B : Type} (f : World -> World) (k : unit -> M B) (w : World) :
  bind (modify f) k w = k tt (f w).
Proof. reflexivity. Qed.

Lemma bind_raise {A B : Type} (e : exn) (k : A -> M B) (w : World) :
  bind (@raise A e) k w = (Raise e, w).
Proof. reflexivity. Qed.

Lemma bind_exists {B : Type} (p : string) (k : bool -> M B) (w : World) :
  bind (exists_ p) k w = k (path_exists w p) w.
Proof. reflexivity. Qed.

Lemma bind_assoc {A B C : Type} (m : M A) (k1 : A -> M B) (k2 : B -> M C)
  (w : World) :
  bind (bind m k1) k2 w = bind m (fun a => bind (k1 a) k2) w.
Proof. unfold bind. now destruct (m w) as [[a|e] w1]. Qed.

(** The world after a line of log. *)
Definition logged (message tag : string) (w : World) : World :=
  with_output_text
    (output_text w ++ [(timestamped (now E (ticks w)) message, tag)])
    (with_ticks (S (ticks w)) w).

Lemma run_log (message tag : string) (w : World) :
  log_to_console E message tag w = (Ok tt, logged message tag w).
Proof. reflexivity. Qed.

Lemma logged_apps (message tag : string) (w : World) :
  saved_apps (logged message tag w) = saved_apps w.
Proof. reflexivity. Qed.

Lemma logged_fs (message tag : string) (w : World) :
  fs (logged message tag w) = fs w.
Proof. reflexivity. Qed.

Lemma logged_events (message tag : string) (w : World) :
  events (logged message tag w) = events w.
Proof. reflexivity. Qed.

Lemma bind_log {B : Type} (message tag : string) (k : unit -> M B) (w : World) :
  bind (log_to_console E message tag) k w = k tt (logged message tag w).
Proof. reflexivity. Qed.

Lemma load_apps_cases (w : World) :
  match fs w !! apps_file E with
  | None => load_apps E w = (Ok tt, w)
  | Some Dir => load_apps E w = (Ok tt, with_saved_apps [] w)
  | Some (File content _) =>
      match json_load E content with
      | None => load_apps E w = (Ok tt, with_saved_apps [] w)
      | Some apps =>
          exists w', load_apps E w = (Ok tt, w') /\
                     saved_apps w' = apps /\ fs w' = fs w
      end
  end.
Proof.
  unfold load_apps, catch. rewrite bind_exists.
  destruct (fs w !! apps_file E) as [[content mode|]|] eqn:Hfile.
  - rewrite (path_exists_Some _ _ _ Hfile).
    unfold read_file. rewrite bind_assoc, bind_gets, Hfile, bind_ret.
    destruct (json_load E content) as [apps|]; [|reflexivity].
    rewrite bind_modify. unfold refresh_apps_list.
    rewrite bind_assoc, bind_gets, bind_log, run_log.
    eexists. split; [reflexivity|]. split; reflexivity.
  - rewrite (path_exists_Some _ _ _ Hfile).
    unfold read_file. rewrite bind_assoc, bind_gets, Hfile, bind_raise.
    reflexivity.
  - rewrite (path_exists_None _ _ Hfile). reflexivity.
Qed.

(** The registry file of [w] cannot be read as a registry. *)
Definition unparsable (w : World) : Prop :=
  fs w !! apps_file E = Some Dir \/
  exists content mode,
    fs w !! apps_file E = Some (File content mode) /\
    json_load E content = None.

Lemma load_apps_total (w : World) : exists w', load_apps E w = (Ok tt, w').
Proof.
  pose proof (load_apps_cases w) as H.
  destruct (fs w !! apps_file E) as [[content mode|]|]; eauto.
  destruct (json_load E content); [|eauto].
  destruct H as (w' & H & _); eauto.
Qed.

Lemma load_apps_fs (w : World) : fs (load_apps E w).2 = fs w.
Proof.
  pose proof (load_apps_cases w) as H.
  destruct (fs w !! apps_file E) as [[content mode|]|];
    [|now rewrite H..].
  destruct (json_load E content); [|now rewrite H].
  destruct H as (w' & -> & _ & Hfs). exact Hfs.
Qed.

(** C8. [load_apps] never raises.  When the registry file is missing it
    leaves the registry as it is, which at start-up is the empty list;
    when the file cannot be read or parsed it empties the registry.  So
    a start-up ([init]) that gets past creating its directories ends
    with an empty registry in both cases. *)
Theorem load_apps_spec :
  (forall w, exists w', load_apps E w = (Ok tt, w')) /\
  (forall w, fs w !! apps_file E = None -> load_apps E w = (Ok tt, w)) /\
  (forall w, unparsable w ->
     load_apps E w = (Ok tt, with_saved_apps [] w)) /\
  (forall w w',
     init E w = (Ok tt, w') ->
     fs w' !! apps_file E = None \/ unparsable w' ->
     saved_apps w' = []).
Proof.
  split; [exact load_apps_total|]. split; [|split].
  - intros w Hnone. pose proof (load_apps_cases w) as H.
    now rewrite Hnone in H.
  - intros w Hbad. pose proof (load_apps_cases w) as H.
    destruct Hbad as [Hdir|(content & mode & Hfile & Hjson)].
    + now rewrite Hdir in H.
    + now rewrite Hfile, Hjson in H.
  - intros w w' Hinit Hbad. unfold init in Hinit.
    unfold bind at 1 in Hinit.
    destruct (makedirs E (config_dir E) w) as [[[]|e] w1]; [|discriminate].
    unfold bind at 1 in Hinit.
    destruct (makedirs E (scripts_dir E) w1) as [[[]|e] w2]; [|discriminate].
    unfold bind at 1 in Hinit. unfold modify at 1 in Hinit.
    set (w3 := with_saved_apps [] w2) in Hinit.
    assert (Hw' : w' = (load_apps E w3).2) by now rewrite Hinit.
    assert (Hfs : fs w' = fs w3) by (rewrite Hw'; apply load_apps_fs).
    pose proof (load_apps_cases w3) as H. rewrite Hw'.
    unfold unparsable in Hbad. rewrite Hfs in Hbad.
    destruct (fs w3 !! apps_file E) as [[content mode|]|];
      [|now rewrite H..].
    destruct (json_load E content) as [apps|] eqn:Hjson; [|now rewrite H].
    exfalso. destruct Hbad as [Hbad|[Hbad|(c & m & Hc & Hj)]];
      try discriminate.
    injection Hc as <- <-. congruence.
Qed.

(** ** Writing artifacts *)

(** The operating system lets the program write [p], and [p] is not a
    directory. *)
Definition writable (w : World) (p : string) : Prop :=
  can_write E p = true /\ fs w !! p <> Some Dir.

Definition mode_at (w : World) (p : string) : option Z :=
  match fs w !! p with
  | Some (File _ mode) => mode
  | _ => None
  end.

(** The world after [p] was written. *)
Definition written (p content : string) (w : World) : World :=
  with_events (events w ++ [Write p content])
    (with_fs (<[p := File content (mode_at w p)]> (fs w)) w).

(** The world after [p] was written and, except on Windows, made
    executable. *)
Definition installed (p content : string) (w : World) : World :=
  if on_windows E then written p content w
  else with_events (events w ++ [Write p content; Chmod p 493])
         (with_fs (<[p := File content (Some 493)]> (fs w)) w).

Definition chmods (p : string) : list event :=
  if on_windows E then [] else [Chmod p 493].

Lemma run_write (p content : string) (w : World) :
  writable w p -> write_file E p content w = (Ok tt, written p content w).
Proof.
  intros [Hcan Hdir]. unfold write_file, written, mode_at.
  rewrite bind_gets.
  destruct (fs w !! p) as [[c0 mode|]|]; [| contradiction |];
    rewrite Hcan; reflexivity.
Qed.

Lemma run_install {B : Type} (p content : string) (k : unit -> M B) (w : World) :
  writable w p ->
  bind (write_file E p content)
    (fun _ => bind (if on_windows E then ret tt else chmod p 493) k) w
  = k tt (installed p content w).
Proof.
  intros Hw. rewrite (bind_ok _ _ _ _ _ (run_write p content w Hw)).
  unfold installed. destruct (on_windows E); [reflexivity|].
  unfold chmod. rewrite bind_assoc, bind_gets.
  unfold written at 1. cbn [fs with_fs with_events].
  rewrite lookup_insert_eq, bind_assoc, bind_modify.
  unfold emit. rewrite bind_modify. f_equal.
  unfold written. cbn [fs with_fs with_events events].
  rewrite insert_insert_eq, <- app_assoc. reflexivity.
Qed.

Lemma installed_apps (p content : string) (w : World) :
  saved_apps (installed p content w) = saved_apps w.
Proof. unfold installed. now destruct (on_windows E). Qed.

Lemma installed_events (p content : string) (w : World) :
  events (installed p content w) = events w ++ Write p content :: chmods p.
Proof. unfold installed, chmods. now destruct (on_windows E). Qed.

Lemma installed_lookup (p content : string) (w : World) (q : string) :
  fs (installed p content w) !! q =
  if decide (p = q)
  then Some (File content (if on_windows E then mode_at w p else Some 493))
  else fs w !! q.
Proof.
  unfold installed, written. destruct (on_windows E);
    cbn [fs with_fs with_events]; apply lookup_insert.
Qed.

Lemma written_lookup (p content : string) (w : World) (q : string) :
  fs (written p content w) !! q =
  if decide (p = q) then Some (File content (mode_at w p)) else fs w !! q.
Proof. unfold written. cbn [fs with_fs with_events]. apply lookup_insert. Qed.

Lemma writable_installed (p content : string) (w : World) (q : string) :
  writable w q -> writable (installed p content w) q.
Proof.
  intros [Hcan Hdir]. split; [assumption|].
  rewrite installed_lookup. now destruct (decide (p = q)).
Qed.

Lemma writable_written (p content : string) (w : World) (q : string) :
  writable w q -> writable (written p content w) q.
Proof.
  intros [Hcan Hdir]. split; [assumption|].
  rewrite written_lookup. now destruct (decide (p = q)).
Qed.

Lemma writable_same_fs (w w' : World) (q : string) :
  fs w' = fs w -> writable w q -> writable w' q.
Proof. unfold writable. now intros ->. Qed.

Lemma run_create_activation_script (a : app) (w : World) :
  writable w (activation_path E (name a)) ->
  create_activation_script E a w
  = (Ok (activation_path E (name a)),
     logged ("Created activation script: " +:+ safe_name (name a) +:+ ".sh")
       "success"
       (installed (activation_path E (name a)) (activation_content E a) w)).
Proof.
  intros Hw. unfold create_activation_script.
  fold (activation_path E (name a)).
  rewrite (run_install _ _ _ w Hw), bind_log. reflexivity.
Qed.

Lemma run_create_xterm_launcher (a : app) (act : string) (w : World) :
  writable w (launcher_path E (name a)) ->
  create_xterm_launcher E a act w
  = (Ok (launcher_path E (name a)),
     logged ("Created launcher: " +:+ "launch_" +:+ safe_name (name a) +:+ ".sh")
       "success"
       (installed (launcher_path E (name a))
          (launcher_content E (name a) act) w)).
Proof.
  intros Hw. unfold create_xterm_launcher.
  fold (launcher_path E (name a)).
  rewrite (run_install _ _ _ w Hw), bind_log. reflexivity.
Qed.

Lemma run_save_apps (w : World) :
  writable w (apps_file E) ->
  save_apps E w
  = (Ok tt, written (apps_file E) (json_dump E (saved_apps w)) w).
Proof.
  intros Hw. unfold save_apps.
  apply catch_ok. rewrite bind_gets. now apply run_write.
Qed.

(** ** Launching *)

Definition primary_command (p : string) : list string * bool * bool :=
  if on_windows E then (["start"; "cmd"; "/K"; p], true, false)
  else (["xterm"; "-title"; "Python App Launcher"; "-geometry"; "100x30";
         "-e"; "bash -i " +:+ quoted p], false, true).

(** What [run_script_file] starts for an existing script: the terminal,
    or else plain [bash], or else nothing. *)
Definition launch_events (p : string) : list event :=
  let '(argv, shell, session) := primary_command p in
  if can_spawn E argv then [Popen argv shell session]
  else if can_spawn E ["bash"; p] then [Popen ["bash"; p] false true]
  else [].

Lemma run_script_file_events (p : string) (w : World) :
  path_exists w p = true ->
  exists w',
    run_script_file E p w = (Ok tt, w') /\
    saved_apps w' = saved_apps w /\
    fs w' = fs w /\
    events w' = events w ++ launch_events p.
Proof.
  intros Hp. unfold run_script_file. rewrite bind_exists, Hp. cbn [negb].
  unfold launch_events, primary_command, catch, popen.
  destruct (on_windows E).
  - destruct (can_spawn E ["start"; "cmd"; "/K"; p]).
    + eexists. split; [reflexivity|]. now repeat split.
    + rewrite bind_raise, bind_log.
      destruct (can_spawn E ["bash"; p]).
      * eexists. split; [reflexivity|]. now repeat split.
      * rewrite bind_raise. eexists. split; [reflexivity|].
        repeat split. cbn. now rewrite app_nil_r.
  - destruct (can_spawn E _).
    + eexists. split; [reflexivity|]. now repeat split.
    + rewrite bind_raise, bind_log.
      destruct (can_spawn E ["bash"; p]).
      * eexists. split; [reflexivity|]. now repeat split.
      * rewrite bind_raise. eexists. split; [reflexivity|].
        repeat split. cbn. now rewrite app_nil_r.
Qed.

(** ** Running a saved application *)

(** The position [i] of [saved_apps] replaced by [a]. *)
Definition stored (i : nat) (a : app) (w : World) : World :=
  with_saved_apps (<[i := a]> (saved_apps w)) w.

(** The world in which [run_selected_app] looks for the launcher: the
    clock was read, [last_run] set, the registry persisted. *)
Definition marked (i : nat) (a : app) (w : World) : World :=
  written (apps_file E)
    (json_dump E
       (<[i := set_last_run (Some (isoformat (now E (ticks w)))) a]>
          (saved_apps w)))
    (stored i (set_last_run (Some (isoformat (now E (ticks w)))) a)
       (with_ticks (S (ticks w)) w)).

(** What [run_selected_app] does once the run is marked. *)
Definition launch_or_regenerate (app_name : string) (i : nat) (a1 : app) : M unit :=
  do ready <- match launcher_script a1 with
              | Some p => exists_ p
              | None => ret false
              end;
  (if ready then run_script_file E (default EmptyString (launcher_script a1))
   else
     do activation_script_ <- create_activation_script E a1;
     do launcher_script_ <- create_xterm_launcher E a1 activation_script_;
     store_app i (set_scripts activation_script_ launcher_script_ a1);;
     save_apps E;;
     run_script_file E launcher_script_);;
  log_to_console E ("✓ Running app: " +:+ app_name) "success".

Lemma run_selected_app_marks (w : World) (app_name : string) (i : nat) (a : app) :
  find_app app_name (saved_apps w) = Some (i, a) ->
  writable w (apps_file E) ->
  run_selected_app E (Some app_name) w
  = launch_or_regenerate app_name i
      (set_last_run (Some (isoformat (now E (ticks w)))) a) (marked i a w).
Proof.
  intros Hfind Hw. unfold run_selected_app.
  rewrite bind_gets, Hfind. unfold datetime_now.
  rewrite bind_assoc, bind_gets, bind_assoc, bind_modify, bind_ret.
  unfold store_app at 1. rewrite bind_modify.
  erewrite bind_ok; cycle 1.
  { apply run_save_apps. eapply writable_same_fs; [|exact Hw]. reflexivity. }
  reflexivity.
Qed.

Lemma marked_apps (i : nat) (a : app) (w : World) :
  saved_apps (marked i a w)
  = <[i := set_last_run (Some (isoformat (now E (ticks w)))) a]> (saved_apps w).
Proof. reflexivity. Qed.

Lemma marked_events (i : nat) (a : app) (w : World) :
  events (marked i a w)
  = events w ++
    [Write (apps_file E)
       (json_dump E
          (<[i := set_last_run (Some (isoformat (now E (ticks w)))) a]>
             (saved_apps w)))].
Proof. reflexivity. Qed.

Lemma marked_lookup (i : nat) (a : app) (w : World) (q : string) :
  fs w !! q = None -> q <> apps_file E -> fs (marked i a w) !! q = None.
Proof.
  intros Hq Hne. unfold marked. rewrite written_lookup.
  destruct (decide (apps_file E = q)); [congruence | exact Hq].
Qed.

Lemma marked_exists (i : nat) (a : app) (w : World) (q : string) :
  is_Some (fs w !! q) -> path_exists (marked i a w) q = true.
Proof.
  intros Hq. unfold path_exists. apply bool_decide_eq_true_2.
  unfold marked. rewrite written_lookup.
  destruct (decide (apps_file E = q)); [eauto | exact Hq].
Qed.

Lemma writable_marked (i : nat) (a : app) (w : World) (q : string) :
  writable w q -> writable (marked i a w) q.
Proof.
  intros H. unfold marked. apply writable_written.
  eapply writable_same_fs; [|exact H]. reflexivity.
Qed.

(** The run of [app_name], entry [a] at position [i], with the recorded
    launcher [p]: the entry gets the clock reading as its [last_run]
    and keeps its other fields ([a1]), the registry is persisted, the
    launcher is started. *)
Definition launches_recorded (w : World) (app_name : string) (i : nat) (a : app)
  (p : string) : Prop :=
  let apps := saved_apps w in
  let a1 :=
    App (name a) (venv a) (script a) (args a) (workdir a) (created a)
        (Some (isoformat (now E (ticks w))))
        (activation_script a) (launcher_script a) (desktop_file a)
        (icon_path a) (icon_type a) (icon_settings_of a) (icon_name a) in
  exists w',
    run_selected_app E (Some app_name) w = (Ok tt, w') /\
    saved_apps w' = <[i := a1]> apps /\
    events w' =
      events w
      ++ [Write (apps_file E) (json_dump E (<[i := a1]> apps))]
      ++ launch_events p.

(** The run of [app_name] when the scripts have to be generated: the
    entry gets its [last_run] ([a1]) and is persisted, both scripts are
    written, their paths are recorded on the entry ([a2]), the registry
    is persisted again, the new launcher is started. *)
Definition regenerates (w : World) (app_name : string) (i : nat) (a : app)
  : Prop :=
  let apps := saved_apps w in
  let act := activation_path E (name a) in
  let lau := launcher_path E (name a) in
  let a1 :=
    App (name a) (venv a) (script a) (args a) (workdir a) (created a)
        (Some (isoformat (now E (ticks w))))
        (activation_script a) (launcher_script a) (desktop_file a)
        (icon_path a) (icon_type a) (icon_settings_of a) (icon_name a) in
  let a2 :=
    App (name a) (venv a) (script a) (args a) (workdir a) (created a)
        (Some (isoformat (now E (ticks w))))
        (Some act) (Some lau) (desktop_file a)
        (icon_path a) (icon_type a) (icon_settings_of a) (icon_name a) in
  exists w',
    run_selected_app E (Some app_name) w = (Ok tt, w') /\
    saved_apps w' = <[i := a2]> apps /\
    events w' =
      events w
      ++ [Write (apps_file E) (json_dump E (<[i := a1]> apps))]
      ++ (Write act (activation_content E a) :: chmods act)
      ++ (Write lau (launcher_content E (name a) act) :: chmods lau)
      ++ [Write (apps_file E) (json_dump E (<[i := a2]> apps))]
      ++ launch_events lau.

(** C10. When a saved app is run from the registry, [last_run] is set to
    the clock reading and the registry is written to its file before
    anything is launched.  With a recorded launcher whose file exists,
    that launcher is then started.  With no recorded launcher, or a
    recorded one whose file is missing, the activation script and the
    launcher script are generated from the stored descriptor, their
    paths are recorded on it, the registry is written again, and only
    then is the new launcher started. *)
Theorem run_selected_app_spec (w : World) (app_name : string) (i : nat) (a : app) :
  find_app app_name (saved_apps w) = Some (i, a) ->
  writable w (apps_file E) ->
  (forall p,
     launcher_script a = Some p -> is_Some (fs w !! p) ->
     launches_recorded w app_name i a p)
  /\
  (launcher_script a = None \/
   (exists p, launcher_script a = Some p /\
              fs w !! p = None /\ p <> apps_file E) ->
   writable w (activation_path E (name a)) ->
   writable w (launcher_path E (name a)) ->
   regenerates w app_name i a).
Proof.
  intros Hfind Hw. unfold launches_recorded, regenerates. cbv zeta.
  change (App (name a) (venv a) (script a) (args a) (workdir a) (created a)
            (Some (isoformat (now E (ticks w))))
            (activation_script a) (launcher_script a) (desktop_file a)
            (icon_path a) (icon_type a) (icon_settings_of a) (icon_name a))
    with (set_last_run (Some (isoformat (now E (ticks w)))) a).
  change (App (name a) (venv a) (script a) (args a) (workdir a) (created a)
            (Some (isoformat (now E (ticks w))))
            (Some (activation_path E (name a)))
            (Some (launcher_path E (name a))) (desktop_file a)
            (icon_path a) (icon_type a) (icon_settings_of a) (icon_name a))
    with (set_scripts (activation_path E (name a)) (launcher_path E (name a))
            (set_last_run (Some (isoformat (now E (ticks w)))) a)).
  set (apps := saved_apps w).
  set (a1 := set_last_run (Some (isoformat (now E (ticks w)))) a).
  set (act := activation_path E (name a)).
  set (lau := launcher_path E (name a)).
  set (a2 := set_scripts act lau a1).
  rewrite (run_selected_app_marks w app_name i a Hfind Hw). fold a1.
  unfold launch_or_regenerate. split.
  - intros p Hp Hthere.
    change (launcher_script a1) with (launcher_script a). rewrite Hp.
    rewrite bind_exists, (marked_exists i a w p Hthere). cbn [default].
    destruct (run_script_file_events p (marked i a w)
                (marked_exists i a w p Hthere))
      as (w1 & Hrun & Happs & _ & Hev).
    rewrite (bind_ok _ _ _ _ _ Hrun), run_log.
    eexists. split; [reflexivity|]. split.
    + cbn [saved_apps logged with_output_text with_ticks]. now rewrite Happs.
    + cbn [events logged with_output_text with_ticks].
      now rewrite Hev, marked_events, <- app_assoc.
  - intros Hmissing Hact Hlau.
    change (launcher_script a1) with (launcher_script a).
    assert (Hnot : forall (k : bool -> M unit),
      bind (match launcher_script a with
            | Some p => exists_ p
            | None => ret false
            end) k (marked i a w) = k false (marked i a w)).
    { intros k. destruct Hmissing as [->|(p & -> & Hnone & Hne)];
        [reflexivity|].
      rewrite bind_exists. unfold path_exists.
      rewrite bool_decide_eq_false_2; [reflexivity|].
      rewrite (marked_lookup i a w p Hnone Hne). intros [? ?]. discriminate. }
    rewrite Hnot. cbv beta iota.
    rewrite !bind_assoc.
    rewrite (bind_ok _ _ _ _ _
               (run_create_activation_script a1 (marked i a w)
                  (writable_marked i a w _ Hact))).
    change (name a1) with (name a).
    change (activation_content E a1) with (activation_content E a).
    fold act.
    set (w1 := logged _ _ (installed act _ _)).
    assert (Hlau1 : writable w1 lau).
    { unfold w1. eapply writable_same_fs; [reflexivity|].
      apply writable_installed, writable_marked, Hlau. }
    rewrite !bind_assoc.
    rewrite (bind_ok _ _ _ _ _ (run_create_xterm_launcher a1 act w1 Hlau1)).
    change (name a1) with (name a). fold lau.
    set (w2 := logged _ _ (installed lau _ _)).
    rewrite !bind_assoc. unfold store_app. rewrite bind_modify.
    set (w3 := with_saved_apps _ w2).
    assert (Happs3 : saved_apps w3 = <[i := a2]> apps).
    { unfold w3, w2, w1. cbn [saved_apps with_saved_apps logged
        with_output_text with_ticks].
      repeat (rewrite logged_apps || rewrite installed_apps).
      rewrite marked_apps. apply list_insert_insert_eq. }
    assert (Hw3 : writable w3 (apps_file E)).
    { unfold w3, w2, w1.
      eapply writable_same_fs; [reflexivity|]. apply writable_installed.
      eapply writable_same_fs; [reflexivity|]. apply writable_installed.
      apply writable_marked, Hw. }
    rewrite !bind_assoc.
    rewrite (bind_ok _ _ _ _ _ (run_save_apps w3 Hw3)), Happs3.
    set (w4 := written _ _ w3).
    assert (Hthere : path_exists w4 lau = true).
    { unfold path_exists. apply bool_decide_eq_true_2.
      unfold w4. rewrite written_lookup.
      destruct (decide (apps_file E = lau)); [eauto|].
      unfold w3, w2. cbn [fs with_saved_apps]. rewrite logged_fs.
      rewrite installed_lookup. rewrite decide_True by reflexivity. eauto. }
    destruct (run_script_file_events lau w4 Hthere)
      as (w5 & Hrun & Happs5 & _ & Hev5).
    rewrite (bind_ok _ _ _ _ _ Hrun), run_log.
    eexists. split; [reflexivity|]. split.
    + cbn [saved_apps logged with_output_text with_ticks].
      now rewrite Happs5.
    + cbn [events logged with_output_text with_ticks]. rewrite Hev5.
      unfold w4, w3, w2, w1.
      cbn [events written with_events with_fs with_saved_apps].
      repeat (rewrite logged_events || rewrite installed_events).
      rewrite marked_events, <- !app_assoc. reflexivity.
Qed.

End Frames.

(** ** The claims on the registry *)

Section Registry.

Variable E : Env.

Lemma find_app_in (nm : string) (apps : list app) :
  nm ∈ names apps -> exists i old, find_app nm apps = Some (i, old).
Proof.
  intros Hin. apply list_elem_of_fmap in Hin as (a & Hnm & Ha).
  destruct (list_find_elem_of (fun a => name a = nm) apps a Ha (eq_sym Hnm))
    as [[i old] H].
  exists i, old. exact H.
Qed.

Lemma find_app_not_in (nm : string) (apps : list app) :
  nm ∉ names apps -> find_app nm apps = None.
Proof.
  intros Hnot. destruct (find_app nm apps) as [[i old]|] eqn:H; [|reflexivity].
  exfalso. apply Hnot. apply find_app_Some in H as (Hi & Hn & _).
  apply list_elem_of_fmap. exists old. split; [now rewrite Hn|].
  eapply list_elem_of_lookup_2; exact Hi.
Qed.

(** The four outcomes of [save_and_create_script] for the registry. *)
Lemma save_cases (w : World) :
  let nm := strip (app_name_var (vars w)) in
  let apps := saved_apps w in
  let apps' := saved_apps (save_and_create_script E w).2 in
  let cfg := new_app (vars w) (now E (ticks w)) in
  (forall i old,
     accepted w = true -> find_app nm apps = Some (i, old) ->
     answers E (asked w) = true ->
     exists cfg', same_identity cfg cfg' /\ apps' = <[i := cfg']> apps) /\
  (accepted w = true -> find_app nm apps = None ->
   exists cfg', same_identity cfg cfg' /\ apps' = apps ++ [cfg']) /\
  (accepted w = false -> apps' = apps) /\
  (forall i old,
     find_app nm apps = Some (i, old) -> answers E (asked w) = false ->
     apps' = apps).
Proof.
  intros nm apps apps' cfg.
  pose proof (save_outcome_exact E w) as Hex. unfold saved_as in Hex.
  cbv zeta in Hex. fold apps apps' cfg in Hex.
  change (name cfg) with nm in Hex.
  repeat split.
  - intros i old Hacc Hfind Hyes. rewrite Hacc, Hfind, Hyes in Hex.
    destruct Hex as (cfg' & Hs & ->). exists cfg'.
    split; [now apply stored_as_identity | reflexivity].
  - intros Hacc Hfind. rewrite Hacc, Hfind in Hex.
    destruct Hex as (cfg' & Hs & ->). exists cfg'.
    split; [now apply stored_as_identity | reflexivity].
  - intros Hacc. now rewrite Hacc in Hex.
  - intros i old Hfind Hno. rewrite Hfind, Hno in Hex.
    now destruct (accepted w).
Qed.

(** C7. Saving a descriptor whose name matches an existing entry puts it
    over that entry, at its position, and appends nothing: the registry
    keeps its length and its list of names.  A descriptor under a new
    name is appended at the end, after the names already there.  A save
    that is refused or declined changes nothing, and a save never moves
    or changes the entries under other names.  Hence in every world
    reached from a registry without duplicate names (such as the empty
    one) by saves, runs and desktop-entry generations no two entries
    share a name, and after a save that goes ahead in such a world the
    saved name is at exactly one position. *)
Theorem upsert_in_place_spec :
  (forall w,
     let nm := strip (app_name_var (vars w)) in
     let apps := saved_apps w in
     let apps' := saved_apps (save_and_create_script E w).2 in
     let cfg := new_app (vars w) (now E (ticks w)) in
     (forall i old,
        accepted w = true -> find_app nm apps = Some (i, old) ->
        answers E (asked w) = true ->
        exists cfg',
          same_identity cfg cfg' /\ apps' = <[i := cfg']> apps /\
          apps' !! i = Some cfg' /\ length apps' = length apps /\
          names apps' = names apps) /\
     (accepted w = true -> nm ∉ names apps ->
      exists cfg',
        same_identity cfg cfg' /\ apps' = apps ++ [cfg'] /\
        names apps' = names apps ++ [nm]) /\
     (accepted w = false -> apps' = apps) /\
     (nm ∈ names apps -> answers E (asked w) = false -> apps' = apps) /\
     (forall j a, apps !! j = Some a -> name a <> nm -> apps' !! j = Some a))
  /\ (forall w, reachable E w -> NoDup (names (saved_apps w)))
  /\ (forall w,
        reachable E w -> accepted w = true ->
        strip (app_name_var (vars w)) ∉ names (saved_apps w) \/
        answers E (asked w) = true ->
        exists i,
          forall j,
            names (saved_apps (save_and_create_script E w).2) !! j
            = Some (strip (app_name_var (vars w))) <-> j = i).
Proof.
  split; [|split; [exact (reachable_NoDup E)|]].
  - intros w nm apps apps' cfg.
    destruct (save_cases w) as (Hover & Hnew & Hrefused & Hdeclined).
    fold nm apps apps' cfg in Hover, Hnew, Hrefused, Hdeclined.
    split; [|split; [|split; [|split]]].
    + intros i old Hacc Hfind Hyes.
      destruct (Hover i old Hacc Hfind Hyes) as (cfg' & Hid & Heq).
      apply find_app_Some in Hfind as (Hi & Hn & _).
      exists cfg'. split; [exact Hid|]. split; [exact Heq|]. rewrite Heq.
      split; [|split].
      * apply list_lookup_insert_eq. eapply lookup_lt_Some; exact Hi.
      * apply length_insert.
      * apply (fmap_insert_same name _ _ old); [exact Hi|].
        rewrite Hn. apply Hid.
    + intros Hacc Hnot.
      destruct (Hnew Hacc (find_app_not_in nm apps Hnot)) as (cfg' & Hid & Heq).
      exists cfg'. split; [exact Hid|]. split; [exact Heq|]. rewrite Heq.
      unfold names. rewrite fmap_app. cbn [fmap list_fmap].
      now rewrite (proj1 Hid).
    + exact Hrefused.
    + intros Hin Hno. destruct (find_app_in nm apps Hin) as (i & old & Hfind).
      exact (Hdeclined i old Hfind Hno).
    + intros j a. apply (upserted_others _ _ _ _ _ (save_outcome E w)).
  - intros w Hreach Hacc Hgo.
    set (nm := strip (app_name_var (vars w))) in *.
    set (apps' := saved_apps (save_and_create_script E w).2).
    assert (Hnd : NoDup (names apps'))
      by (apply (reachable_NoDup E), reach_save, Hreach).
    assert (Hin : exists i, names apps' !! i = Some nm).
    { destruct (save_cases w) as (Hover & Hnew & _ & _).
      fold nm apps' in Hover, Hnew.
      destruct (find_app nm (saved_apps w)) as [[i old]|] eqn:Hfind.
      - destruct Hgo as [Hnot|Hyes].
        + exfalso. apply Hnot. apply find_app_Some in Hfind as (Hi & Hn & _).
          apply list_elem_of_fmap. exists old. split; [now rewrite Hn|].
          eapply list_elem_of_lookup_2; exact Hi.
        + destruct (Hover i old Hacc eq_refl Hyes) as (cfg' & Hid & Heq).
          apply find_app_Some in Hfind as (Hi & _ & _).
          exists i. unfold names. rewrite list_lookup_fmap, Heq.
          rewrite list_lookup_insert_eq by (eapply lookup_lt_Some; exact Hi).
          cbn. f_equal. apply Hid.
      - destruct (Hnew Hacc eq_refl) as (cfg' & Hid & Heq).
        exists (length (saved_apps w)). unfold names.
        rewrite list_lookup_fmap, Heq, lookup_app_r by lia.
        rewrite Nat.sub_diag. cbn. f_equal. apply Hid. }
    destruct Hin as [i Hi]. exists i. intros j. split.
    + intros Hj. eapply NoDup_lookup; eassumption.
    + now intros ->.
Qed.

(** C5, amended.  The creation time of an entry is not changed by
    running it ([run_selected_app]) nor by generating its desktop entry;
    a save leaves the entries under other names as they are, and a save
    that is refused or declined leaves them all; a save under a new
    name appends an entry created at the time of the save; and an
    accepted, confirmed save under an existing name puts at the position
    of the old entry a fresh one, created at the time of that save. *)
Theorem created_spec :
  (forall w selection,
     created <$> saved_apps (run_selected_app E selection w).2
     = created <$> saved_apps w) /\
  (forall w selection,
     created <$> saved_apps (generate_selected_desktop_file E selection w).2
     = created <$> saved_apps w) /\
  (forall w j a,
     saved_apps w !! j = Some a ->
     name a <> strip (app_name_var (vars w)) ->
     saved_apps (save_and_create_script E w).2 !! j = Some a) /\
  (forall w i old,
     accepted w = true ->
     find_app (strip (app_name_var (vars w))) (saved_apps w) = Some (i, old) ->
     answers E (asked w) = true ->
     exists cfg',
       saved_apps (save_and_create_script E w).2
         = <[i := cfg']> (saved_apps w) /\
       saved_apps (save_and_create_script E w).2 !! i = Some cfg' /\
       name cfg' = strip (app_name_var (vars w)) /\
       created cfg' = Some (isoformat (now E (ticks w)))) /\
  (forall w,
     accepted w = true ->
     strip (app_name_var (vars w)) ∉ names (saved_apps w) ->
     exists cfg',
       saved_apps (save_and_create_script E w).2 = saved_apps w ++ [cfg'] /\
       name cfg' = strip (app_name_var (vars w)) /\
       created cfg' = Some (isoformat (now E (ticks w)))) /\
  (forall w,
     accepted w = false \/
     (strip (app_name_var (vars w)) ∈ names (saved_apps w) /\
      answers E (asked w) = false) ->
     saved_apps (save_and_create_script E w).2 = saved_apps w).
Proof.
  split; [|split; [|split; [|split; [|split]]]].
  - intros w sel. apply touched_created, run_outcome.
  - intros w sel. apply touched_created, desktop_outcome.
  - intros w j a. apply (upserted_others _ _ _ _ _ (save_outcome E w)).
  - intros w i old Hacc Hfind Hyes.
    destruct (save_cases w) as (Hover & _).
    destruct (Hover i old Hacc Hfind Hyes)
      as (cfg' & (Hn & _ & _ & _ & _ & Hc) & Heq).
    apply find_app_Some in Hfind as (Hi & _ & _).
    exists cfg'. split; [exact Heq|]. split; [|split; [exact Hn | exact Hc]].
    rewrite Heq. apply list_lookup_insert_eq. eapply lookup_lt_Some; exact Hi.
  - intros w Hacc Hnot.
    destruct (save_cases w) as (_ & Hnew & _).
    destruct (Hnew Hacc (find_app_not_in _ _ Hnot))
      as (cfg' & (Hn & _ & _ & _ & _ & Hc) & Heq).
    exists cfg'. split; [exact Heq|]. split; [exact Hn | exact Hc].
  - intros w [Hacc|[Hin Hno]].
    + now apply (save_cases w).
    + destruct (find_app_in _ _ Hin) as (i & old & Hfind).
      destruct (save_cases w) as (_ & _ & _ & Hdeclined).
      exact (Hdeclined i old Hfind Hno).
Qed.

End Registry.

(** ** The scenario of the specification *)

Definition demo_app : app :=
  App "Demo" "/home/u/.venvs/demo" "/home/u/demo/app.py" (Some "--flag")
      (Some "/home/u/demo") (Some "2024-01-01T09:00:00") None
      None None None None None None None.

Definition other_app : app :=
  App "Other" "/home/u/.venvs/other" "/home/u/other/main.py" (Some EmptyString)
      (Some "/home/u/other") (Some "2023-12-24T18:30:00") None
      None None None None None None None.

(** A Linux host on which everything is allowed, the user always agrees
    and the clock shows noon of 1 June 2024. *)
Definition demo_env : Env :=
  {| system := "Linux";
     home := "/home/u";
     now := fun _ => DateTime "2024-06-01T12:00:00" "12:00:00";
     answers := fun _ => true;
     can_write := fun _ => true;
     can_spawn := fun _ => true;
     describe := fun _ => "error";
     json_dump := fun apps => String.concat "," (name <$> apps);
     json_load := fun _ => None;
     png := fun _ => "PNG" |}.

Definition demo_form : form :=
  Form "Demo" "/home/u/.venvs/demo" "/home/u/demo/app.py" "--flag"
       "/home/u/demo" "system" "#4285F4" "#FFFFFF" false true
       EmptyString "python" "Development" true.

Definition demo_disk : gmap string node :=
  <["/home/u/.venvs/demo" := Dir]>
    (<["/home/u/demo/app.py" := File "print('demo')" None]> ∅).

(** Start-up state, and the state with the registry as reloaded from a
    file written by an earlier session. *)
Definition fresh_world : World :=
  Build_World [] demo_form demo_disk 0 0 [] [] [].

Definition reloaded_world : World :=
  with_saved_apps [other_app; demo_app] fresh_world.

(** ** Lines of a script *)

Fixpoint lines_from (cur s : string) : list string :=
  match s with
  | EmptyString => match cur with EmptyString => [] | _ => [cur] end
  | String c r =>
      if Ascii.eqb c "010" then cur :: lines_from EmptyString r
      else lines_from (cur +:+ String c EmptyString) r
  end.

Definition has_line (l text : string) : bool :=
  existsb (String.eqb l) (lines_from EmptyString text).

Lemma ends_with_slash_app (s t : string) :
  t <> EmptyString -> ends_with_slash (s +:+ t) = ends_with_slash t.
Proof.
  intros Ht. induction s as [|c s IH]; [reflexivity|].
  rewrite append_cons. cbn [ends_with_slash]. rewrite IH.
  destruct (s +:+ t) eqn:Hst; [|reflexivity].
  destruct s; [now rewrite append_nil_l in Hst | discriminate].
Qed.

Lemma join_activate (venv_path : string) :
  venv_path <> EmptyString -> ends_with_slash venv_path = false ->
  join venv_path ["bin"; "activate"] = venv_path +:+ "/bin/activate".
Proof.
  intros Hne Hslash. unfold join. cbn [fold_left].
  assert (H1 : join2 venv_path "bin" = venv_path +:+ "/bin").
  { unfold join2. cbn [starts_with_slash Ascii.eqb].
    destruct venv_path; [contradiction|]. now rewrite Hslash. }
  rewrite H1. unfold join2. cbn [starts_with_slash].
  rewrite ends_with_slash_app by discriminate.
  destruct (venv_path +:+ "/bin") eqn:Hv.
  - destruct venv_path; discriminate.
  - rewrite <- Hv. cbn. now rewrite append_assoc.
Qed.

Lemma not_windows (E : Env) : system E <> "Windows" -> on_windows E = false.
Proof. intros H. unfold on_windows. now apply String.eqb_neq. Qed.

(** ** The claims on generated artifacts *)

(** The text [s] between two double-quote characters (code 34), as it
    stands in a script. *)
Definition in_double_quotes (s : string) : string :=
  String "034" (s +:+ String "034" EmptyString).

(** C6. On a host other than Windows the activation script of any
    descriptor is, line by line: the shebang [#!/bin/bash], the
    announcement of the app name, [cd] into the working directory,
    [source] of the virtual environment's [bin/activate], [python3] on
    the script path between double quotes with the arguments appended
    verbatim, and the prompt that waits before exiting;
    [create_activation_script] writes exactly this text under the
    scripts directory and makes it executable.  For the Demo descriptor
    the script has the two lines of the specification's scenario, double
    quotes included. *)
Theorem activation_script_spec :
  (forall E a,
     system E <> "Windows" ->
     activation_content E a =
     unlines
       [ "#!/bin/bash";
         "echo " +:+ in_double_quotes ("Running " +:+ name a +:+ "...");
         "echo " +:+ in_double_quotes EmptyString;
         EmptyString;
         "# Change to working directory";
         "cd " +:+ in_double_quotes (default (dirname (script a)) (workdir a));
         EmptyString;
         "# Activate virtual environment";
         "echo " +:+ in_double_quotes "Activating virtual environment...";
         "source " +:+ in_double_quotes (join (venv a) ["bin"; "activate"]);
         EmptyString;
         "# Run the Python script";
         "echo "
           +:+ in_double_quotes ("Running script: " +:+ basename (script a));
         "python3 " +:+ in_double_quotes (script a) +:+ " "
           +:+ default EmptyString (args a);
         EmptyString;
         "# Keep terminal open";
         "echo " +:+ in_double_quotes EmptyString;
         "echo " +:+ in_double_quotes "Script execution complete.";
         "read -p " +:+ in_double_quotes "Press Enter to exit..." ])
  /\ (forall venv_path,
        venv_path <> EmptyString -> ends_with_slash venv_path = false ->
        join venv_path ["bin"; "activate"] = venv_path +:+ "/bin/activate")
  /\ (forall E a w,
        system E <> "Windows" ->
        writable E w (activation_path E (name a)) ->
        exists w',
          create_activation_script E a w
            = (Ok (activation_path E (name a)), w') /\
          fs w' !! activation_path E (name a)
            = Some (File (activation_content E a) (Some 493)))
  /\ (has_line
         ("source "
          +:+ String "034"
                ("/home/u/.venvs/demo/bin/activate" +:+ String "034" EmptyString))
         (activation_content demo_env demo_app) = true /\
       has_line
         ("python3 "
          +:+ String "034" ("/home/u/demo/app.py" +:+ String "034" " --flag"))
         (activation_content demo_env demo_app) = true).
Proof.
  split; [|split; [exact join_activate|split]].
  - intros E a Hsys. unfold activation_content.
    rewrite (not_windows E Hsys). unfold posix_activation, quoted, dq.
    unfold in_double_quotes. now rewrite !append_cons, !append_nil_l.
  - intros E a w Hsys Hw. eexists. split.
    + now apply run_create_activation_script.
    + rewrite logged_fs, installed_lookup, decide_True by reflexivity.
      now rewrite (not_windows E Hsys).
  - split; vm_compute; reflexivity.
Qed.

Lemma activation_script_spec_witness :
  system demo_env <> "Windows" /\
  has_line "#!/bin/bash" (activation_content demo_env demo_app) = true /\
  has_line
    ("cd " +:+ String "034" ("/home/u/demo" +:+ String "034" EmptyString))
    (activation_content demo_env demo_app) = true /\
  join "/home/u/.venvs/demo" ["bin"; "activate"]
    = "/home/u/.venvs/demo/bin/activate".
Proof.
  assert (Hsys : system demo_env <> "Windows") by discriminate.
  split; [exact Hsys|]. split; [|split].
  - rewrite (proj1 activation_script_spec demo_env demo_app Hsys).
    vm_compute. reflexivity.
  - rewrite (proj1 activation_script_spec demo_env demo_app Hsys).
    vm_compute. reflexivity.
  - apply (proj1 (proj2 activation_script_spec)); [discriminate | reflexivity].
Defined.

(** The Demo entry as reloaded has no recorded launcher. *)
Definition demo_world : World := with_saved_apps [demo_app] fresh_world.

Definition demo_activation : string := "/home/u/.python_app_launcher/scripts/demo.sh".
Definition demo_launcher : string :=
  "/home/u/.python_app_launcher/scripts/launch_demo.sh".
Definition demo_desktop : string := "/home/u/.local/share/applications/demo.desktop".

(** C1, the code at a descriptor without a recorded launcher script.
    [create_desktop_file] generates the activation script only: no
    launcher script is written, none is recorded on the descriptor, and
    the [Exec] line of the desktop entry runs the activation script. *)
Lemma desktop_entry_without_launcher :
  launcher_script demo_app = None /\
  (create_desktop_file demo_env demo_app demo_world).1
    = Ok (set_desktop_file (Some demo_desktop)
            (set_system_icon "python" demo_app),
          Some demo_desktop) /\
  events (create_desktop_file demo_env demo_app demo_world).2
    = [ Mkdir "/home/u/.local/share/applications";
        Write demo_activation (activation_content demo_env demo_app);
        Chmod demo_activation 493;
        Write demo_desktop
          (desktop_content demo_app (exec_command demo_activation) "python"
             true "Development");
        Chmod demo_desktop 493 ] /\
  fs (create_desktop_file demo_env demo_app demo_world).2 !! demo_launcher = None /\
  has_line ("Exec=bash -i " +:+ sq +:+ demo_activation +:+ sq)
    (desktop_content demo_app (exec_command demo_activation) "python"
       true "Development") = true /\
  launcher_path demo_env "Demo" = demo_launcher /\
  activation_path demo_env "Demo" = demo_activation /\
  desktop_path demo_env "Demo" = demo_desktop.
Proof. repeat split; vm_compute; reflexivity. Qed.

(** ** Instances of the registry claims *)

(** C5, counterexample.  The Demo entry was created on 1 January; saving
    the form again under the name Demo on 1 June leaves one entry named
    Demo, at the same position, whose creation time is now 1 June. *)
Lemma overwrite_resets_created :
  created <$> saved_apps demo_world !! 0%nat
    = Some (Some "2024-01-01T09:00:00") /\
  names (saved_apps (save_and_create_script demo_env demo_world).2)
    = ["Demo"] /\
  created <$> saved_apps (save_and_create_script demo_env demo_world).2 !! 0%nat
    = Some (Some "2024-06-01T12:00:00").
Proof. repeat split; vm_compute; reflexivity. Qed.

Lemma created_spec_witness :
  accepted demo_world = true /\
  find_app (strip (app_name_var (vars demo_world))) (saved_apps demo_world)
    = Some (0%nat, demo_app) /\
  created demo_app = Some "2024-01-01T09:00:00" /\
  exists cfg',
    saved_apps (save_and_create_script demo_env demo_world).2 !! 0%nat
      = Some cfg' /\
    name cfg' = "Demo" /\
    created cfg' = Some "2024-06-01T12:00:00".
Proof.
  assert (Hacc : accepted demo_world = true) by (vm_compute; reflexivity).
  assert (Hfind : find_app (strip (app_name_var (vars demo_world)))
                    (saved_apps demo_world) = Some (0%nat, demo_app))
    by (vm_compute; reflexivity).
  split; [exact Hacc|]. split; [exact Hfind|]. split; [reflexivity|].
  destruct (proj1 (proj2 (proj2 (proj2 (created_spec demo_env))))
              demo_world 0%nat demo_app Hacc Hfind eq_refl)
    as (cfg' & _ & Hi & Hn & Hc).
  exists cfg'. split; [exact Hi|]. split; [exact Hn | exact Hc].
Defined.

Lemma upsert_in_place_spec_witness :
  accepted demo_world = true /\
  find_app (strip (app_name_var (vars demo_world))) (saved_apps demo_world)
    = Some (0%nat, demo_app) /\
  (exists cfg',
     saved_apps (save_and_create_script demo_env demo_world).2
       = <[0%nat := cfg']> (saved_apps demo_world) /\
     length (saved_apps (save_and_create_script demo_env demo_world).2)
       = 1%nat /\
     names (saved_apps (save_and_create_script demo_env demo_world).2)
       = ["Demo"]) /\
  accepted fresh_world = true /\
  (exists cfg',
     saved_apps (save_and_create_script demo_env fresh_world).2 = [cfg'] /\
     names (saved_apps (save_and_create_script demo_env fresh_world).2)
       = ["Demo"]) /\
  NoDup (names (saved_apps (save_and_create_script demo_env fresh_world).2)).
Proof.
  assert (Hacc : accepted demo_world = true) by (vm_compute; reflexivity).
  assert (Hfind : find_app (strip (app_name_var (vars demo_world)))
                    (saved_apps demo_world) = Some (0%nat, demo_app))
    by (vm_compute; reflexivity).
  assert (Hacc0 : accepted fresh_world = true) by (vm_compute; reflexivity).
  split; [exact Hacc|]. split; [exact Hfind|]. split; [|split; [exact Hacc0|split]].
  - destruct (proj1 (proj1 (upsert_in_place_spec demo_env) demo_world)
                0%nat demo_app Hacc Hfind eq_refl)
      as (cfg' & _ & Heq & _ & Hlen & Hnames).
    exists cfg'. split; [exact Heq|]. split; [exact Hlen | exact Hnames].
  - destruct (proj1 (proj2 (proj1 (upsert_in_place_spec demo_env) fresh_world))
                Hacc0)
      as (cfg' & _ & Heq & Hnames).
    { intros Hin. inversion Hin. }
    exists cfg'. split; [exact Heq | exact Hnames].
  - apply (proj1 (proj2 (upsert_in_place_spec demo_env))).
    apply reach_save, reach_start. constructor.
Defined.

Lemma load_apps_spec_witness :
  fs fresh_world !! apps_file demo_env = None /\
  load_apps demo_env fresh_world = (Ok tt, fresh_world).
Proof.
  assert (H : fs fresh_world !! apps_file demo_env = None)
    by (vm_compute; reflexivity).
  split; [exact H | exact (proj1 (proj2 (load_apps_spec demo_env)) _ H)].
Defined.

Lemma run_selected_app_spec_witness :
  find_app "Demo" (saved_apps demo_world) = Some (0%nat, demo_app) /\
  launcher_script demo_app = None /\
  exists w',
    run_selected_app demo_env (Some "Demo") demo_world = (Ok tt, w') /\
    last_run <$> saved_apps w' !! 0%nat = Some (Some "2024-06-01T12:00:00") /\
    activation_script <$> saved_apps w' !! 0%nat
      = Some (Some demo_activation) /\
    launcher_script <$> saved_apps w' !! 0%nat = Some (Some demo_launcher).
Proof.
  assert (Hfind : find_app "Demo" (saved_apps demo_world) = Some (0%nat, demo_app))
    by reflexivity.
  assert (Hw : forall p, fs demo_world !! p = None ->
                         writable demo_env demo_world p).
  { intros p Hp. split; [reflexivity|]. rewrite Hp. discriminate. }
  assert (Hfile : writable demo_env demo_world (apps_file demo_env))
    by (apply Hw; vm_compute; reflexivity).
  split; [exact Hfind|]. split; [reflexivity|].
  destruct (proj2 (run_selected_app_spec demo_env demo_world "Demo" 0 demo_app
                     Hfind Hfile)) as (w' & Hrun & Happs & _).
  - left. reflexivity.
  - apply Hw. vm_compute. reflexivity.
  - apply Hw. vm_compute. reflexivity.
  - exists w'. split; [exact Hrun|]. rewrite Happs.
    repeat split; vm_compute; reflexivity.
Defined.

End LauncherSpec.

(* ================================================================== *)
(** * Further properties of [IconGenerator] *)
(* ================================================================== *)

Module IconGeneratorProps.

Import IconGenerator PyFacts IconGeneratorSpec ShadeSpec.

(** ** Colour codes written by [rgb_to_hex] *)

Lemma length_append (s t : string) :
  String.length (s +:+ t) = (String.length s + String.length t)%nat.
Proof.
  induction s as [|c s IH]; [reflexivity|].
  rewrite append_cons. simpl. now rewrite IH.
Qed.

Lemma nibble_ind (P : Z -> Prop) :
  P 0 -> P 1 -> P 2 -> P 3 -> P 4 -> P 5 -> P 6 -> P 7 -> P 8 -> P 9 ->
  P 10 -> P 11 -> P 12 -> P 13 -> P 14 -> P 15 ->
  forall d, 0 <= d < 16 -> P d.
Proof.
  intros. assert (Hd : d = 0 \/ d = 1 \/ d = 2 \/ d = 3 \/ d = 4 \/ d = 5 \/
    d = 6 \/ d = 7 \/ d = 8 \/ d = 9 \/ d = 10 \/ d = 11 \/ d = 12 \/
    d = 13 \/ d = 14 \/ d = 15) by lia.
  repeat (destruct Hd as [->|Hd]; [assumption|]). now subst.
Qed.

(** A digit written by [hex_char] is read back by [int(_, 16)], is in
    lower case and is not the [#] that [hex_to_rgb] strips. *)
Lemma hex_char_digit (d : Z) :
  0 <= d < 16 ->
  is_hex (hex_char d) = true /\ hex_val (hex_char d) = d /\
  lower_char (hex_char d) = hex_char d.
Proof. revert d. apply nibble_ind; repeat split. Qed.

Lemma format_02x_byte (k : Z) :
  0 <= k <= 255 ->
  format_02x k = two (hex_char (k / 16)) (hex_char (k mod 16)).
Proof. revert k. apply byte_range_ind. intros k Hk. each_byte k. Qed.

(** The six digits of a valid colour. *)
Definition digits_of (c : rgb) : string :=
  two (hex_char (c.1.1 / 16)) (hex_char (c.1.1 mod 16))
  +:+ two (hex_char (c.1.2 / 16)) (hex_char (c.1.2 mod 16))
  +:+ two (hex_char (c.2 / 16)) (hex_char (c.2 mod 16)).

Lemma rgb_to_hex_digits (c : rgb) :
  valid c -> rgb_to_hex c = String "#" (digits_of c).
Proof.
  destruct c as [[r g] b]. intros (Hr & Hg & Hb). cbn [fst snd] in *.
  unfold rgb_to_hex, digits_of. cbn [fst snd].
  now rewrite !format_02x_byte by assumption.
Qed.

Lemma digits_of_hex (c : rgb) :
  valid c ->
  String.length (digits_of c) = 6%nat /\ sall is_hex (digits_of c) = true /\
  lower (digits_of c) = digits_of c.
Proof.
  destruct c as [[r g] b]. intros (Hr & Hg & Hb). cbn [fst snd] in *.
  assert (Hn : forall k, 0 <= k <= 255 -> 0 <= k / 16 < 16 /\ 0 <= k mod 16 < 16).
  { intros k Hk. split; [|apply Z.mod_pos_bound; lia].
    split; [apply Z.div_pos; lia | apply Z.div_lt_upper_bound; lia]. }
  destruct (Hn r Hr) as [Hr1 Hr2]. destruct (Hn g Hg) as [Hg1 Hg2].
  destruct (Hn b Hb) as [Hb1 Hb2].
  destruct (hex_char_digit _ Hr1) as (A1 & _ & L1).
  destruct (hex_char_digit _ Hr2) as (A2 & _ & L2).
  destruct (hex_char_digit _ Hg1) as (A3 & _ & L3).
  destruct (hex_char_digit _ Hg2) as (A4 & _ & L4).
  destruct (hex_char_digit _ Hb1) as (A5 & _ & L5).
  destruct (hex_char_digit _ Hb2) as (A6 & _ & L6).
  unfold digits_of, two. cbn [fst snd].
  rewrite !append_cons, !append_nil_l.
  split; [reflexivity|]. split.
  - cbn [sall]. now rewrite A1, A2, A3, A4, A5, A6.
  - unfold lower. cbn [smap]. now rewrite L1, L2, L3, L4, L5, L6.
Qed.

Lemma channels_of_digits (c : rgb) :
  valid c ->
  (channel 0 (digits_of c), channel 2 (digits_of c), channel 4 (digits_of c)) = c.
Proof.
  destruct c as [[r g] b]. intros (Hr & Hg & Hb). cbn [fst snd] in *.
  assert (Hn : forall k, 0 <= k <= 255 -> 0 <= k / 16 < 16 /\ 0 <= k mod 16 < 16).
  { intros k Hk. split; [|apply Z.mod_pos_bound; lia].
    split; [apply Z.div_pos; lia | apply Z.div_lt_upper_bound; lia]. }
  destruct (Hn r Hr) as [Hr1 Hr2]. destruct (Hn g Hg) as [Hg1 Hg2].
  destruct (Hn b Hb) as [Hb1 Hb2].
  destruct (hex_char_digit _ Hr1) as (_ & V1 & _).
  destruct (hex_char_digit _ Hr2) as (_ & V2 & _).
  destruct (hex_char_digit _ Hg1) as (_ & V3 & _).
  destruct (hex_char_digit _ Hg2) as (_ & V4 & _).
  destruct (hex_char_digit _ Hb1) as (_ & V5 & _).
  destruct (hex_char_digit _ Hb2) as (_ & V6 & _).
  unfold digits_of, two, channel. cbn [fst snd].
  rewrite !append_cons, !append_nil_l. cbn [String.get].
  rewrite V1, V2, V3, V4, V5, V6.
  rewrite <- !Z.div_mod by lia. reflexivity.
Qed.

(** X1. A colour written by [rgb_to_hex] is read back by [hex_to_rgb]:
    for channels between 0 and 255 the two functions are inverse. *)
Theorem rgb_hex_round_trip (c : rgb) :
  valid c -> hex_to_rgb (rgb_to_hex c) = Ok c.
Proof.
  intros Hc. rewrite (rgb_to_hex_digits c Hc), hex_to_rgb_parse3.
  destruct (digits_of_hex c Hc) as (Hlen & Hhex & _).
  rewrite lstrip_with_cons. cbn [Ascii.eqb Bool.eqb].
  rewrite lstrip_hex by (assumption || lia).
  rewrite parse3_hex6 by assumption.
  now rewrite channels_of_digits.
Qed.

Lemma rgb_hex_round_trip_witness :
  valid (66, 133, 244) /\ rgb_to_hex (66, 133, 244) = "#4285f4" /\
  hex_to_rgb (rgb_to_hex (66, 133, 244)) = Ok (66, 133, 244).
Proof.
  assert (H : valid (66, 133, 244)) by (unfold valid; simpl; lia).
  split; [exact H|]. split; [reflexivity | exact (rgb_hex_round_trip _ H)].
Defined.


Lemma length_zeros (n : nat) : String.length (zeros n) = n.
Proof. induction n as [|n IH]; [reflexivity|]. simpl. now rewrite IH. Qed.

Lemma format_02x_length (v : Z) : (2 <= String.length (format_02x v))%nat.
Proof.
  unfold format_02x. rewrite !length_append, length_zeros. lia.
Qed.

(** X2. [rgb_to_hex] never writes fewer than seven characters, and for
    channels between 0 and 255 it writes exactly [#] and six lower-case
    hexadecimal digits. *)
Theorem rgb_to_hex_shape :
  (forall c, (7 <= String.length (rgb_to_hex c))%nat /\
             String.get 0 (rgb_to_hex c) = Some "#"%char) /\
  (forall c, valid c ->
     String.length (rgb_to_hex c) = 7%nat /\
     is_hex6 (rgb_to_hex c) = true /\
     lower (rgb_to_hex c) = rgb_to_hex c).
Proof.
  split.
  - intros [[r g] b]. unfold rgb_to_hex. split; [|reflexivity].
    rewrite append_cons, append_nil_l. cbn [String.length].
    rewrite !length_append.
    pose proof (format_02x_length r). pose proof (format_02x_length g).
    pose proof (format_02x_length b). lia.
  - intros c Hc. rewrite (rgb_to_hex_digits c Hc).
    destruct (digits_of_hex c Hc) as (Hlen & Hhex & Hlow).
    split; [cbn [String.length]; now rewrite Hlen|]. split.
    + unfold is_hex6, hex_body. cbn [Ascii.eqb Bool.eqb].
      rewrite Hlen, Hhex. reflexivity.
    + unfold lower in *. cbn [smap]. now rewrite Hlow.
Qed.

Lemma rgb_to_hex_shape_witness :
  valid (251, 188, 5) /\ rgb_to_hex (251, 188, 5) = "#fbbc05" /\
  is_hex6 (rgb_to_hex (251, 188, 5)) = true.
Proof.
  assert (H : valid (251, 188, 5)) by (unfold valid; simpl; lia).
  split; [exact H|]. split; [reflexivity|].
  exact (proj1 (proj2 (proj2 rgb_to_hex_shape _ H))).
Defined.

(** ** Colour codes read by [hex_to_rgb] *)

Definition nibble (c : ascii) : bool := (0 <=? hex_val c) && (hex_val c <=? 15).

Lemma hex_val_nibble (c : ascii) : 0 <= hex_val c <= 15.
Proof.
  assert (H : nibble c = true) by (apply all_ascii_spec; vm_compute; reflexivity).
  unfold nibble in H. apply andb_prop in H as [H1 H2]. lia.
Qed.

Lemma channel_byte (i : nat) (b : string) : 0 <= channel i b <= 255.
Proof.
  unfold channel. destruct (String.get i b) as [c1|]; [|lia].
  destruct (String.get (S i) b) as [c2|]; [|lia].
  pose proof (hex_val_nibble c1). pose proof (hex_val_nibble c2). lia.
Qed.

(** X3. For an optional [#] and six hexadecimal digits [hex_to_rgb]
    returns a colour whose three channels lie between 0 and 255. *)
Theorem hex_to_rgb_valid (s : string) :
  is_hex6 s = true -> exists c, hex_to_rgb s = Ok c /\ valid c.
Proof.
  intros H. rewrite hex_to_rgb_parse3, (lstrip_hex_body s H).
  unfold is_hex6 in H. apply andb_prop in H as [Hlen Hhex].
  apply Nat.eqb_eq in Hlen. rewrite parse3_hex6 by assumption.
  eexists. split; [reflexivity|].
  unfold valid. cbn [fst snd]. auto using channel_byte.
Qed.

Lemma hex_to_rgb_valid_witness :
  is_hex6 "#FBBC05" = true /\
  exists c, hex_to_rgb "#FBBC05" = Ok c /\ valid c.
Proof.
  split; [reflexivity | exact (hex_to_rgb_valid "#FBBC05" eq_refl)].
Defined.

(** ** Renaming the characters of a string *)

Lemma length_smap (f : ascii -> ascii) (s : string) :
  String.length (smap f s) = String.length s.
Proof. induction s as [|c s IH]; [reflexivity|]. simpl. now rewrite IH. Qed.

Lemma smap_append (f : ascii -> ascii) (s t : string) :
  smap f (s +:+ t) = smap f s +:+ smap f t.
Proof.
  induction s as [|c s IH]; [reflexivity|].
  rewrite append_cons. cbn [smap]. now rewrite IH, append_cons.
Qed.

Lemma substring_smap (f : ascii -> ascii) (n m : nat) (s : string) :
  substring n m (smap f s) = smap f (substring n m s).
Proof.
  revert n m. induction s as [|c s IH]; intros [|n] [|m]; cbn; try reflexivity.
  - now rewrite IH.
  - apply IH.
  - apply IH.
Qed.

Lemma lstrip_smap (f : ascii -> ascii) (p : ascii -> bool) (s : string) :
  (forall c, p (f c) = p c) ->
  lstrip_with p (smap f s) = smap f (lstrip_with p s).
Proof.
  intros Hp. induction s as [|c s IH]; [reflexivity|].
  cbn [smap]. rewrite !lstrip_with_cons, Hp. now destruct (p c).
Qed.

Lemma sall_smap (f : ascii -> ascii) (p : ascii -> bool) (s : string) :
  (forall c, p (f c) = p c) -> sall p (smap f s) = sall p s.
Proof.
  intros Hp. induction s as [|c s IH]; [reflexivity|].
  cbn [smap sall]. now rewrite Hp, IH.
Qed.

(** ** Letter case *)

Section CharMap.

(** A renaming of characters that [int(_, 16)] and [lstrip('#')] cannot
    see: it keeps the digits' values and the blanks, and fixes the signs,
    the underscore, the zero, the [#] and the pair [x], [X]. *)
Variable f : ascii -> ascii.

Definition unseen_at (c : ascii) : bool :=
  Bool.eqb (Ascii.eqb "#" (f c)) (Ascii.eqb "#" c)
  && Bool.eqb (int_isspace (f c)) (int_isspace c)
  && Bool.eqb (Ascii.eqb (f c) "+") (Ascii.eqb c "+")
  && Bool.eqb (Ascii.eqb (f c) "-") (Ascii.eqb c "-")
  && Bool.eqb (Ascii.eqb (f c) "_") (Ascii.eqb c "_")
  && Bool.eqb (Ascii.eqb (f c) "0") (Ascii.eqb c "0")
  && Bool.eqb (Ascii.eqb (f c) "x" || Ascii.eqb (f c) "X")
       (Ascii.eqb c "x" || Ascii.eqb c "X")
  && match hex_digit (f c), hex_digit c with
     | Some d, Some d' => d =? d'
     | None, None => true
     | _, _ => false
     end.

Hypothesis unseen : all_ascii unseen_at = true.

Lemma unseen_facts (c : ascii) :
  Ascii.eqb "#" (f c) = Ascii.eqb "#" c /\
  int_isspace (f c) = int_isspace c /\
  Ascii.eqb (f c) "+" = Ascii.eqb c "+" /\
  Ascii.eqb (f c) "-" = Ascii.eqb c "-" /\
  Ascii.eqb (f c) "_" = Ascii.eqb c "_" /\
  Ascii.eqb (f c) "0" = Ascii.eqb c "0" /\
  (Ascii.eqb (f c) "x" || Ascii.eqb (f c) "X")
    = (Ascii.eqb c "x" || Ascii.eqb c "X") /\
  hex_digit (f c) = hex_digit c.
Proof.
  pose proof (all_ascii_spec _ unseen c) as H. unfold unseen_at in H.
  repeat (apply andb_prop in H as [H ?]).
  repeat match goal with
         | K : Bool.eqb _ _ = true |- _ => apply Bool.eqb_prop in K
         end.
  repeat split; try assumption.
  destruct (hex_digit (f c)) as [d|], (hex_digit c) as [d'|];
    try discriminate; [|reflexivity].
  f_equal. now apply Z.eqb_eq.
Qed.

Lemma digits16_smap (acc : Z) (seen prev_us : bool) (s : string) :
  digits16 acc seen prev_us (smap f s)
  = (fun r => (r.1, smap f r.2)) <$> digits16 acc seen prev_us s.
Proof.
  revert acc seen prev_us. induction s as [|c s IH]; intros acc seen prev_us.
  - cbn. now destruct prev_us.
  - destruct (unseen_facts c) as (_ & _ & _ & _ & Hu & _ & _ & Hd).
    cbn [smap digits16]. rewrite Hd, Hu.
    destruct (hex_digit c) as [d|]; [apply IH|].
    destruct (Ascii.eqb c "_"); [destruct prev_us; [reflexivity | apply IH]|].
    now destruct prev_us.
Qed.

Lemma skip_sign_smap (s : string) :
  skip_sign (smap f s) = ((skip_sign s).1, smap f (skip_sign s).2).
Proof.
  destruct s as [|c s]; [reflexivity|].
  destruct (unseen_facts c) as (_ & _ & Hp & Hm & _).
  cbn [smap skip_sign]. rewrite Hp, Hm.
  destruct (Ascii.eqb c "+"); [reflexivity|]. now destruct (Ascii.eqb c "-").
Qed.

Lemma skip_0x_smap (s : string) : skip_0x (smap f s) = smap f (skip_0x s).
Proof.
  destruct s as [|c0 [|c1 r]]; try reflexivity.
  destruct (unseen_facts c0) as (_ & _ & _ & _ & _ & H0 & _).
  destruct (unseen_facts c1) as (_ & _ & _ & _ & _ & _ & Hx & _).
  cbn [smap skip_0x]. rewrite H0, Hx.
  destruct (Ascii.eqb c0 "0" && _); [|reflexivity].
  destruct r as [|c2 r]; [reflexivity|].
  destruct (unseen_facts c2) as (_ & _ & _ & _ & Hu & _).
  cbn [smap]. rewrite Hu. now destruct (Ascii.eqb c2 "_").
Qed.

Lemma int16_smap (s : string) : int16 (smap f s) = int16 s.
Proof.
  unfold int16.
  rewrite lstrip_smap by (intros c; apply (unseen_facts c)).
  rewrite skip_sign_smap.
  destruct (skip_sign (lstrip_with int_isspace s)) as [neg s2]. cbn [fst snd].
  rewrite skip_0x_smap.
  assert (Hus : starts_with_underscore (smap f (skip_0x s2))
                = starts_with_underscore (skip_0x s2)).
  { destruct (skip_0x s2) as [|c r]; [reflexivity|]. cbn.
    apply (unseen_facts c). }
  rewrite Hus. clear Hus.
  destruct (starts_with_underscore (skip_0x s2)); [reflexivity|].
  rewrite digits16_smap.
  destruct (digits16 0 false false (skip_0x s2)) as [[[v seen] rest]|];
    [|reflexivity].
  cbn. destruct seen; [|reflexivity].
  now rewrite sall_smap by (intros c; apply (unseen_facts c)).
Qed.

Lemma hex_to_rgb_smap (s : string) : hex_to_rgb (smap f s) = hex_to_rgb s.
Proof.
  rewrite !hex_to_rgb_parse3.
  rewrite lstrip_smap by (intros c; apply (unseen_facts c)).
  unfold parse3, slice. now rewrite !substring_smap, !int16_smap.
Qed.

End CharMap.

(** X4. ASCII colour codes are read without regard to letter case: a
    code made of ASCII characters and its upper-case and lower-case
    forms give the same colour, or fail alike. *)
Theorem hex_to_rgb_ignores_case (s : string) :
  ascii_text s = true ->
  hex_to_rgb (upper s) = hex_to_rgb s /\ hex_to_rgb (lower s) = hex_to_rgb s.
Proof.
  intros _. split; apply hex_to_rgb_smap; vm_compute; reflexivity.
Qed.

Lemma hex_to_rgb_ignores_case_witness :
  ascii_text "#AbCdEf" = true /\
  hex_to_rgb (upper "#AbCdEf") = hex_to_rgb "#AbCdEf" /\
  hex_to_rgb (lower "#AbCdEf") = hex_to_rgb "#AbCdEf".
Proof.
  split; [reflexivity | exact (hex_to_rgb_ignores_case "#AbCdEf" eq_refl)].
Defined.


(** ** Initials *)

Lemma sall_append (p : ascii -> bool) (s t : string) :
  sall p (s +:+ t) = sall p s && sall p t.
Proof.
  induction s as [|c s IH]; [reflexivity|].
  rewrite append_cons. cbn [sall]. now rewrite IH, andb_assoc.
Qed.

Lemma split_go_words_nonblank (s cur : string) :
  sall nonblank cur = true ->
  Forall (fun w => sall nonblank w = true) (split_go cur s).
Proof.
  revert cur. induction s as [|c s IH]; intros cur Hcur; simpl.
  - destruct cur; repeat constructor. exact Hcur.
  - destruct (isspace c) eqn:Hc.
    + destruct cur; [now apply IH|]. constructor; [exact Hcur | now apply IH].
    + apply IH. rewrite sall_append, Hcur. cbn. unfold nonblank.
      now rewrite Hc.
Qed.

Lemma length_upper (s : string) : String.length (upper s) = String.length s.
Proof. apply length_smap. Qed.

Definition upper_char_ok (c : ascii) : bool :=
  Bool.eqb (isspace (upper_char c)) (isspace c)
  && Ascii.eqb (upper_char (upper_char c)) (upper_char c)
  && Ascii.eqb (upper_char (lower_char c)) (upper_char c)
  && Bool.eqb (isspace (lower_char c)) (isspace c).

Lemma upper_char_facts (c : ascii) :
  isspace (upper_char c) = isspace c /\
  upper_char (upper_char c) = upper_char c /\
  upper_char (lower_char c) = upper_char c /\
  isspace (lower_char c) = isspace c.
Proof.
  assert (H : upper_char_ok c = true)
    by (apply all_ascii_spec; vm_compute; reflexivity).
  unfold upper_char_ok in H. repeat (apply andb_prop in H as [H ?]).
  repeat split; try (now apply Bool.eqb_prop); now apply Ascii.eqb_eq.
Qed.

Lemma upper_nonblank (s : string) :
  sall nonblank (upper s) = sall nonblank s.
Proof.
  induction s as [|c s IH]; [reflexivity|].
  unfold upper in *. cbn [smap sall]. rewrite IH. unfold nonblank.
  now rewrite (proj1 (upper_char_facts c)).
Qed.

Lemma upper_upper (s : string) : upper (upper s) = upper s.
Proof.
  induction s as [|c s IH]; [reflexivity|].
  unfold upper in *. cbn [smap]. rewrite IH.
  now rewrite (proj1 (proj2 (upper_char_facts c))).
Qed.

(** A label that fits the icon: one or two characters, none of them a
    blank, unchanged by [upper]. *)
Definition is_label (s : string) : Prop :=
  (1 <= String.length s <= 2)%nat /\ sall nonblank s = true /\ upper s = s.

Lemma initials_of_label (ws : list string) :
  Forall (fun w => w <> EmptyString) ws ->
  Forall (fun w => sall nonblank w = true) ws ->
  is_label (initials_of ws).
Proof.
  intros Hne Hnb. unfold is_label.
  destruct ws as [|w0 [|w1 ws]].
  - repeat split; cbn; lia.
  - inversion Hne as [|? ? H0 _]; subst. inversion Hnb as [|? ? B0 _]; subst.
    unfold initials_of. rewrite length_upper, upper_nonblank, upper_upper.
    destruct w0 as [|c [|c' w]]; [contradiction|..]; cbn in B0 |- *.
    + repeat split; (lia || assumption).
    + rewrite substring_zero. cbn.
      apply andb_prop in B0 as [B0 B1]. apply andb_prop in B1 as [B1 _].
      rewrite B0, B1. repeat split; lia.
  - inversion Hne as [|? ? H0 Hne']; subst.
    inversion Hne' as [|? ? H1 _]; subst.
    inversion Hnb as [|? ? B0 Hnb']; subst.
    inversion Hnb' as [|? ? B1 _]; subst.
    unfold initials_of. rewrite length_upper, upper_nonblank, upper_upper.
    destruct w0 as [|c0 w0]; [contradiction|].
    destruct w1 as [|c1 w1]; [contradiction|].
    cbn in B0, B1. apply andb_prop in B0 as [B0 _].
    apply andb_prop in B1 as [B1 _].
    cbn [slice substring]. rewrite !substring_zero.
    rewrite append_cons, append_nil_l. cbn.
    rewrite B0, B1. repeat split; lia.
Qed.

(** X5. [get_initials] returns for every ASCII text a label of one or
    two characters that contains no blank and no lower-case letter. *)
Theorem get_initials_label (text : string) :
  ascii_text text = true ->
  exists s, get_initials text = Ok s /\ is_label s.
Proof.
  intros _. rewrite get_initials_words. eexists. split; [reflexivity|].
  apply initials_of_label.
  - apply split_go_words_nonempty.
  - now apply split_go_words_nonblank.
Qed.

Section Renaming.

(** A renaming of characters that keeps blanks blank and is undone by
    [upper]. *)
Variable f : ascii -> ascii.
Hypothesis f_space : forall c, isspace (f c) = isspace c.
Hypothesis f_upper : forall c, upper_char (f c) = upper_char c.

Lemma split_go_smap (cur s : string) :
  split_go (smap f cur) (smap f s) = smap f <$> split_go cur s.
Proof.
  revert cur. induction s as [|c s IH]; intros cur.
  - cbn. now destruct cur.
  - cbn [smap]. rewrite !split_go_cons, f_space.
    destruct (isspace c).
    + destruct cur; cbn [smap]; [apply (IH EmptyString)|].
      rewrite fmap_cons. f_equal. apply (IH EmptyString).
    + rewrite <- IH, smap_append. reflexivity.
Qed.

Lemma upper_smap (s : string) : upper (smap f s) = upper s.
Proof.
  induction s as [|c s IH]; [reflexivity|].
  unfold upper in *. cbn [smap]. now rewrite IH, f_upper.
Qed.

Lemma initials_of_smap (ws : list string) :
  initials_of (smap f <$> ws) = initials_of ws.
Proof.
  destruct ws as [|w0 [|w1 ws]]; [reflexivity|..]; cbn [fmap list_fmap initials_of].
  - unfold slice. now rewrite substring_smap, upper_smap.
  - unfold slice. now rewrite !substring_smap, <- smap_append, upper_smap.
Qed.

Lemma get_initials_smap (text : string) :
  get_initials (smap f text) = get_initials text.
Proof.
  rewrite !get_initials_words. unfold split.
  change EmptyString with (smap f EmptyString) at 1.
  now rewrite split_go_smap, initials_of_smap.
Qed.

End Renaming.

(** X6. The initials of an ASCII name do not depend on its letter
    case. *)
Theorem get_initials_ignores_case (text : string) :
  ascii_text text = true ->
  get_initials (upper text) = get_initials text /\
  get_initials (lower text) = get_initials text.
Proof.
  intros _. split; apply get_initials_smap; intros c; apply upper_char_facts.
Qed.

Lemma get_initials_label_witness :
  ascii_text "my app" = true /\
  exists s, get_initials "my app" = Ok s /\ is_label s.
Proof.
  split; [reflexivity | exact (get_initials_label "my app" eq_refl)].
Defined.

Lemma get_initials_ignores_case_witness :
  ascii_text "My app" = true /\
  get_initials (upper "My app") = get_initials "My app" /\
  get_initials (lower "My app") = get_initials "My app".
Proof.
  split; [reflexivity | exact (get_initials_ignores_case "My app" eq_refl)].
Defined.


(** ** The font *)

Local Open Scope list_scope.

Lemma head_filter_Some {A : Type} (P : A -> Prop) `{forall x, Decision (P x)}
  (l : list A) (p : A) :
  head (filter P l) = Some p ->
  P p /\ exists i, l !! i = Some p /\
                   forall j q, (j < i)%nat -> l !! j = Some q -> ~ P q.
Proof.
  induction l as [|x l IH]; [discriminate|].
  rewrite filter_cons. destruct (decide (P x)) as [Hx|Hx].
  - intros [= <-]. split; [assumption|]. exists 0%nat.
    split; [reflexivity|]. intros j q Hj. lia.
  - intros Hp. destruct (IH Hp) as (HP & i & Hi & Hbefore).
    split; [assumption|]. exists (S i). split; [exact Hi|].
    intros [|j] q Hj Hq; [injection Hq as <-; exact Hx|].
    apply (Hbefore j); [lia | exact Hq].
Qed.

Lemma head_filter_None {A : Type} (P : A -> Prop) `{forall x, Decision (P x)}
  (l : list A) :
  head (filter P l) = None -> forall x, x ∈ l -> ~ P x.
Proof.
  intros Hnone x Hx HP.
  assert (Hin : x ∈ filter P l) by (apply list_elem_of_filter; auto).
  destruct (filter P l); [inversion Hin | discriminate].
Qed.

Definition font_names (bold : bool) : list string :=
  if bold then bold_fonts else regular_fonts.

(** X7. [_get_font_path] returns the first candidate font that exists,
    and the first candidate of the list when none exists, so it always
    returns one of the candidates. *)
Theorem get_font_path_first (exists_ : string -> bool) (bold : bool) :
  _get_font_path exists_ bold ∈ font_names bold /\
  ((exists p, p ∈ font_names bold /\ exists_ p = true) ->
   exists_ (_get_font_path exists_ bold) = true /\
   exists i, font_names bold !! i = Some (_get_font_path exists_ bold) /\
             forall j q, (j < i)%nat -> font_names bold !! j = Some q ->
                         exists_ q = false) /\
  ((forall p, p ∈ font_names bold -> exists_ p = false) ->
   head (font_names bold) = Some (_get_font_path exists_ bold)).
Proof.
  unfold _get_font_path. fold (font_names bold).
  destruct (filter (fun p => exists_ p = true) (font_names bold))
    as [|p l] eqn:Hf.
  - assert (Hnone : forall x, x ∈ font_names bold -> exists_ x <> true).
    { apply (head_filter_None (fun p => exists_ p = true)). now rewrite Hf. }
    split; [destruct bold; cbn; apply list_elem_of_here|]. split.
    + intros (p & Hp & Hex). now destruct (Hnone p Hp).
    + intros _. now destruct bold.
  - destruct (head_filter_Some (fun p => exists_ p = true) (font_names bold) p)
      as (Hp & i & Hi & Hbefore); [now rewrite Hf|].
    split; [eapply list_elem_of_lookup_2; exact Hi|]. split.
    + intros _. split; [exact Hp|]. exists i. split; [exact Hi|].
      intros j q Hj Hq. specialize (Hbefore j q Hj Hq).
      now destruct (exists_ q).
    + intros Hnone. rewrite (Hnone p) in Hp; [discriminate|].
      eapply list_elem_of_lookup_2; exact Hi.
Qed.

(** A machine with the Helvetica of macOS only. *)
Definition mac_fonts (p : string) : bool :=
  String.eqb p "/System/Library/Fonts/Helvetica.ttc".

Lemma get_font_path_first_witness :
  (exists p, p ∈ font_names false /\ mac_fonts p = true) /\
  _get_font_path mac_fonts false = "/System/Library/Fonts/Helvetica.ttc" /\
  mac_fonts (_get_font_path mac_fonts false) = true.
Proof.
  assert (H : exists p, p ∈ font_names false /\ mac_fonts p = true).
  { exists "/System/Library/Fonts/Helvetica.ttc". split; [|reflexivity].
    do 2 apply list_elem_of_further. apply list_elem_of_here. }
  split; [exact H|]. split; [reflexivity|].
  exact (proj1 (proj1 (proj2 (get_font_path_first mac_fonts false)) H)).
Defined.

(** ** Shades of grey *)

Local Open Scope Z_scope.

Definition unit_of (k : Z) : float :=
  PrimFloat.div (float_of_int k) (float_of_int 255).

Lemma grey_to_hsv (k : Z) :
  0 <= k <= 255 -> to_hsv (k, k, k) = Ok (0%float, 0%float, unit_of k).
Proof. revert k. apply byte_range_ind. intros k Hk. each_byte k. Qed.

(** A grey moved along V: the three channels are the same integer. *)
Definition grey_at (v : float) : result rgb :=
  try! x <- int_of_float (PrimFloat.mul v 255%float); Ok (x, x, x).

Lemma shade_grey (move : float -> float) (k : Z) :
  0 <= k <= 255 ->
  shade int_of_float move (k, k, k) = grey_at (move (unit_of k)).
Proof.
  intros Hk. unfold shade, grey_at. rewrite (grey_to_hsv k Hk). cbn [rbind].
  change (Colorsys.hsv_to_rgb 0 0 (move (unit_of k)))
    with (@Ok (float * float * float)
            (move (unit_of k), move (unit_of k), move (unit_of k))).
  cbn [rbind]. now destruct (int_of_float _).
Qed.

Definition darker_grey (factor : float) (k : Z) : bool :=
  match darken_color (k, k, k) factor with
  | Ok (r, g, b) => (r =? g) && (g =? b) && (0 <=? r) && (r <=? k)
  | Raise _ => false
  end.

Definition lighter_grey (factor : float) (k : Z) : bool :=
  match lighten_color (k, k, k) factor with
  | Ok (r, g, b) => (r =? g) && (g =? b) && (k <=? r) && (r <=? 255)
  | Raise _ => false
  end.

Lemma darker_grey_checked (k : Z) :
  0 <= k <= 255 ->
  darker_grey 0.15%float k = true /\ darker_grey 0.1%float k = true /\
  darker_grey 0.2%float k = true /\ lighter_grey 0.2%float k = true.
Proof.
  revert k. apply byte_range_ind. intros k Hk.
  do 256 (destruct k as [|k]; [repeat split; vm_compute; reflexivity|]).
  exfalso; lia.
Qed.


Lemma shades_as_shade (c : rgb) (factor : float) :
  darken_color c factor = shade int_of_float (lower_value factor) c /\
  lighten_color c factor = shade int_of_float (raise_value factor) c.
Proof.
  unfold lighten_color, darken_color, shade, raise_value, lower_value.
  split; destruct (to_hsv c) as [[[h s] v]|e]; reflexivity.
Qed.

(** X8. Shading a grey gives a grey.  For [(k, k, k)] with [k] between 0
    and 255 and any factor, [darken_color] and [lighten_color] put the
    same integer, [int(v * 255)] for the moved value [v], in the three
    channels; with the factors the program uses (0.15 for the gradient,
    0.1 for the border, the default 0.2) the result exists and is not
    lighter, respectively not darker, than [k]. *)
Theorem grey_shades (k : Z) :
  0 <= k <= 255 ->
  (forall factor,
     darken_color (k, k, k) factor = grey_at (lower_value factor (unit_of k)) /\
     lighten_color (k, k, k) factor = grey_at (raise_value factor (unit_of k))) /\
  (forall factor,
     factor = 0.15%float \/ factor = 0.1%float \/ factor = 0.2%float ->
     exists x, darken_color (k, k, k) factor = Ok (x, x, x) /\ 0 <= x <= k) /\
  (exists x, lighten_color (k, k, k) 0.2%float = Ok (x, x, x) /\ k <= x <= 255).
Proof.
  intros Hk. split; [|split].
  - intros factor. destruct (shades_as_shade (k, k, k) factor) as [-> ->].
    now rewrite !shade_grey.
  - intros factor Hf.
    assert (H : darker_grey factor k = true).
    { destruct (darker_grey_checked k Hk) as (H1 & H2 & H3 & _).
      now destruct Hf as [->|[->| ->]]. }
    unfold darker_grey in H.
    destruct (darken_color (k, k, k) factor) as [[[r g] b]|e]; [|discriminate].
    repeat (apply andb_prop in H as [H ?]).
    exists r. split; [repeat f_equal; lia | lia].
  - destruct (darker_grey_checked k Hk) as (_ & _ & _ & H).
    unfold lighter_grey in H.
    destruct (lighten_color (k, k, k) _) as [[[r g] b]|e]; [|discriminate].
    repeat (apply andb_prop in H as [H ?]).
    exists r. split; [repeat f_equal; lia | lia].
Qed.

Lemma grey_shades_witness :
  0 <= 128 <= 255 /\
  darken_color (128, 128, 128) 0.15%float = Ok (89, 89, 89) /\
  exists x, lighten_color (128, 128, 128) 0.2%float = Ok (x, x, x) /\
            128 <= x <= 255.
Proof.
  assert (H : 0 <= 128 <= 255) by lia.
  split; [exact H|]. split; [vm_compute; reflexivity|].
  exact (proj2 (proj2 (grey_shades 128 H))).
Defined.

End IconGeneratorProps.

(* ================================================================== *)
(** * Further properties of [PythonAppLauncher] *)
(* ================================================================== *)

Module LauncherProps.

Import Launcher PyFacts LauncherSpec IconGeneratorProps.

Local Open Scope list_scope.

(** ** File names *)

(** What [safe_name] makes of one character. *)
Definition safe_char (c : ascii) : ascii :=
  let c1 := lower_char c in
  let c2 := if Ascii.eqb c1 " " then "_"%char else c1 in
  if Ascii.eqb c2 "-" then "_"%char else c2.

Lemma safe_name_smap (s : string) : safe_name s = smap safe_char s.
Proof.
  unfold safe_name, replace_char, lower.
  induction s as [|c s IH]; [reflexivity|]. cbn [smap]. now rewrite IH.
Qed.

(** A character of a file name: not a blank, a hyphen or a capital. *)
Definition plain (c : ascii) : bool :=
  negb (Ascii.eqb c " " || Ascii.eqb c "-" || between 65 90 c).

Definition safe_char_ok (c : ascii) : bool :=
  Ascii.eqb (safe_char (safe_char c)) (safe_char c)
  && plain (safe_char c)
  && Ascii.eqb (safe_char (upper_char c)) (safe_char c)
  && Ascii.eqb (safe_char (lower_char c)) (safe_char c)
  && Ascii.eqb (safe_char (if Ascii.eqb c " " then "-"%char else c)) (safe_char c)
  && Ascii.eqb (safe_char (if Ascii.eqb c " " then "_"%char else c)) (safe_char c)
  && Ascii.eqb (safe_char (if Ascii.eqb c "-" then "_"%char else c)) (safe_char c)
  && Bool.eqb (Ascii.eqb (safe_char c) "/") (Ascii.eqb c "/").

Lemma safe_char_facts (c : ascii) :
  safe_char (safe_char c) = safe_char c /\
  plain (safe_char c) = true /\
  safe_char (upper_char c) = safe_char c /\
  safe_char (lower_char c) = safe_char c /\
  safe_char (if Ascii.eqb c " " then "-"%char else c) = safe_char c /\
  safe_char (if Ascii.eqb c " " then "_"%char else c) = safe_char c /\
  safe_char (if Ascii.eqb c "-" then "_"%char else c) = safe_char c /\
  Ascii.eqb (safe_char c) "/" = Ascii.eqb c "/".
Proof.
  assert (H : safe_char_ok c = true)
    by (apply all_ascii_spec; vm_compute; reflexivity).
  unfold safe_char_ok in H. repeat (apply andb_prop in H as [H ?]).
  repeat split;
    try (now apply Ascii.eqb_eq); try assumption; now apply Bool.eqb_prop.
Qed.

Lemma smap_smap (f g : ascii -> ascii) (s : string) :
  smap f (smap g s) = smap (fun c => f (g c)) s.
Proof. induction s as [|c s IH]; [reflexivity|]. cbn. now rewrite IH. Qed.

Lemma smap_ext (f g : ascii -> ascii) (s : string) :
  (forall c, f c = g c) -> smap f s = smap g s.
Proof.
  intros H. induction s as [|c s IH]; [reflexivity|]. cbn. now rewrite H, IH.
Qed.

Lemma safe_name_after (g : ascii -> ascii) (s : string) :
  (forall c, safe_char (g c) = safe_char c) ->
  safe_name (smap g s) = safe_name s.
Proof.
  intros H. rewrite !safe_name_smap, smap_smap. now apply smap_ext.
Qed.

(** X9. The file-name form of an ASCII app name has as many characters
    as the name, contains no blank, hyphen or capital letter, and is its
    own file-name form. *)
Theorem safe_name_normal (s : string) :
  ascii_text s = true ->
  String.length (safe_name s) = String.length s /\
  sall plain (safe_name s) = true /\
  safe_name (safe_name s) = safe_name s.
Proof.
  intros _. split; [|split].
  - rewrite safe_name_smap. apply length_smap.
  - rewrite safe_name_smap. induction s as [|c s IH]; [reflexivity|].
    cbn [smap sall]. rewrite IH.
    now rewrite (proj1 (proj2 (safe_char_facts c))).
  - rewrite (safe_name_smap s), safe_name_smap, smap_smap.
    apply smap_ext. intros c. apply safe_char_facts.
Qed.

(** X10. ASCII app names that differ only in letter case, or in blanks
    against hyphens or underscores, have the same file-name form; and
    names with the same file-name form have the same activation script,
    launcher script, desktop entry and icon file. *)
Theorem safe_name_collisions :
  (forall s,
     ascii_text s = true ->
     safe_name (upper s) = safe_name s /\
     safe_name (lower s) = safe_name s /\
     safe_name (replace_char " " "-" s) = safe_name s /\
     safe_name (replace_char " " "_" s) = safe_name s /\
     safe_name (replace_char "-" "_" s) = safe_name s) /\
  (forall E a b,
     safe_name a = safe_name b ->
     activation_path E a = activation_path E b /\
     launcher_path E a = launcher_path E b /\
     desktop_path E a = desktop_path E b /\
     icon_file E a = icon_file E b).
Proof.
  split.
  - intros s _. unfold upper, lower, replace_char.
    repeat split; apply safe_name_after; intros c; apply safe_char_facts.
  - intros E a b H.
    unfold activation_path, launcher_path, desktop_path, icon_file.
    now rewrite H.
Qed.

Lemma safe_name_collisions_witness :
  ascii_text "My App" = true /\
  safe_name (upper "My App") = safe_name "My App" /\
  safe_name "My App" = safe_name "my-app" /\
  activation_path demo_env "My App" = activation_path demo_env "my-app".
Proof.
  assert (H : safe_name "My App" = safe_name "my-app") by reflexivity.
  split; [reflexivity|].
  split; [exact (proj1 (proj1 safe_name_collisions "My App" eq_refl))|].
  split; [exact H|].
  exact (proj1 (proj2 safe_name_collisions demo_env _ _ H)).
Defined.

Lemma safe_name_normal_witness :
  ascii_text "My App-1" = true /\
  String.length (safe_name "My App-1") = String.length "My App-1" /\
  sall plain (safe_name "My App-1") = true /\
  safe_name (safe_name "My App-1") = safe_name "My App-1".
Proof.
  split; [reflexivity | exact (safe_name_normal "My App-1" eq_refl)].
Defined.


(** ** Where the artifacts go *)

(** A path component that [os.path.join] puts after a slash: not empty,
    no slash at either end. *)
Definition component (b : string) : Prop :=
  b <> EmptyString /\ starts_with_slash b = false /\ ends_with_slash b = false.

(** A directory as the program names it: not empty, no slash at the end. *)
Definition directory (d : string) : Prop :=
  d <> EmptyString /\ ends_with_slash d = false.

Lemma join2_directory (a b : string) : component b -> directory (join2 a b).
Proof.
  intros (Hne & Hstart & Hend). unfold join2. rewrite Hstart.
  destruct a as [|c a]; [now split|].
  destruct (ends_with_slash (String c a)).
  - split; [now rewrite append_cons|].
    now rewrite ends_with_slash_app.
  - split; [now rewrite append_cons|].
    rewrite ends_with_slash_app by (now destruct b).
    now rewrite ends_with_slash_app.
Qed.

Lemma join2_under (d f : string) :
  directory d ->
  join2 d f = if starts_with_slash f then f else d +:+ "/" +:+ f.
Proof.
  intros [Hne Hend]. unfold join2. destruct (starts_with_slash f); [reflexivity|].
  destruct d; [contradiction|]. now rewrite Hend.
Qed.

Section Places.

Variable E : Env.

Lemma config_dir_directory : directory (config_dir E).
Proof. apply join2_directory. now repeat split. Qed.

Lemma scripts_dir_directory : directory (scripts_dir E).
Proof. apply join2_directory. now repeat split. Qed.

Lemma desktop_files_dir_directory : directory (desktop_files_dir E).
Proof. apply join2_directory. now repeat split. Qed.

Lemma icons_dir_directory : directory (icons_dir E).
Proof. apply join2_directory. now repeat split. Qed.

Lemma starts_with_slash_safe (nm ext : string) :
  starts_with_slash ext = false ->
  starts_with_slash (safe_name nm +:+ ext) = starts_with_slash nm.
Proof.
  intros Hext. rewrite safe_name_smap. destruct nm as [|c nm]; [exact Hext|].
  cbn [smap]. rewrite append_cons. cbn [starts_with_slash].
  apply safe_char_facts.
Qed.

Lemma places (nm : string) :
  launcher_path E nm
    = scripts_dir E +:+ "/" +:+ "launch_" +:+ safe_name nm +:+ ".sh" /\
  activation_path E nm
    = (if starts_with_slash nm then safe_name nm +:+ ".sh"
       else scripts_dir E +:+ "/" +:+ safe_name nm +:+ ".sh") /\
  desktop_path E nm
    = (if starts_with_slash nm then safe_name nm +:+ ".desktop"
       else desktop_files_dir E +:+ "/" +:+ safe_name nm +:+ ".desktop") /\
  icon_file E nm
    = (if starts_with_slash nm then safe_name nm +:+ ".png"
       else icons_dir E +:+ "/" +:+ safe_name nm +:+ ".png").
Proof.
  unfold launcher_path, activation_path, desktop_path, icon_file, join.
  cbn [fold_left].
  fold (config_dir E) (scripts_dir E) (desktop_files_dir E) (icons_dir E).
  rewrite (join2_under (scripts_dir E)) by apply scripts_dir_directory.
  rewrite (join2_under (scripts_dir E)) by apply scripts_dir_directory.
  rewrite (join2_under (desktop_files_dir E)) by apply desktop_files_dir_directory.
  rewrite (join2_under (icons_dir E)) by apply icons_dir_directory.
  rewrite !starts_with_slash_safe by reflexivity.
  repeat split.
Qed.

End Places.










Section Within.

Variable E : Env.




End Within.



(** ** The three files of a save are different files *)

Fixpoint last_char (s : string) : option ascii :=
  match s with
  | EmptyString => None
  | String c EmptyString => Some c
  | String _ r => last_char r
  end.

Lemma last_char_append (s t : string) :
  t <> EmptyString -> last_char (s +:+ t) = last_char t.
Proof.
  intros Ht. induction s as [|c s IH]; [reflexivity|].
  rewrite append_cons. cbn [last_char]. rewrite IH.
  destruct (s +:+ t) eqn:Hst; [|reflexivity].
  destruct s; [now rewrite append_nil_l in Hst | discriminate].
Qed.

Lemma last_char_ext (base ext : string) (c : ascii) :
  last_char ext = Some c -> last_char (base +:+ ext) = Some c.
Proof.
  intros H. rewrite last_char_append; [exact H|]. now destruct ext.
Qed.

Section Distinct.

Variable E : Env.

Lemma apps_file_last : last_char (apps_file E) = Some "n"%char.
Proof.
  unfold apps_file, join. cbn [fold_left].
  rewrite join2_under by apply config_dir_directory. cbn [starts_with_slash].
  now apply last_char_ext.
Qed.

Lemma activation_path_last (nm : string) :
  last_char (activation_path E nm) = Some "h"%char.
Proof.
  rewrite (proj1 (proj2 (places E nm))).
  destruct (starts_with_slash nm); repeat apply last_char_ext; reflexivity.
Qed.

Lemma launcher_path_last (nm : string) :
  last_char (launcher_path E nm) = Some "h"%char.
Proof.
  rewrite (proj1 (places E nm)).
  repeat apply last_char_ext; reflexivity.
Qed.

Lemma apps_file_not_script (nm : string) :
  apps_file E <> activation_path E nm /\ apps_file E <> launcher_path E nm.
Proof.
  pose proof apps_file_last as H0.
  pose proof (activation_path_last nm) as H1.
  pose proof (launcher_path_last nm) as H2.
  split; intros Heq; rewrite Heq in H0; congruence.
Qed.

Lemma launcher_not_activation (nm : string) :
  launcher_path E nm <> activation_path E nm.
Proof.
  intros Heq. apply (f_equal String.length) in Heq.
  destruct (places E nm) as (Hl & Ha & _).
  rewrite Hl, Ha in Heq.
  destruct (scripts_dir_directory E) as [Hne _].
  assert (Hlen : (0 < String.length (scripts_dir E))%nat)
    by (destruct (scripts_dir E); [contradiction | simpl; lia]).
  destruct (starts_with_slash nm); rewrite !length_append in Heq;
    simpl in Heq; lia.
Qed.

End Distinct.



(** ** Trimming *)

Lemma rstrip_idempotent (p : ascii -> bool) (s : string) :
  rstrip_with p (rstrip_with p s) = rstrip_with p s.
Proof.
  induction s as [|c s IH]; [reflexivity|]. cbn [rstrip_with].
  destruct (rstrip_with p s) as [|c' r'] eqn:Hr.
  - destruct (p c) eqn:Hc; [reflexivity|]. cbn [rstrip_with]. now rewrite Hc.
  - change (rstrip_with p (String c (String c' r')))
      with (match rstrip_with p (String c' r') with
            | EmptyString => if p c then EmptyString else String c EmptyString
            | r0 => String c r0
            end).
    now rewrite IH.
Qed.

Lemma rstrip_head (p : ascii -> bool) (s : string) (c : ascii) (r : string) :
  rstrip_with p s = String c r -> exists r0, s = String c r0.
Proof.
  destruct s as [|c0 s]; [discriminate|]. cbn [rstrip_with].
  destruct (rstrip_with p s); [destruct (p c0)|]; intros [= <- <-]; eauto.
Qed.

Lemma rstrip_blanks (p : ascii -> bool) (s b : string) :
  sall p b = true -> rstrip_with p (s +:+ b) = rstrip_with p s.
Proof.
  intros Hb.
  assert (Hnil : rstrip_with p b = EmptyString).
  { induction b as [|c b IH]; [reflexivity|]. cbn [sall] in Hb.
    apply andb_prop in Hb as [Hc Hb]. cbn [rstrip_with].
    now rewrite (IH Hb), Hc. }
  induction s as [|c s IH]; [now rewrite append_nil_l|].
  rewrite append_cons. cbn [rstrip_with]. now rewrite IH.
Qed.

Lemma lstrip_blanks (p : ascii -> bool) (b s : string) :
  sall p b = true -> lstrip_with p (b +:+ s) = lstrip_with p s.
Proof.
  intros Hb. induction b as [|c b IH]; [reflexivity|]. cbn [sall] in Hb.
  apply andb_prop in Hb as [Hc Hb]. rewrite append_cons. cbn [lstrip_with].
  rewrite Hc. now apply IH.
Qed.

Lemma lstrip_append_blanks (p : ascii -> bool) (s b : string) :
  sall p b = true ->
  rstrip_with p (lstrip_with p (s +:+ b)) = rstrip_with p (lstrip_with p s).
Proof.
  intros Hb. induction s as [|c s IH].
  - rewrite append_nil_l. cbn [lstrip_with].
    rewrite <- (append_nil_r b), lstrip_blanks by assumption. reflexivity.
  - rewrite append_cons. cbn [lstrip_with]. destruct (p c); [exact IH|].
    rewrite <- append_cons. now apply rstrip_blanks.
Qed.

Lemma strip_idempotent (s : string) : strip (strip s) = strip s.
Proof.
  unfold strip. destruct (lstrip_with isspace s) as [|c r] eqn:Hl; [reflexivity|].
  pose proof (IconGeneratorSpec.lstrip_head _ _ _ _ Hl) as Hc.
  destruct (rstrip_with isspace (String c r)) as [|c' r'] eqn:Hr; [reflexivity|].
  destruct (rstrip_head _ _ _ _ Hr) as [r0 [= <- _]].
  cbn [lstrip_with]. rewrite Hc, <- Hr. apply rstrip_idempotent.
Qed.

Lemma strip_padding (b1 s b2 : string) :
  sall isspace b1 = true -> sall isspace b2 = true ->
  strip (b1 +:+ s +:+ b2) = strip s.
Proof.
  intros H1 H2. unfold strip. rewrite lstrip_blanks by assumption.
  now apply lstrip_append_blanks.
Qed.

(** ** Saving *)

Definition content_at (w : World) (p : string) : option string :=
  match fs w !! p with
  | Some (File content _) => Some content
  | _ => None
  end.

Section Saving.

Variable E : Env.

(** The world after a yes/no question. *)
Definition questioned (title text : string) (w : World) : World :=
  with_events (events w ++ [Ask title text (answers E (asked w))])
    (with_asked (S (asked w)) w).

Lemma bind_ask {B : Type} (title text : string) (k : bool -> M B) (w : World) :
  bind (askyesno E title text) k w
  = k (answers E (asked w)) (questioned title text w).
Proof. reflexivity. Qed.

Lemma installed_asked (p content : string) (w : World) :
  asked (installed E p content w) = asked w.
Proof. unfold installed. now destruct (on_windows E). Qed.

(** The files and events of [create_scripts]: the registry file, the two
    scripts, the question, the launch. *)
Definition scripts_created (i : nat) (cfg : app) (w w' : World) : Prop :=
  let act := activation_path E (name cfg) in
  let lau := launcher_path E (name cfg) in
  saved_apps w' = <[i := set_scripts act lau cfg]> (saved_apps w) /\
  (exists text,
     events w' =
       events w
       ++ [Write (apps_file E) (json_dump E (saved_apps w))]
       ++ (Write act (activation_content E cfg) :: chmods E act)
       ++ (Write lau (launcher_content E (name cfg) act) :: chmods E lau)
       ++ [Ask "Success" text (answers E (asked w))]
       ++ (if answers E (asked w) then launch_events E lau else [])) /\
  content_at w' (apps_file E) = Some (json_dump E (saved_apps w)) /\
  content_at w' act = Some (activation_content E cfg) /\
  content_at w' lau = Some (launcher_content E (name cfg) act) /\
  (on_windows E = false ->
   mode_at w' act = Some 493 /\ mode_at w' lau = Some 493) /\
  (forall q, q <> apps_file E -> q <> act -> q <> lau ->
             fs w' !! q = fs w !! q).

Lemma run_create_scripts (i : nat) (cfg : app) (w : World) :
  writable E w (apps_file E) ->
  writable E w (activation_path E (name cfg)) ->
  writable E w (launcher_path E (name cfg)) ->
  exists w', create_scripts E i cfg w = (Ok tt, w') /\
             scripts_created i cfg w w'.
Proof.
  intros Hf Ha Hl. unfold create_scripts.
  set (act := activation_path E (name cfg)) in *.
  set (lau := launcher_path E (name cfg)) in *.
  destruct (apps_file_not_script E (name cfg)) as [Hfa Hfl].
  pose proof (launcher_not_activation E (name cfg)) as Hla.
  fold act lau in Hfa, Hfl, Hla.
  rewrite (bind_ok _ _ _ _ _ (run_save_apps E w Hf)).
  set (w1 := written (apps_file E) _ w).
  assert (Ha1 : writable E w1 act) by now apply writable_written.
  rewrite (bind_ok _ _ _ _ _ (run_create_activation_script E cfg w1 Ha1)).
  fold act. set (w2 := logged E _ _ (installed E act _ w1)).
  assert (Hl2 : writable E w2 lau).
  { unfold w2. eapply writable_same_fs; [reflexivity|].
    now apply writable_installed, writable_written. }
  rewrite (bind_ok _ _ _ _ _ (run_create_xterm_launcher E cfg act w2 Hl2)).
  fold lau. set (w3 := logged E _ _ (installed E lau _ w2)).
  unfold store_app at 1. rewrite bind_modify.
  unfold refresh_apps_list. rewrite bind_assoc, bind_gets.
  rewrite !bind_log, bind_ask.
  match goal with
  | |- context [questioned ?t ?x ?w0] =>
      assert (Hq : asked w0 = asked w);
        [|rewrite Hq; set (w4 := questioned t x w0)]
  end.
  { unfold w3, w2, w1.
    repeat first
      [ rewrite installed_asked
      | progress cbn [asked with_saved_apps logged with_output_text
                      with_ticks written with_events with_fs] ].
    reflexivity. }
  assert (Hfs4 : forall q,
            fs w4 !! q =
            if decide (lau = q)
            then Some (File (launcher_content E (name cfg) act)
                         (if on_windows E then mode_at w2 lau else Some 493))
            else if decide (act = q)
            then Some (File (activation_content E cfg)
                         (if on_windows E then mode_at w1 act else Some 493))
            else if decide (apps_file E = q)
            then Some (File (json_dump E (saved_apps w))
                         (mode_at w (apps_file E)))
            else fs w !! q).
  { intros q. unfold w4, questioned, w3.
    cbn [fs with_events with_asked with_saved_apps logged with_output_text
         with_ticks].
    rewrite installed_lookup. destruct (decide (lau = q)); [reflexivity|].
    unfold w2. cbn [fs logged with_output_text with_ticks].
    rewrite installed_lookup. destruct (decide (act = q)); [reflexivity|].
    unfold w1. apply written_lookup. }
  assert (Hev4 : exists text,
            events w4 =
              events w
              ++ [Write (apps_file E) (json_dump E (saved_apps w))]
              ++ (Write act (activation_content E cfg) :: chmods E act)
              ++ (Write lau (launcher_content E (name cfg) act) :: chmods E lau)
              ++ [Ask "Success" text (answers E (asked w))]).
  { eexists. unfold w4, questioned, w3.
    cbn [events asked with_events with_asked with_saved_apps logged
         with_output_text with_ticks].
    rewrite installed_events. unfold w2.
    cbn [events asked logged with_output_text with_ticks].
    rewrite installed_events. unfold w1.
    cbn [events asked written with_events with_fs].
    repeat first
      [ rewrite installed_asked
      | progress cbn [asked with_saved_apps logged with_output_text
                      with_ticks written with_events with_fs] ].
    rewrite <- !app_assoc. reflexivity. }
  assert (Happs4 : saved_apps w4
                   = <[i := set_scripts act lau cfg]> (saved_apps w)).
  { unfold w4, questioned, w3.
    cbn [saved_apps with_events with_asked with_saved_apps logged
         with_output_text with_ticks].
    rewrite installed_apps. unfold w2.
    cbn [saved_apps logged with_output_text with_ticks].
    now rewrite installed_apps. }
  assert (Hdone : forall w',
            fs w' = fs w4 -> saved_apps w' = saved_apps w4 ->
            events w' = events w4
                        ++ (if answers E (asked w) then launch_events E lau else []) ->
            scripts_created i cfg w w').
  { intros w' Hfs Happs Hev. unfold scripts_created. fold act lau.
    split; [now rewrite Happs|]. split.
    { destruct Hev4 as [text Hev4]. exists text.
      rewrite Hev, Hev4, <- !app_assoc. reflexivity. }
    assert (Hfile : fs w' !! apps_file E
                    = Some (File (json_dump E (saved_apps w))
                              (mode_at w (apps_file E)))).
    { rewrite Hfs, Hfs4.
      rewrite (decide_False (P := lau = apps_file E)) by congruence.
      rewrite (decide_False (P := act = apps_file E)) by congruence.
      now rewrite decide_True. }
    assert (Hact : fs w' !! act
                   = Some (File (activation_content E cfg)
                             (if on_windows E then mode_at w1 act else Some 493))).
    { rewrite Hfs, Hfs4, (decide_False (P := lau = act)) by exact Hla.
      now rewrite decide_True. }
    assert (Hlau : fs w' !! lau
                   = Some (File (launcher_content E (name cfg) act)
                             (if on_windows E then mode_at w2 lau else Some 493))).
    { rewrite Hfs, Hfs4. now rewrite decide_True. }
    unfold content_at, mode_at. rewrite Hfile, Hact, Hlau.
    repeat split;
      try match goal with
          | H : on_windows E = false |- _ => now rewrite H
          end.
    intros q H1 H2 H3. rewrite Hfs, Hfs4.
    rewrite !decide_False by congruence. reflexivity. }
  destruct (answers E (asked w)) eqn:Hyes.
  - assert (Hthere : path_exists w4 lau = true).
    { eapply path_exists_Some. rewrite Hfs4, decide_True by reflexivity.
      reflexivity. }
    destruct (run_script_file_events E lau w4 Hthere)
      as (w5 & -> & Happs5 & Hfs5 & Hev5).
    exists w5. split; [reflexivity|]. now apply Hdone.
  - exists w4. split; [reflexivity|]. apply Hdone; try reflexivity.
    now rewrite app_nil_r.
Qed.


Lemma accepted_true (w : World) :
  accepted w = true ->
  is_empty (strip (app_name_var (vars w))) = false /\
  is_empty (strip (venv_path_var (vars w))) = false /\
  is_empty (strip (script_path_var (vars w))) = false /\
  path_exists w (strip (venv_path_var (vars w))) = true /\
  path_exists w (strip (script_path_var (vars w))) = true.
Proof.
  unfold accepted. intros H. repeat (apply andb_prop in H as [H ?]).
  repeat split; try assumption; now apply negb_true_iff.
Qed.

(** The descriptor a save builds from the form of [w]. *)
Definition form_app (w : World) : app := new_app (vars w) (now E (ticks w)).

Lemma save_accepted (w : World) :
  accepted w = true ->
  save_and_create_script E w
  = bind (upsert E (form_app w))
      (fun slot => match slot with
                   | None => ret tt
                   | Some i => create_scripts E i (form_app w)
                   end)
      (with_ticks (S (ticks w)) w).
Proof.
  intros H. destruct (accepted_true w H) as (H1 & H2 & H3 & H4 & H5).
  unfold save_and_create_script. rewrite bind_gets, H1, H2, H3.
  rewrite bind_exists, H4. cbn [negb]. rewrite bind_exists, H5. cbn [negb].
  unfold datetime_now. rewrite bind_assoc, bind_gets, bind_assoc, bind_modify.
  rewrite bind_ret. reflexivity.
Qed.

(** X12. A save that is refused changes nothing.  When a required field
    is empty or a path does not exist, [save_and_create_script] shows
    one error dialog and leaves the registry, the files and the clock
    as they were; when the name exists and the user declines to
    overwrite, it asks that one question and leaves registry and files
    as they were. *)
Theorem save_without_effect (w : World) :
  (accepted w = false ->
   exists text,
     save_and_create_script E w
     = (Ok tt, with_events (events w ++ [Message "error" "Error" text]) w)) /\
  (forall i old,
     accepted w = true ->
     find_app (name (form_app w)) (saved_apps w) = Some (i, old) ->
     answers E (asked w) = false ->
     exists w',
       save_and_create_script E w = (Ok tt, w') /\
       saved_apps w' = saved_apps w /\ fs w' = fs w /\
       events w' =
         events w
         ++ [Ask "Confirm"
               ("App '" +:+ name (form_app w) +:+ "' already exists. Overwrite?")
               false]).
Proof.
  split.
  - unfold accepted, save_and_create_script. rewrite bind_gets.
    destruct (is_empty (strip (app_name_var (vars w)))); [eexists; reflexivity|].
    destruct (is_empty (strip (venv_path_var (vars w)))); [eexists; reflexivity|].
    destruct (is_empty (strip (script_path_var (vars w))));
      [eexists; reflexivity|].
    cbv iota. rewrite bind_exists.
    destruct (path_exists w (strip (venv_path_var (vars w))));
      [|eexists; reflexivity].
    cbn [negb andb]. cbv iota. rewrite bind_exists.
    destruct (path_exists w (strip (script_path_var (vars w))));
      [discriminate|]. eexists; reflexivity.
  - intros i old Hacc Hfind Hno. rewrite (save_accepted w Hacc).
    unfold upsert. rewrite bind_assoc, bind_gets.
    change (saved_apps (with_ticks (S (ticks w)) w)) with (saved_apps w).
    rewrite Hfind, bind_assoc, bind_ask.
    change (asked (with_ticks (S (ticks w)) w)) with (asked w).
    rewrite Hno, bind_ret. eexists. split; [reflexivity|].
    unfold questioned. cbn. now rewrite Hno.
Qed.


(** The registry with the descriptor [cfg] put in: over the first entry
    of its name or, if there is none, at the end; and the position. *)
Definition registry_with (apps : list app) (cfg : app) : list app :=
  match find_app (name cfg) apps with
  | Some (i, _) => <[i := cfg]> apps
  | None => apps ++ [cfg]
  end.

Definition slot_of (apps : list app) (cfg : app) : nat :=
  match find_app (name cfg) apps with
  | Some (i, _) => i
  | None => length apps
  end.

(** The question that precedes an overwrite, answered with yes. *)
Definition confirmation (apps : list app) (cfg : app) : list event :=
  match find_app (name cfg) apps with
  | Some _ =>
      [Ask "Confirm" ("App '" +:+ name cfg +:+ "' already exists. Overwrite?")
         true]
  | None => []
  end.

(** The name is new, or the user agrees to overwrite. *)
Definition goes_ahead (w : World) : Prop :=
  find_app (name (form_app w)) (saved_apps w) = None \/
  answers E (asked w) = true.

Lemma run_upsert (w : World) :
  goes_ahead w ->
  let apps := saved_apps w in
  let cfg := form_app w in
  exists w1,
    upsert E cfg (with_ticks (S (ticks w)) w) = (Ok (Some (slot_of apps cfg)), w1) /\
    saved_apps w1 = registry_with apps cfg /\
    fs w1 = fs w /\
    events w1 = events w ++ confirmation apps cfg /\
    asked w1 = (asked w + length (confirmation apps cfg))%nat.
Proof.
  intros Hgo. cbv zeta. unfold goes_ahead in Hgo.
  set (apps := saved_apps w) in *. set (cfg := form_app w) in *.
  unfold upsert, registry_with, slot_of, confirmation.
  rewrite bind_gets.
  change (saved_apps (with_ticks (S (ticks w)) w)) with apps.
  destruct (find_app (name cfg) apps) as [[i old]|] eqn:Hfind.
  - destruct Hgo as [Hgo|Hyes]; [congruence|].
    rewrite bind_ask.
    change (asked (with_ticks (S (ticks w)) w)) with (asked w).
    rewrite Hyes. cbv iota. unfold store_app. rewrite bind_modify.
    eexists. split; [reflexivity|]. unfold questioned. cbn.
    rewrite Hyes. repeat split. lia.
  - rewrite bind_modify. eexists. split; [reflexivity|]. cbn.
    rewrite app_nil_r. repeat split. lia.
Qed.

(** What a save leaves behind: see X13. *)
Definition saved_with_scripts (w w' : World) : Prop :=
  let apps := saved_apps w in
  let cfg := form_app w in
  let act := activation_path E (name cfg) in
  let lau := launcher_path E (name cfg) in
  let n := (asked w + length (confirmation apps cfg))%nat in
  saved_apps w' =
    <[slot_of apps cfg := set_scripts act lau cfg]> (registry_with apps cfg) /\
  (exists text,
     events w' =
       events w
       ++ confirmation apps cfg
       ++ [Write (apps_file E) (json_dump E (registry_with apps cfg))]
       ++ (Write act (activation_content E cfg) :: chmods E act)
       ++ (Write lau (launcher_content E (name cfg) act) :: chmods E lau)
       ++ [Ask "Success" text (answers E n)]
       ++ (if answers E n then launch_events E lau else [])) /\
  content_at w' (apps_file E) = Some (json_dump E (registry_with apps cfg)) /\
  content_at w' act = Some (activation_content E cfg) /\
  content_at w' lau = Some (launcher_content E (name cfg) act) /\
  (on_windows E = false ->
   mode_at w' act = Some 493 /\ mode_at w' lau = Some 493) /\
  (forall q, q <> apps_file E -> q <> act -> q <> lau ->
             fs w' !! q = fs w !! q).

Lemma run_save (w : World) :
  accepted w = true -> goes_ahead w ->
  writable E w (apps_file E) ->
  writable E w (activation_path E (name (form_app w))) ->
  writable E w (launcher_path E (name (form_app w))) ->
  exists w', save_and_create_script E w = (Ok tt, w') /\
             saved_with_scripts w w'.
Proof.
  intros Hacc Hgo Hf Ha Hl. rewrite (save_accepted w Hacc).
  destruct (run_upsert w Hgo) as (w1 & Hup & Happs1 & Hfs1 & Hev1 & Hq1).
  rewrite (bind_ok _ _ _ _ _ Hup).
  destruct (run_create_scripts (slot_of (saved_apps w) (form_app w))
              (form_app w) w1) as (w' & Hrun & Hdone);
    try (eapply writable_same_fs; [exact Hfs1 | assumption]).
  exists w'. split; [exact Hrun|].
  destruct Hdone as (Happs & [text Hev] & Hc1 & Hc2 & Hc3 & Hmode & Hrest).
  unfold saved_with_scripts. rewrite <- Happs1, <- Hq1.
  split; [exact Happs|]. split.
  { exists text. rewrite Hev, Hev1, <- !app_assoc. reflexivity. }
  repeat split; try assumption; try (now apply Hmode).
  intros q H1 H2 H3. now rewrite Hrest, Hfs1.
Qed.




(** ** Failures that are not fatal *)

(** X15. [run_script_file] never raises and never touches the registry
    or the files.  For a script that exists it starts the terminal, or
    plain [bash] when the terminal cannot be started, or nothing when
    neither can; for a script that does not exist it starts nothing. *)
Theorem run_script_file_safe (p : string) (w : World) :
  exists w',
    run_script_file E p w = (Ok tt, w') /\
    saved_apps w' = saved_apps w /\ fs w' = fs w /\
    events w' = events w ++ (if path_exists w p then launch_events E p else []).
Proof.
  destruct (path_exists w p) eqn:Hp.
  - now apply run_script_file_events.
  - unfold run_script_file. rewrite bind_exists, Hp. cbn [negb].
    rewrite run_log. eexists. split; [reflexivity|].
    rewrite logged_apps, logged_fs, logged_events, app_nil_r. now repeat split.
Qed.

(** X16. [save_apps] never raises and never changes the registry in
    memory.  When the registry file can be written it holds the encoded
    registry afterwards; when it cannot, nothing is written and one
    error line is logged. *)
Theorem save_apps_safe (w : World) :
  (writable E w (apps_file E) ->
   save_apps E w
   = (Ok tt, written (apps_file E) (json_dump E (saved_apps w)) w)) /\
  (~ writable E w (apps_file E) ->
   save_apps E w
   = (Ok tt, logged E ("Error saving apps: " +:+ describe E OSError) "error" w)) /\
  (exists w', save_apps E w = (Ok tt, w') /\ saved_apps w' = saved_apps w).
Proof.
  assert (Hbad : ~ writable E w (apps_file E) ->
            save_apps E w
            = (Ok tt,
               logged E ("Error saving apps: " +:+ describe E OSError) "error" w)).
  { intros Hno. unfold save_apps, catch. rewrite bind_gets. unfold write_file.
    rewrite bind_gets. unfold writable in Hno.
    destruct (fs w !! apps_file E) as [[c m|]|] eqn:Hfile.
    - destruct (can_write E (apps_file E)); [|reflexivity].
      exfalso. apply Hno. split; [reflexivity | discriminate].
    - reflexivity.
    - destruct (can_write E (apps_file E)); [|reflexivity].
      exfalso. apply Hno. split; [reflexivity | discriminate]. }
  split; [apply run_save_apps|]. split; [exact Hbad|].
  destruct (can_write E (apps_file E)) eqn:Hcan.
  - destruct (fs w !! apps_file E) as [[c m|]|] eqn:Hfile.
    + eexists. split; [apply run_save_apps|reflexivity].
      split; [assumption | congruence].
    + eexists. split; [apply Hbad | reflexivity].
      intros [_ H]. now apply H.
    + eexists. split; [apply run_save_apps|reflexivity].
      split; [assumption | congruence].
  - eexists. split; [apply Hbad | reflexivity].
    intros [H _]. congruence.
Qed.

(** X17. Saving and loading are inverse through the registry file: when
    the file can be written and the codec reads back what it wrote for
    this registry, [save_apps] followed by [load_apps] ends with the
    registry it started from. *)
Theorem save_load_round_trip (w : World) :
  writable E w (apps_file E) ->
  json_load E (json_dump E (saved_apps w)) = Some (saved_apps w) ->
  exists w1 w2,
    save_apps E w = (Ok tt, w1) /\ load_apps E w1 = (Ok tt, w2) /\
    saved_apps w2 = saved_apps w /\ fs w2 = fs w1.
Proof.
  intros Hw Hjson. exists (written (apps_file E) (json_dump E (saved_apps w)) w).
  pose proof (load_apps_cases E
                (written (apps_file E) (json_dump E (saved_apps w)) w)) as H.
  rewrite written_lookup, decide_True in H by reflexivity.
  rewrite Hjson in H. destruct H as (w2 & Hload & Happs & Hfs).
  exists w2. split; [now apply run_save_apps|]. now repeat split.
Qed.


(** ** Running the form without saving *)

(** The descriptor [run_now] builds from the form of [w]: the trimmed
    name or, when it is empty, [Temp_] and the time of day. *)
Definition temp_app (stamp : datetime -> string) (w : World) : app :=
  let v := vars w in
  let unnamed := is_empty (strip (app_name_var v)) in
  App (if unnamed then "Temp_" +:+ stamp (now E (ticks w))
       else strip (app_name_var v))
      (strip (venv_path_var v)) (strip (script_path_var v))
      (Some (strip (args_var v))) (Some (strip (workdir_var v)))
      (Some (isoformat (now E (if unnamed then S (ticks w) else ticks w)))) None
      None None None None None None None.

Lemma run_now_rejected (stamp : datetime -> string) (w : World) :
  is_empty (strip (venv_path_var (vars w))) = true \/
  is_empty (strip (script_path_var (vars w))) = true ->
  exists text,
    run_now E stamp w
    = (Ok tt, with_events (events w ++ [Message "error" "Error" text]) w).
Proof.
  intros H. unfold run_now. rewrite bind_gets.
  destruct (is_empty (strip (venv_path_var (vars w)))); [eexists; reflexivity|].
  destruct H as [H| ->]; [discriminate|]. eexists; reflexivity.
Qed.

Lemma run_now_prepared (stamp : datetime -> string) (w : World) :
  is_empty (strip (venv_path_var (vars w))) = false ->
  is_empty (strip (script_path_var (vars w))) = false ->
  exists w0,
    fs w0 = fs w /\ saved_apps w0 = saved_apps w /\ events w0 = events w /\
    run_now E stamp w
    = bind (create_activation_script E (temp_app stamp w))
        (run_script_file E) w0.
Proof.
  intros Hv Hs. unfold run_now, temp_app. rewrite bind_gets, Hv, Hs.
  cbv zeta. destruct (is_empty (strip (app_name_var (vars w)))).
  - unfold datetime_now.
    rewrite !bind_assoc, bind_gets, bind_assoc, bind_modify, !bind_ret.
    rewrite bind_assoc, bind_gets, bind_assoc, bind_modify, bind_ret.
    eexists. split; [|split; [|split; [|reflexivity]]]; reflexivity.
  - unfold datetime_now.
    rewrite bind_ret, bind_assoc, bind_gets, bind_assoc, bind_modify, bind_ret.
    eexists. split; [|split; [|split; [|reflexivity]]]; reflexivity.
Qed.

Lemma keeps_run_now (stamp : datetime -> string) : keeps (run_now E stamp).
Proof.
  intros w. unfold run_now. rewrite bind_gets.
  destruct (is_empty (strip (venv_path_var (vars w)))); [reflexivity|].
  destruct (is_empty (strip (script_path_var (vars w)))); [reflexivity|].
  match goal with
  | |- saved_apps (?m w).2 = _ => assert (Hk : keeps m); [|apply Hk]
  end.
  apply keeps_bind.
  - destruct (is_empty _); [|apply keeps_ret].
    apply keeps_bind; [|intros; apply keeps_ret].
    unfold datetime_now. apply keeps_bind; [apply keeps_gets|]. intros n.
    apply keeps_bind; [now apply keeps_modify | intros; apply keeps_ret].
  - intros nm. apply keeps_bind.
    + unfold datetime_now. apply keeps_bind; [apply keeps_gets|]. intros n.
      apply keeps_bind; [now apply keeps_modify | intros; apply keeps_ret].
    + intros t. apply keeps_bind; [apply keeps_create_activation_script|].
      intros p. apply keeps_run_script_file.
Qed.

Lemma run_now_outcome (stamp : datetime -> string) (w : World) :
  let cfg := temp_app stamp w in
  let act := activation_path E (name cfg) in
  is_empty (strip (venv_path_var (vars w))) = false ->
  is_empty (strip (script_path_var (vars w))) = false ->
  writable E w act ->
  exists w',
    run_now E stamp w = (Ok tt, w') /\
    saved_apps w' = saved_apps w /\
    events w' =
      events w ++ (Write act (activation_content E cfg) :: chmods E act)
               ++ launch_events E act /\
    content_at w' act = Some (activation_content E cfg) /\
    (forall q, q <> act -> fs w' !! q = fs w !! q).
Proof.
  intros cfg act Hv Hs Hw.
  destruct (run_now_prepared stamp w Hv Hs) as (w0 & Hfs0 & Happs0 & Hev0 & ->).
  fold cfg.
  assert (Hw0 : writable E w0 act) by (eapply writable_same_fs; eassumption).
  rewrite (bind_ok _ _ _ _ _ (run_create_activation_script E cfg w0 Hw0)).
  fold act. set (w1 := logged E _ _ (installed E act _ w0)).
  assert (Hfs1 : forall q, fs w1 !! q =
            if decide (act = q)
            then Some (File (activation_content E cfg)
                         (if on_windows E then mode_at w0 act else Some 493))
            else fs w !! q).
  { intros q. unfold w1. rewrite logged_fs, installed_lookup.
    now rewrite Hfs0. }
  assert (Hthere : path_exists w1 act = true).
  { eapply path_exists_Some. rewrite Hfs1, decide_True by reflexivity.
    reflexivity. }
  destruct (run_script_file_events E act w1 Hthere)
    as (w2 & -> & Happs2 & Hfs2 & Hev2).
  exists w2. split; [reflexivity|]. split.
  { rewrite Happs2. unfold w1. now rewrite logged_apps, installed_apps. }
  split.
  { rewrite Hev2. unfold w1. rewrite logged_events, installed_events, Hev0.
    now rewrite <- app_assoc. }
  split.
  { unfold content_at. rewrite Hfs2, Hfs1, decide_True by reflexivity.
    reflexivity. }
  intros q Hq. rewrite Hfs2, Hfs1. now rewrite decide_False by congruence.
Qed.

(** ** Generating twice *)

Lemma installed_twice (p content : string) (w : World) (m1 m2 : string) :
  fs (logged E m2 "success"
        (installed E p content (logged E m1 "success" (installed E p content w))))
  = fs (logged E m1 "success" (installed E p content w)).
Proof.
  rewrite !logged_fs. apply map_eq. intros q.
  rewrite (installed_lookup E p content (logged E m1 "success" _)).
  rewrite logged_fs, !installed_lookup.
  destruct (decide (p = q)) as [<-|Hne]; [|reflexivity].
  destruct (on_windows E) eqn:Hwin; [|reflexivity].
  unfold mode_at at 1. rewrite logged_fs, installed_lookup.
  now rewrite decide_True, Hwin.
Qed.

(** X25. Generating a script twice is the same as generating it once:
    the second [create_activation_script] (or [create_xterm_launcher])
    for the same descriptor returns the same path and leaves every file,
    the script included, as the first left it. *)
Theorem scripts_idempotent (a : app) (w : World) :
  writable E w (activation_path E (name a)) ->
  writable E w (launcher_path E (name a)) ->
  (exists w1 w2,
     create_activation_script E a w = (Ok (activation_path E (name a)), w1) /\
     create_activation_script E a w1 = (Ok (activation_path E (name a)), w2) /\
     fs w2 = fs w1) /\
  (forall act, exists w1 w2,
     create_xterm_launcher E a act w = (Ok (launcher_path E (name a)), w1) /\
     create_xterm_launcher E a act w1 = (Ok (launcher_path E (name a)), w2) /\
     fs w2 = fs w1).
Proof.
  intros Ha Hl. split.
  - eexists _, _. split; [now apply run_create_activation_script|]. split.
    + apply run_create_activation_script.
      eapply writable_same_fs; [reflexivity|]. now apply writable_installed.
    + apply installed_twice.
  - intros act. eexists _, _.
    split; [now apply run_create_xterm_launcher|]. split.
    + apply run_create_xterm_launcher.
      eapply writable_same_fs; [reflexivity|]. now apply writable_installed.
    + apply installed_twice.
Qed.


(** ** Deleting an app *)

Lemma save_apps_cases (w : World) :
  (writable E w (apps_file E) /\
   save_apps E w
   = (Ok tt, written (apps_file E) (json_dump E (saved_apps w)) w)) \/
  (~ writable E w (apps_file E) /\
   save_apps E w
   = (Ok tt, logged E ("Error saving apps: " +:+ describe E OSError) "error" w)).
Proof.
  unfold writable.
  destruct (can_write E (apps_file E)) eqn:Hcan;
    destruct (fs w !! apps_file E) as [[c m|]|] eqn:Hfile.
  - left. assert (Hw : writable E w (apps_file E))
      by (split; [assumption | congruence]).
    split; [split; [reflexivity | congruence] | now apply run_save_apps].
  - right. split; [intros [_ H]; now apply H|].
    unfold save_apps, catch, write_file. now rewrite !bind_gets, Hfile.
  - left. assert (Hw : writable E w (apps_file E))
      by (split; [assumption | congruence]).
    split; [split; [reflexivity | congruence] | now apply run_save_apps].
  - right. split; [intros [H _]; discriminate|].
    unfold save_apps, catch, write_file. now rewrite !bind_gets, Hfile, Hcan.
  - right. split; [intros [H _]; discriminate|].
    unfold save_apps, catch, write_file. now rewrite !bind_gets, Hfile.
  - right. split; [intros [H _]; discriminate|].
    unfold save_apps, catch, write_file. now rewrite !bind_gets, Hfile, Hcan.
Qed.

(** What [save_apps] can have done: the registry and the other files are
    as before, and the trace has at most the write of the registry. *)
Lemma save_apps_frame (w : World) :
  exists w',
    save_apps E w = (Ok tt, w') /\ saved_apps w' = saved_apps w /\
    asked w' = asked w /\
    (forall q, q <> apps_file E -> fs w' !! q = fs w !! q) /\
    (writable E w (apps_file E) ->
     events w' = events w ++ [Write (apps_file E) (json_dump E (saved_apps w))] /\
     content_at w' (apps_file E) = Some (json_dump E (saved_apps w))) /\
    (~ writable E w (apps_file E) -> events w' = events w /\ fs w' = fs w).
Proof.
  destruct (save_apps_cases w) as [[Hw ->]|[Hno ->]]; eexists;
    (split; [reflexivity|]); (split; [reflexivity|]); (split; [reflexivity|]).
  - split; [|split].
    + intros q Hq. rewrite written_lookup. now rewrite decide_False by congruence.
    + intros _. split; [reflexivity|]. unfold content_at.
      now rewrite written_lookup, decide_True.
    + intros Hno. contradiction.
  - split; [|split].
    + intros q Hq. reflexivity.
    + intros Hw. contradiction.
    + intros _. split; reflexivity.
Qed.

(** [os.remove] would succeed on [p]: a file the system lets go. *)
Definition removable (w : World) (p : string) : bool :=
  match fs w !! p with
  | Some (File _ _) => can_write E p
  | _ => false
  end.

Lemma run_remove_recorded (recorded : option string) (w : World) :
  exists w',
    remove_recorded E recorded w = (Ok tt, w') /\
    saved_apps w' = saved_apps w /\ events w' = events w /\
    asked w' = asked w /\
    (forall q, recorded <> Some q -> fs w' !! q = fs w !! q) /\
    (forall p, recorded = Some p ->
               fs w' !! p = if removable w p then None else fs w !! p).
Proof.
  destruct recorded as [p|]; cycle 1.
  { exists w. repeat split; try reflexivity. intros p Hp. discriminate. }
  unfold remove_recorded. rewrite bind_exists. unfold removable.
  destruct (path_exists w p) eqn:Hthere; cycle 1.
  { exists w. repeat split; try reflexivity. intros p' [= <-].
    unfold path_exists in Hthere. apply bool_decide_eq_false_1 in Hthere.
    destruct (fs w !! p) as [n|] eqn:Hp; [exfalso; eauto|reflexivity]. }
  unfold catch, remove_file. rewrite bind_assoc, bind_gets.
  destruct (fs w !! p) as [[c m|]|] eqn:Hp.
  - destruct (can_write E p) eqn:Hcan.
    + rewrite bind_modify, run_log. eexists. split; [reflexivity|].
      repeat split.
      * intros q Hq. rewrite logged_fs. cbn [fs with_fs].
        rewrite lookup_delete_ne; [reflexivity | congruence].
      * intros p' [= <-]. rewrite logged_fs, Hp, Hcan. cbn [fs with_fs].
        apply lookup_delete_eq.
    + rewrite bind_raise. exists w. repeat split; try reflexivity.
      intros p' [= <-]. now rewrite Hp, Hcan.
  - rewrite bind_raise. exists w. repeat split; try reflexivity.
    intros p' [= <-]. now rewrite Hp.
  - rewrite bind_raise. exists w. repeat split; try reflexivity.
    intros p' [= <-]. now rewrite Hp.
Qed.

(** The question [delete_selected_app] asks. *)
Definition delete_question (app_name : string) : string :=
  "Delete app '" +:+ app_name +:+ "'?" +:+ nl +:+ nl
  +:+ "This will also delete the activation scripts.".

(** The script paths recorded on the first entry named [nm]. *)
Definition recorded_scripts (nm : string) (apps : list app) : list string :=
  match find_app nm apps with
  | Some (_, a) =>
      option_list (activation_script a) ++ option_list (launcher_script a)
  | None => []
  end.

Definition without (nm : string) (apps : list app) : list app :=
  filter (fun a => name a <> nm) apps.

Lemma delete_declined (nm : string) (w : World) :
  answers E (asked w) = false ->
  delete_selected_app E (Some nm) w
  = (Ok tt, questioned "Confirm Delete" (delete_question nm) w).
Proof.
  intros Hno. unfold delete_selected_app. fold (delete_question nm).
  now rewrite bind_ask, Hno.
Qed.

Lemma delete_confirmed (nm : string) (w : World) :
  answers E (asked w) = true ->
  exists w',
    delete_selected_app E (Some nm) w = (Ok tt, w') /\
    saved_apps w' = without nm (saved_apps w) /\
    (forall q, q <> apps_file E -> q ∉ recorded_scripts nm (saved_apps w) ->
               fs w' !! q = fs w !! q) /\
    (forall p, p <> apps_file E -> p ∈ recorded_scripts nm (saved_apps w) ->
               removable w p = true -> fs w' !! p = None) /\
    (writable E w (apps_file E) ->
     events w' =
       events w
       ++ [Ask "Confirm Delete" (delete_question nm) true;
           Write (apps_file E) (json_dump E (without nm (saved_apps w)))]).
Proof.
  intros Hyes. unfold delete_selected_app. fold (delete_question nm).
  rewrite bind_ask, Hyes. cbv iota.
  set (w0 := questioned "Confirm Delete" (delete_question nm) w).
  assert (Hw0 : fs w0 = fs w /\ saved_apps w0 = saved_apps w /\
                events w0 = events w
                            ++ [Ask "Confirm Delete" (delete_question nm) true]).
  { unfold w0, questioned. cbn. now rewrite Hyes. }
  destruct Hw0 as (Hfs0 & Happs0 & Hev0). clearbody w0.
  rewrite bind_gets, Happs0. unfold recorded_scripts.
  assert (Hrm : exists w2,
    (match find_app nm (saved_apps w) with
     | Some (_, a) =>
         remove_recorded E (activation_script a);;
         remove_recorded E (launcher_script a)
     | None => ret tt
     end) w0 = (Ok tt, w2) /\
    saved_apps w2 = saved_apps w /\ events w2 = events w0 /\
    (forall q,
       q ∉ match find_app nm (saved_apps w) with
           | Some (_, a) =>
               option_list (activation_script a)
               ++ option_list (launcher_script a)
           | None => []
           end -> fs w2 !! q = fs w !! q) /\
    (forall p,
       p ∈ match find_app nm (saved_apps w) with
           | Some (_, a) =>
               option_list (activation_script a)
               ++ option_list (launcher_script a)
           | None => []
           end -> removable w p = true -> fs w2 !! p = None) /\
    (forall q, fs w !! q <> Some Dir -> fs w2 !! q <> Some Dir)).
  { destruct (find_app nm (saved_apps w)) as [[i a]|].
    - destruct (run_remove_recorded (activation_script a) w0)
        as (w1 & Hr1 & Ha1 & He1 & _ & Hother1 & Hat1).
      destruct (run_remove_recorded (launcher_script a) w1)
        as (w2 & Hr2 & Ha2 & He2 & _ & Hother2 & Hat2).
      exists w2. rewrite (bind_ok _ _ _ _ _ Hr1).
      split; [exact Hr2|]. split; [congruence|]. split; [congruence|].
      assert (Hkeep : forall q, fs w2 !! q = fs w !! q \/ fs w2 !! q = None).
      { intros q.
        destruct (decide (launcher_script a = Some q)) as [Hl|Hl].
        - rewrite (Hat2 q Hl). destruct (removable w1 q); [now right|].
          destruct (decide (activation_script a = Some q)) as [Ha|Ha].
          + rewrite (Hat1 q Ha), Hfs0.
            destruct (removable w0 q); [now right | now left].
          + rewrite (Hother1 q Ha), Hfs0. now left.
        - rewrite (Hother2 q Hl).
          destruct (decide (activation_script a = Some q)) as [Ha|Ha].
          + rewrite (Hat1 q Ha), Hfs0.
            destruct (removable w0 q); [now right | now left].
          + rewrite (Hother1 q Ha), Hfs0. now left. }
      split; [|split].
      + intros q Hq. rewrite elem_of_app in Hq.
        rewrite Hother2, Hother1, Hfs0; [reflexivity|..];
          intros Heq; apply Hq; rewrite Heq; [left | right];
          apply list_elem_of_here.
      + intros p Hp Hrem. rewrite elem_of_app in Hp.
        assert (Hrem0 : removable w0 p = true)
          by (unfold removable in *; now rewrite Hfs0).
        destruct (decide (launcher_script a = Some p)) as [Hl|Hl].
        * rewrite (Hat2 p Hl). destruct (removable w1 p) eqn:Hrem1;
            [reflexivity|].
          destruct (decide (activation_script a = Some p)) as [Ha|Ha].
          -- now rewrite (Hat1 p Ha), Hrem0.
          -- unfold removable in Hrem1, Hrem0.
             rewrite (Hother1 p Ha) in Hrem1. congruence.
        * destruct Hp as [Hp|Hp].
          -- assert (Ha : activation_script a = Some p).
             { destruct (activation_script a); cbn in Hp;
                 [apply list_elem_of_singleton in Hp; now subst
                 | inversion Hp]. }
             rewrite (Hother2 p Hl). now rewrite (Hat1 p Ha), Hrem0.
          -- exfalso. apply Hl. destruct (launcher_script a); cbn in Hp;
               [apply list_elem_of_singleton in Hp; now subst | inversion Hp].
      + intros q Hq. destruct (Hkeep q) as [-> | ->]; [exact Hq | discriminate].
    - exists w0. split; [reflexivity|]. split; [exact Happs0|].
      split; [reflexivity|]. split; [intros q _; now rewrite Hfs0|].
      split; [intros p Hp; inversion Hp|]. intros q Hq. now rewrite Hfs0. }
  destruct Hrm as (w2 & Hrm & Happs2 & Hev2 & Hother & Hgone & Hdir).
  rewrite (bind_ok _ _ _ _ _ Hrm), bind_modify.
  set (w3 := with_saved_apps _ w2).
  assert (Happs3 : saved_apps w3 = without nm (saved_apps w)).
  { unfold w3, without. cbn. now rewrite Happs2. }
  destruct (save_apps_frame w3)
    as (w4 & Hsave & Happs4 & _ & Hfs4 & Hev4 & _).
  rewrite (bind_ok _ _ _ _ _ Hsave). unfold refresh_apps_list.
  rewrite bind_assoc, bind_gets, bind_log, run_log.
  eexists. split; [reflexivity|].
  rewrite !logged_apps, !logged_fs, !logged_events.
  split; [congruence|]. split; [|split].
  - intros q Hq Hnot. rewrite (Hfs4 q Hq). now apply Hother.
  - intros p Hp Hin Hrem. rewrite (Hfs4 p Hp). now apply Hgone.
  - intros Hw. destruct Hev4 as [Hev4 _].
    { destruct Hw as [Hcan Hnd]. split; [exact Hcan|]. now apply Hdir. }
    rewrite Hev4, Happs3. unfold w3. cbn [events with_saved_apps].
    rewrite Hev2, Hev0, <- app_assoc. reflexivity.
Qed.

Lemma without_names (nm : string) (apps : list app) :
  (nm ∉ names (without nm apps)) /\
  (forall a, a ∈ apps -> name a <> nm -> a ∈ without nm apps) /\
  without nm apps `sublist_of` apps.
Proof.
  unfold without, names. split; [|split].
  - intros Hin. apply list_elem_of_fmap in Hin as (a & Hn & Ha).
    apply list_elem_of_filter in Ha as [Hne _]. now apply Hne.
  - intros a Ha Hne. apply list_elem_of_filter. now split.
  - apply sublist_filter.
Qed.


(** ** Deleting a desktop entry *)

Definition desktop_question (app_name : string) : string :=
  "Delete desktop file for '" +:+ app_name +:+ "'?".

Lemma delete_desktop_file_nothing (nm : string) (w : World) :
  answers E (asked w) = false \/
  find_app nm (saved_apps w) = None \/
  (exists i a, find_app nm (saved_apps w) = Some (i, a) /\
               desktop_file a = None) ->
  delete_desktop_file E (Some nm) w
  = (Ok tt, questioned "Confirm" (desktop_question nm) w).
Proof.
  intros H. unfold delete_desktop_file. fold (desktop_question nm).
  rewrite bind_ask. destruct (answers E (asked w)) eqn:Hans; [|reflexivity].
  rewrite bind_gets.
  change (saved_apps (questioned "Confirm" (desktop_question nm) w))
    with (saved_apps w).
  destruct H as [H|[->|(i & a & -> & ->)]]; [discriminate | reflexivity..].
Qed.

Lemma delete_desktop_file_done (nm : string) (w : World) (i : nat) (a : app)
  (p : string) :
  answers E (asked w) = true ->
  find_app nm (saved_apps w) = Some (i, a) -> desktop_file a = Some p ->
  removable w p = true \/ fs w !! p = None ->
  exists w',
    delete_desktop_file E (Some nm) w = (Ok tt, w') /\
    saved_apps w' = <[i := set_desktop_file None a]> (saved_apps w) /\
    (p <> apps_file E -> fs w' !! p = None) /\
    (forall q, q <> p -> q <> apps_file E -> fs w' !! q = fs w !! q).
Proof.
  intros Hyes Hfind Hp Hcase. unfold delete_desktop_file.
  fold (desktop_question nm). rewrite bind_ask, Hyes. cbv iota.
  set (w0 := questioned "Confirm" (desktop_question nm) w).
  assert (Hfs0 : fs w0 = fs w) by reflexivity.
  assert (Happs0 : saved_apps w0 = saved_apps w) by reflexivity.
  clearbody w0. rewrite bind_gets, Happs0, Hfind, Hp. unfold catch.
  rewrite bind_exists.
  assert (Hrm : exists w1,
    (if path_exists w0 p
     then remove_file E p;;
          desktop_log E ("✓ Deleted: " +:+ basename p) "success"
     else ret tt) w0 = (Ok tt, w1) /\
    saved_apps w1 = saved_apps w /\ fs w1 !! p = None /\
    (forall q, q <> p -> fs w1 !! q = fs w !! q)).
  { destruct Hcase as [Hrem|Hnone].
    - unfold removable in Hrem.
      destruct (fs w !! p) as [[c m|]|] eqn:Hfile; try discriminate.
      rewrite (path_exists_Some w0 p (File c m)) by now rewrite Hfs0.
      unfold remove_file. rewrite bind_assoc, bind_gets, Hfs0, Hfile, Hrem.
      rewrite bind_modify. eexists. split; [reflexivity|].
      cbn [saved_apps fs with_fs with_desktop_console with_ticks].
      split; [exact Happs0|]. split; [apply lookup_delete_eq|].
      intros q Hq. now rewrite lookup_delete_ne by congruence.
    - rewrite (path_exists_None w0 p) by now rewrite Hfs0.
      exists w0. split; [reflexivity|]. split; [exact Happs0|].
      split; [now rewrite Hfs0|]. intros q _. now rewrite Hfs0. }
  destruct Hrm as (w1 & Hrm & Happs1 & Hgone & Hother).
  rewrite (bind_ok _ _ _ _ _ Hrm).
  unfold store_app. rewrite bind_modify.
  set (w2 := with_saved_apps _ w1).
  destruct (save_apps_frame w2) as (w3 & -> & Happs3 & _ & Hfs3 & _).
  exists w3. split; [reflexivity|]. split.
  { rewrite Happs3. unfold w2. cbn. now rewrite Happs1. }
  split.
  - intros Hne. now rewrite (Hfs3 p Hne).
  - intros q Hq Hne. rewrite (Hfs3 q Hne). now apply Hother.
Qed.

Lemma delete_desktop_file_failed (nm : string) (w : World) (i : nat) (a : app)
  (p : string) :
  answers E (asked w) = true ->
  find_app nm (saved_apps w) = Some (i, a) -> desktop_file a = Some p ->
  is_Some (fs w !! p) -> removable w p = false ->
  exists w',
    delete_desktop_file E (Some nm) w = (Ok tt, w') /\
    saved_apps w' = saved_apps w /\ fs w' = fs w /\
    events w' = events w ++ [Ask "Confirm" (desktop_question nm) true].
Proof.
  intros Hyes Hfind Hp Hthere Hrem. unfold delete_desktop_file.
  fold (desktop_question nm). rewrite bind_ask, Hyes. cbv iota.
  set (w0 := questioned "Confirm" (desktop_question nm) w).
  assert (Hfs0 : fs w0 = fs w) by reflexivity.
  assert (Happs0 : saved_apps w0 = saved_apps w) by reflexivity.
  assert (Hev0 : events w0
                 = events w ++ [Ask "Confirm" (desktop_question nm) true]).
  { unfold w0, questioned. cbn. now rewrite Hyes. }
  clearbody w0. rewrite bind_gets, Happs0, Hfind, Hp. unfold catch.
  rewrite bind_exists.
  destruct Hthere as [n Hn].
  rewrite (path_exists_Some w0 p n) by now rewrite Hfs0.
  unfold remove_file. rewrite !bind_assoc, bind_gets, Hfs0.
  unfold removable in Hrem. rewrite Hn in *.
  destruct n as [c m|]; [rewrite Hrem|]; rewrite bind_raise;
    (eexists; split; [reflexivity|]);
    cbn [saved_apps fs events with_desktop_console with_ticks]; auto.
Qed.


(** ** Desktop entries *)

(** The world after a line in the log of the desktop tab. *)
Definition noted (message tag : string) (w : World) : World :=
  with_desktop_console
    (desktop_console w ++ [(timestamped (now E (ticks w)) message, tag)])
    (with_ticks (S (ticks w)) w).

Lemma run_note (message tag : string) (w : World) :
  desktop_log E message tag w = (Ok tt, noted message tag w).
Proof. reflexivity. Qed.

Lemma bind_note {B : Type} (message tag : string) (k : unit -> M B) (w : World) :
  bind (desktop_log E message tag) k w = k tt (noted message tag w).
Proof. reflexivity. Qed.






(** X24. A colour code that [hex_to_rgb] rejects does not stop the
    desktop entry: the generated-icon branch of [create_desktop_file]
    then returns normally with the default icon name and the descriptor
    unchanged, writes no file (it creates at most the icons directory)
    and leaves the registry alone. *)
Theorem generated_icon_bad_colour (a : app) (v : form) (w : World) (e : exn) :
  IconGenerator.hex_to_rgb (or_default (bg_color_var v) "#4285F4") = Raise e \/
  (exists c,
     IconGenerator.hex_to_rgb (or_default (bg_color_var v) "#4285F4") = Ok c /\
     IconGenerator.hex_to_rgb (or_default (text_color_var v) "#FFFFFF") = Raise e) ->
  exists w',
    generated_icon E a v w = (Ok (a, default_icon), w') /\
    saved_apps w' = saved_apps w /\
    (forall q, q <> icons_dir E -> fs w' !! q = fs w !! q) /\
    (forall q content, Write q content ∈ events w' -> Write q content ∈ events w).
Proof.
  intros Hbad. unfold generated_icon, catch, get_icon_path.
  rewrite !bind_assoc.
  assert (Hmk : exists r w1,
            makedirs E (icons_dir E) w = (r, w1) /\ saved_apps w1 = saved_apps w /\
            (forall q, q <> icons_dir E -> fs w1 !! q = fs w !! q) /\
            (forall q content, Write q content ∈ events w1 ->
                               Write q content ∈ events w)).
  { unfold makedirs. rewrite bind_gets.
    destruct (fs w !! icons_dir E) as [[c m|]|];
      [eexists _, _; split; [reflexivity|]; auto| |].
    - eexists _, _; split; [reflexivity|]; auto.
    - destruct (can_write E (icons_dir E));
        [|eexists _, _; split; [reflexivity|]; auto].
      rewrite bind_modify. eexists _, _. split; [reflexivity|].
      cbn [saved_apps fs events with_fs with_events].
      split; [reflexivity|]. split.
      + intros q Hq. now rewrite lookup_insert_ne by congruence.
      + intros q content Hin. apply elem_of_app in Hin as [Hin|Hin];
          [exact Hin|]. apply list_elem_of_singleton in Hin. discriminate. }
  destruct Hmk as (r & w1 & Hmk & Happs1 & Hfs1 & Hev1).
  unfold bind at 1. rewrite Hmk. destruct r as [[]|e0].
  - rewrite bind_ret, bind_gets.
    assert (Hgen : forall ex size nm b g,
              IconGenerator.generate_icon ex size nm
                (IconGenerator.HexColor (or_default (bg_color_var v) "#4285F4"))
                (IconGenerator.HexColor (or_default (text_color_var v) "#FFFFFF"))
                b g = Raise e).
    { intros. unfold IconGenerator.generate_icon, IconGenerator.resolve_color.
      destruct Hbad as [->|(c & -> & Hfg)]; [reflexivity|].
      cbn [rbind]. now rewrite Hfg. }
    rewrite Hgen. unfold lift, bind at 1. rewrite bind_note.
    eexists. split; [reflexivity|].
    cbn [saved_apps fs events noted with_desktop_console with_ticks]. auto.
  - rewrite bind_note. eexists. split; [reflexivity|].
    cbn [saved_apps fs events noted with_desktop_console with_ticks]. auto.
Qed.


(** ** Desktop entries for the whole registry *)

Ltac returns_step :=
  lazymatch goal with
  | |- returns _ (ret _) => apply returns_ret
  | |- returns _ (bind _ _) => apply returns_seq; intros
  | |- returns _ (catch _ _) => apply returns_catch; [|intros]
  | |- returns _ (if ?b then _ else _) => destruct b
  end.

(** The loop of [generate_and_refresh_desktop] changes nothing that
    identifies an entry, however far it gets. *)
Lemma desktop_files_from_frame {B : Type} (f : app -> B) :
  (forall a a', same_identity a a' -> f a' = f a) ->
  forall (n i : nat) (counts : nat * nat) (w : World),
    f <$> saved_apps (desktop_files_from E i n counts w).2 = f <$> saved_apps w.
Proof.
  intros Hf n. induction n as [|n IH]; intros i counts w; [reflexivity|].
  cbn [desktop_files_from]. rewrite bind_gets.
  destruct (saved_apps w !! i) as [a|] eqn:Hi; [|reflexivity].
  pose proof (keeps_create_desktop_file E a w) as K.
  pose proof (create_desktop_file_identity E a w) as R.
  unfold bind at 1.
  destruct (create_desktop_file E a w) as [[r|e] w1]; cbn [fst snd] in K, R;
    [|cbn [snd]; now rewrite K].
  unfold store_app. rewrite bind_modify, IH.
  cbn [saved_apps with_saved_apps]. rewrite K.
  eapply fmap_insert_same; [exact Hi | now apply Hf].
Qed.

(** Computations that return normally from every world. *)
Definition sure {A : Type} (m : M A) : Prop :=
  forall w, exists a w', m w = (Ok a, w').

Lemma sure_ret {A : Type} (a : A) : sure (ret a).
Proof. intros w. now eexists _, _. Qed.

Lemma sure_gets {A : Type} (f : World -> A) : sure (gets f).
Proof. intros w. now eexists _, _. Qed.

Lemma sure_modify (f : World -> World) : sure (modify f).
Proof. intros w. now eexists _, _. Qed.

Lemma sure_bind {A B : Type} (m : M A) (k : A -> M B) :
  sure m -> (forall a, sure (k a)) -> sure (bind m k).
Proof.
  intros Hm Hk w. destruct (Hm w) as (a & w1 & H).
  rewrite (bind_ok _ _ _ _ _ H). apply Hk.
Qed.

Lemma sure_catch {A : Type} (m : M A) (h : exn -> M A) :
  (forall e, sure (h e)) -> sure (catch m h).
Proof.
  intros Hh w. unfold catch. destruct (m w) as [[a|e] w1]; [now eexists _, _|].
  apply Hh.
Qed.

Lemma sure_desktop_log (message tag : string) : sure (desktop_log E message tag).
Proof. intros w. now eexists _, _. Qed.

Ltac sure_step :=
  lazymatch goal with
  | |- sure (ret _) => apply sure_ret
  | |- sure (gets _) => apply sure_gets
  | |- sure (exists_ _) => apply sure_gets
  | |- sure (modify _) => apply sure_modify
  | |- sure (emit _) => apply sure_modify
  | |- sure (desktop_log _ _ _) => apply sure_desktop_log
  | |- sure (bind _ _) => apply sure_bind; [|intros]
  | |- sure (catch _ _) => apply sure_catch; intros
  | |- sure (if ?b then _ else _) => destruct b
  | |- sure (match ?x with _ => _ end) => destruct x
  end.

(** Computations that leave the directory [d] a directory. *)
Definition steady (d : string) {A : Type} (m : M A) : Prop :=
  forall w, fs w !! d = Some Dir -> fs (m w).2 !! d = Some Dir.

Lemma steady_same (d : string) {A : Type} (m : M A) :
  (forall w, fs (m w).2 = fs w) -> steady d m.
Proof. intros H w Hd. now rewrite H. Qed.

Lemma steady_bind (d : string) {A B : Type} (m : M A) (k : A -> M B) :
  steady d m -> (forall a, steady d (k a)) -> steady d (bind m k).
Proof.
  intros Hm Hk w Hd. unfold bind. specialize (Hm w Hd).
  destruct (m w) as [[a|e] w1]; cbn [snd] in *; [now apply Hk | exact Hm].
Qed.

Lemma steady_catch (d : string) {A : Type} (m : M A) (h : exn -> M A) :
  steady d m -> (forall e, steady d (h e)) -> steady d (catch m h).
Proof.
  intros Hm Hh w Hd. unfold catch. specialize (Hm w Hd).
  destruct (m w) as [[a|e] w1]; cbn [snd] in *; [exact Hm | now apply Hh].
Qed.

Lemma steady_write_file (d path content : string) :
  steady d (write_file E path content).
Proof.
  intros w Hd. unfold write_file. rewrite bind_gets.
  destruct (fs w !! path) as [[c m|]|] eqn:Hp; [|exact Hd|];
    (destruct (can_write E path); [|exact Hd]);
    rewrite bind_modify; cbn [snd fs emit modify with_events with_fs];
    rewrite lookup_insert_ne; congruence.
Qed.

Lemma steady_chmod (d path : string) (mode : Z) : steady d (chmod path mode).
Proof.
  intros w Hd. unfold chmod. rewrite bind_gets.
  destruct (fs w !! path) as [[c m|]|] eqn:Hp; [|exact Hd..].
  rewrite bind_modify. cbn [snd fs emit modify with_events with_fs].
  rewrite lookup_insert_ne; congruence.
Qed.

Lemma steady_makedirs (d path : string) : steady d (makedirs E path).
Proof.
  intros w Hd. unfold makedirs. rewrite bind_gets.
  destruct (fs w !! path) as [[c m|]|] eqn:Hp; [exact Hd..|].
  destruct (can_write E path); [|exact Hd].
  rewrite bind_modify. cbn [snd fs emit modify with_events with_fs].
  rewrite lookup_insert_ne; congruence.
Qed.

Ltac steady_step :=
  lazymatch goal with
  | |- steady _ (ret _) => apply steady_same; reflexivity
  | |- steady _ (raise _) => apply steady_same; reflexivity
  | |- steady _ (gets _) => apply steady_same; reflexivity
  | |- steady _ (exists_ _) => apply steady_same; reflexivity
  | |- steady _ (lift _) => apply steady_same; reflexivity
  | |- steady _ (desktop_log _ _ _) => apply steady_same; reflexivity
  | |- steady _ (log_to_console _ _ _) => apply steady_same; reflexivity
  | |- steady _ (write_file _ _ _) => apply steady_write_file
  | |- steady _ (chmod _ _) => apply steady_chmod
  | |- steady _ (makedirs _ _) => apply steady_makedirs
  | |- steady _ (bind _ _) => apply steady_bind; [|intros]
  | |- steady _ (catch _ _) => apply steady_catch; [|intros]
  | |- steady _ (if ?b then _ else _) => destruct b
  | |- steady _ (match ?x with _ => _ end) => destruct x
  end.

Lemma steady_create_desktop_file (d : string) (a : app) :
  steady d (create_desktop_file E a).
Proof.
  unfold create_desktop_file, create_activation_script, generated_icon,
    custom_icon, system_icon, get_icon_path.
  repeat steady_step.
Qed.

Lemma create_desktop_file_launcher (a : app) :
  returns (fun r => launcher_script r.1 = launcher_script a)
    (create_desktop_file E a).
Proof.
  unfold create_desktop_file.
  apply returns_seq; intros _. apply returns_seq; intros launcher.
  apply returns_seq; intros v.
  apply (returns_bind (fun r => launcher_script r.1 = launcher_script a)).
  - unfold generated_icon, custom_icon, system_icon.
    repeat returns_step; reflexivity.
  - intros [a' icon] Ha'. cbn [fst] in Ha'.
    repeat returns_step; cbn [fst]; exact Ha'.
Qed.

(** The desktop directory is there and every entry has its launcher
    recorded: nothing stands in the way of [create_desktop_file]. *)
Definition ready (w : World) : Prop :=
  fs w !! desktop_files_dir E = Some Dir /\
  Forall (fun a => is_Some (launcher_script a)) (saved_apps w).

Lemma create_desktop_file_sure (a : app) (w : World) :
  fs w !! desktop_files_dir E = Some Dir -> is_Some (launcher_script a) ->
  exists r w', create_desktop_file E a w = (Ok r, w').
Proof.
  intros Hdir [p Hp]. unfold create_desktop_file, makedirs.
  rewrite bind_assoc, bind_gets, Hdir, bind_ret, Hp, bind_ret.
  match goal with
  | |- exists r w', ?m w = _ => assert (Hs : sure m); [|apply Hs]
  end.
  unfold generated_icon, custom_icon, system_icon. repeat sure_step.
Qed.

Lemma desktop_files_from_sure (n i : nat) (counts : nat * nat) (w : World) :
  ready w ->
  exists c e w',
    desktop_files_from E i n counts w = (Ok (c, e), w') /\
    (c + e = counts.1 + counts.2 + Nat.min n (length (saved_apps w) - i))%nat.
Proof.
  revert i counts w. induction n as [|n IH]; intros i [c0 e0] w [Hdir Hall].
  - exists c0, e0, w. split; [reflexivity|]. cbn. lia.
  - cbn [desktop_files_from]. rewrite bind_gets.
    destruct (saved_apps w !! i) as [a|] eqn:Hi; cycle 1.
    { exists c0, e0, w. split; [reflexivity|].
      apply lookup_ge_None in Hi. cbn [fst snd]. lia. }
    assert (Hlau : is_Some (launcher_script a)).
    { rewrite Forall_lookup in Hall. exact (Hall i a Hi). }
    destruct (create_desktop_file_sure a w Hdir Hlau) as (r & w1 & Hrun).
    pose proof (keeps_create_desktop_file E a w) as K.
    pose proof (create_desktop_file_launcher a w) as L.
    pose proof (steady_create_desktop_file (desktop_files_dir E) a w Hdir) as D.
    rewrite Hrun in K, L, D. cbn [fst snd] in K, L, D.
    rewrite (bind_ok _ _ _ _ _ Hrun). unfold store_app. rewrite bind_modify.
    set (w2 := with_saved_apps _ w1).
    assert (Hready : ready w2).
    { split; [exact D|]. unfold w2. cbn [saved_apps with_saved_apps].
      rewrite K. apply Forall_insert; [exact Hall | now rewrite L]. }
    assert (Hlen : length (saved_apps w2) = length (saved_apps w)).
    { unfold w2. cbn [saved_apps with_saved_apps].
      now rewrite length_insert, K. }
    apply lookup_lt_Some in Hi.
    match goal with
    | |- context [desktop_files_from E (S i) n ?cs w2] =>
        destruct (IH (S i) cs w2 Hready) as (c & e & w' & -> & Hsum)
    end.
    exists c, e, w'. split; [reflexivity|]. rewrite Hlen in Hsum.
    cbn [fst snd]. destruct r.2; cbn [fst snd] in Hsum; lia.
Qed.

(** The closing dialog of [generate_and_refresh_desktop]. *)
Definition bulk_report (c e : nat) : string :=
  "Desktop files generated!" +:+ nl +:+ nl
  +:+ "Created: " +:+ str_of_nat c +:+ nl
  +:+ "Failed: " +:+ str_of_nat e +:+ nl +:+ nl
  +:+ "Your applications should now appear in the Applications menu.".

Lemma generate_and_refresh_desktop_frame {B : Type} (f : app -> B) :
  (forall a a', same_identity a a' -> f a' = f a) ->
  forall w,
    f <$> saved_apps (generate_and_refresh_desktop E w).2 = f <$> saved_apps w.
Proof.
  intros Hf w. unfold generate_and_refresh_desktop. rewrite bind_gets.
  destruct (saved_apps w) as [|a0 apps] eqn:Happs;
    [cbn [snd showinfo emit modify saved_apps with_events]; now rewrite Happs|].
  rewrite bind_note. unfold bind at 1.
  match goal with
  | |- context [desktop_files_from E 0 ?n ?c ?w0] =>
      pose proof (desktop_files_from_frame f Hf n 0 c w0) as Hn;
      destruct (desktop_files_from E 0 n c w0) as [[counts|e] w1]
  end; cbn [snd] in Hn; cbn [saved_apps noted with_desktop_console
                              with_ticks] in Hn.
  - match goal with
    | |- context [(?m w1).2] =>
        assert (Hk : keeps m); [|rewrite (Hk w1), <- Happs; exact Hn]
    end.
    apply keeps_bind; [apply keeps_save_apps|]. intros _.
    apply keeps_bind.
    { unfold update_desktop_database. apply keeps_catch.
      - apply keeps_bind; [apply keeps_popen | intros; apply keeps_desktop_log].
      - intros; apply keeps_desktop_log. }
    intros _. apply keeps_bind; [apply keeps_desktop_log|]. intros _.
    apply keeps_emit.
  - cbn [snd]. rewrite <- Happs. exact Hn.
Qed.

Lemma generate_and_refresh_desktop_sure (w : World) :
  ready w -> saved_apps w <> [] ->
  exists c e w',
    generate_and_refresh_desktop E w = (Ok tt, w') /\
    (c + e = length (saved_apps w))%nat /\
    last (events w') = Some (Message "info" "Success" (bulk_report c e)).
Proof.
  intros Hready Hne. unfold generate_and_refresh_desktop. rewrite bind_gets.
  destruct (saved_apps w) as [|a0 apps] eqn:Happs; [contradiction|].
  rewrite <- Happs. rewrite bind_note.
  assert (Hready0 : ready (noted "Starting desktop file generation for all apps..."
                             "info" w)) by exact Hready.
  destruct (desktop_files_from_sure (length (saved_apps w)) 0 (0%nat, 0%nat)
              _ Hready0) as (c & e & w1 & Hloop & Hsum).
  rewrite (bind_ok _ _ _ _ _ Hloop).
  destruct (save_apps_frame w1) as (w2 & Hsave & _).
  rewrite (bind_ok _ _ _ _ _ Hsave).
  assert (Hdb : sure (update_desktop_database E)).
  { unfold update_desktop_database. apply sure_catch. intros e0.
    apply sure_desktop_log. }
  destruct (Hdb w2) as ([] & w3 & Hupd).
  rewrite (bind_ok _ _ _ _ _ Hupd), bind_note.
  exists c, e. eexists. split; [reflexivity|]. split.
  - cbn [saved_apps noted with_desktop_console with_ticks fst snd] in Hsum.
    rewrite Hsum. lia.
  - cbn [events with_events]. now rewrite last_snoc.
Qed.


(** ** The registry keeps its names apart *)

Lemma delete_selected_app_registry (selection : option string) (w : World) :
  saved_apps (delete_selected_app E selection w).2 = saved_apps w \/
  exists nm, saved_apps (delete_selected_app E selection w).2
             = without nm (saved_apps w).
Proof.
  destruct selection as [nm|]; [|now left].
  destruct (answers E (asked w)) eqn:Hans.
  - right. exists nm. destruct (delete_confirmed nm w Hans) as (w' & -> & H & _).
    exact H.
  - left. now rewrite (delete_declined nm w Hans).
Qed.

Lemma delete_desktop_file_touched (selection : option string) (w : World) :
  touched (saved_apps w) (saved_apps (delete_desktop_file E selection w).2).
Proof.
  destruct selection as [nm|]; [|now left].
  destruct (answers E (asked w)) eqn:Hans;
    [|left; rewrite delete_desktop_file_nothing; auto].
  destruct (find_app nm (saved_apps w)) as [[i a]|] eqn:Hfind;
    [|left; rewrite delete_desktop_file_nothing; auto].
  destruct (desktop_file a) as [p|] eqn:Hp;
    [|left; rewrite delete_desktop_file_nothing; eauto 6].
  destruct (removable w p) eqn:Hrem.
  - destruct (delete_desktop_file_done nm w i a p Hans Hfind Hp)
      as (w' & -> & Happs & _); [now left|].
    right. exists i, a, (set_desktop_file None a).
    apply find_app_Some in Hfind as (Hi & _). repeat split; assumption.
  - destruct (fs w !! p) as [n|] eqn:Hfile.
    + destruct (delete_desktop_file_failed nm w i a p Hans Hfind Hp)
        as (w' & -> & Happs & _); [eauto | exact Hrem | now left].
    + destruct (delete_desktop_file_done nm w i a p Hans Hfind Hp)
        as (w' & -> & Happs & _); [now right|].
      right. exists i, a, (set_desktop_file None a).
      apply find_app_Some in Hfind as (Hi & _). repeat split; assumption.
Qed.

Lemma without_NoDup (nm : string) (apps : list app) :
  NoDup (names apps) -> NoDup (names (without nm apps)).
Proof.
  intros H. eapply sublist_NoDup; [exact H|]. unfold names, without.
  apply fmap_sublist, sublist_filter.
Qed.

(** The worlds the program can be in, every operation on the registry
    counted: it starts without duplicate names; what is outside the
    registry may change; any of the seven operations runs. *)
Inductive in_use (stamp : datetime -> string) : World -> Prop :=
| use_start (w : World) :
    NoDup (names (saved_apps w)) -> in_use stamp w
| use_outside (w w' : World) :
    in_use stamp w -> saved_apps w' = saved_apps w -> in_use stamp w'
| use_save (w : World) :
    in_use stamp w -> in_use stamp (save_and_create_script E w).2
| use_run (w : World) (selection : option string) :
    in_use stamp w -> in_use stamp (run_selected_app E selection w).2
| use_run_now (w : World) :
    in_use stamp w -> in_use stamp (run_now E stamp w).2
| use_delete (w : World) (selection : option string) :
    in_use stamp w -> in_use stamp (delete_selected_app E selection w).2
| use_desktop (w : World) (selection : option string) :
    in_use stamp w ->
    in_use stamp (generate_selected_desktop_file E selection w).2
| use_desktop_all (w : World) :
    in_use stamp w -> in_use stamp (generate_and_refresh_desktop E w).2
| use_desktop_delete (w : World) (selection : option string) :
    in_use stamp w -> in_use stamp (delete_desktop_file E selection w).2.

(** X27. No two entries of the registry have the same name, whichever
    of the seven operations on the registry have run: saving, running a
    saved app, running the form, deleting an app, generating one or all
    desktop entries, deleting a desktop entry. *)
Theorem in_use_NoDup (stamp : datetime -> string) (w : World) :
  in_use stamp w -> NoDup (names (saved_apps w)).
Proof.
  induction 1 as [w H0 | w w' _ IH Heq | w _ IH | w sel _ IH | w _ IH
                 | w sel _ IH | w sel _ IH | w _ IH | w sel _ IH].
  - exact H0.
  - now rewrite Heq.
  - eapply upserted_NoDup; [apply save_outcome | exact IH].
  - now rewrite (touched_names _ _ (run_outcome E sel w)).
  - now rewrite keeps_run_now.
  - destruct (delete_selected_app_registry sel w) as [->|[nm ->]];
      [exact IH | now apply without_NoDup].
  - now rewrite (touched_names _ _ (desktop_outcome E sel w)).
  - unfold names.
    rewrite (generate_and_refresh_desktop_frame name
               ltac:(intros ? ? H; apply H) w). exact IH.
  - now rewrite (touched_names _ _ (delete_desktop_file_touched sel w)).
Qed.


(** ** The properties of the other operations *)

(** What [run_now] does when it runs: see X18. *)
Definition ran_now (stamp : datetime -> string) (w w' : World) : Prop :=
  let cfg := temp_app stamp w in
  let act := activation_path E (name cfg) in
  saved_apps w' = saved_apps w /\
  events w' =
    events w ++ (Write act (activation_content E cfg) :: chmods E act)
             ++ launch_events E act /\
  content_at w' act = Some (activation_content E cfg) /\
  (forall q, q <> act -> fs w' !! q = fs w !! q).

(** X18. [run_now] never changes the registry.  With an empty
    environment or script field it only shows an error.  Otherwise it
    does not check that the two paths exist: it writes the activation
    script of the form's descriptor (named [Temp_] and the time of day
    when the name field is empty), makes it executable, and starts that
    script itself in the terminal; no launcher script is written and no
    other file changes. *)
Theorem run_now_spec (stamp : datetime -> string) (w : World) :
  saved_apps (run_now E stamp w).2 = saved_apps w /\
  (is_empty (strip (venv_path_var (vars w))) = true \/
   is_empty (strip (script_path_var (vars w))) = true ->
   exists text,
     run_now E stamp w
     = (Ok tt, with_events (events w ++ [Message "error" "Error" text]) w)) /\
  (is_empty (strip (venv_path_var (vars w))) = false ->
   is_empty (strip (script_path_var (vars w))) = false ->
   writable E w (activation_path E (name (temp_app stamp w))) ->
   exists w', run_now E stamp w = (Ok tt, w') /\ ran_now stamp w w').
Proof.
  split; [apply keeps_run_now|]. split; [apply run_now_rejected|].
  exact (run_now_outcome stamp w).
Qed.

(** X19. Deleting an app from the registry.  When the user declines,
    [delete_selected_app] only asks its question.  When the user
    confirms, it returns normally and the registry is the old one
    without the entries of that name: no entry of the name is left, and
    every other entry is kept, in the old order. *)
Theorem delete_selected_app_spec (nm : string) (w : World) :
  (answers E (asked w) = false ->
   delete_selected_app E (Some nm) w
   = (Ok tt, questioned "Confirm Delete" (delete_question nm) w)) /\
  (answers E (asked w) = true ->
   exists w',
     delete_selected_app E (Some nm) w = (Ok tt, w') /\
     saved_apps w' = without nm (saved_apps w) /\
     (nm ∉ names (saved_apps w')) /\
     (forall a, a ∈ saved_apps w -> name a <> nm -> a ∈ saved_apps w') /\
     saved_apps w' `sublist_of` saved_apps w).
Proof.
  split; [apply delete_declined|]. intros Hyes.
  destruct (delete_confirmed nm w Hyes) as (w' & Hrun & Happs & _).
  exists w'. split; [exact Hrun|]. split; [exact Happs|].
  rewrite Happs. apply without_names.
Qed.

(** X20. The files after deleting an app.  A confirmed deletion removes
    the script files recorded on the first entry of that name, where
    they are files the system lets go, and rewrites the registry file;
    every other file is left as it was, so the desktop entry and the
    icon of the app stay on disk, and so do the scripts of an entry
    that has no script path recorded. *)
Theorem delete_selected_app_files (nm : string) (w : World) :
  answers E (asked w) = true ->
  exists w',
    delete_selected_app E (Some nm) w = (Ok tt, w') /\
    (forall q, q <> apps_file E -> q ∉ recorded_scripts nm (saved_apps w) ->
               fs w' !! q = fs w !! q) /\
    (forall p, p <> apps_file E -> p ∈ recorded_scripts nm (saved_apps w) ->
               removable w p = true -> fs w' !! p = None) /\
    (writable E w (apps_file E) ->
     events w' =
       events w
       ++ [Ask "Confirm Delete" (delete_question nm) true;
           Write (apps_file E) (json_dump E (without nm (saved_apps w)))]).
Proof.
  intros Hyes.
  destruct (delete_confirmed nm w Hyes) as (w' & Hrun & _ & Hrest).
  exists w'. split; [exact Hrun | exact Hrest].
Qed.


(** X22. Desktop entries for the whole registry.
    [generate_and_refresh_desktop] changes no name and no creation time
    of the registry, whatever happens.  When the desktop directory
    exists and every entry has its launcher recorded, it returns
    normally for a registry that is not empty, and the numbers of
    created and failed entries it reports in its closing dialog add up
    to the number of entries. *)
Theorem generate_and_refresh_desktop_spec (w : World) :
  names (saved_apps (generate_and_refresh_desktop E w).2) = names (saved_apps w) /\
  created <$> saved_apps (generate_and_refresh_desktop E w).2
    = created <$> saved_apps w /\
  (ready w -> saved_apps w <> [] ->
   exists c e w',
     generate_and_refresh_desktop E w = (Ok tt, w') /\
     (c + e = length (saved_apps w))%nat /\
     last (events w') = Some (Message "info" "Success" (bulk_report c e))).
Proof.
  split; [|split].
  - apply (generate_and_refresh_desktop_frame name). intros a a' H. apply H.
  - apply (generate_and_refresh_desktop_frame created). intros a a' H. apply H.
  - apply generate_and_refresh_desktop_sure.
Qed.

(** X26. What a save stores is trimmed.  The name, environment and
    script of the descriptor built from the form are unchanged by
    [strip], blanks around a field of the form do not matter, and a
    form that is accepted gives a descriptor whose three fields are not
    empty. *)
Theorem stored_fields_trimmed :
  (forall v t,
     strip (name (new_app v t)) = name (new_app v t) /\
     strip (venv (new_app v t)) = venv (new_app v t) /\
     strip (script (new_app v t)) = script (new_app v t)) /\
  (forall b1 s b2,
     sall isspace b1 = true -> sall isspace b2 = true ->
     strip (b1 +:+ s +:+ b2) = strip s) /\
  (forall w,
     accepted w = true ->
     name (form_app w) <> EmptyString /\ venv (form_app w) <> EmptyString /\
     script (form_app w) <> EmptyString).
Proof.
  split; [|split].
  - intros v t. cbn [new_app name venv script].
    now rewrite !strip_idempotent.
  - exact strip_padding.
  - intros w H. destruct (accepted_true w H) as (H1 & H2 & H3 & _).
    cbn [form_app new_app name venv script].
    repeat split; intros Heq; rewrite Heq in *; discriminate.
Qed.

End Saving.

(** ** Instances *)

Definition blank_form : form :=
  Form EmptyString "/home/u/.venvs/demo" "/home/u/demo/app.py" EmptyString
       EmptyString "system" "#4285F4" "#FFFFFF" false true
       EmptyString "python" "Development" true.

Definition blank_world : World :=
  Build_World [] blank_form demo_disk 0 0 [] [] [].

(** An environment whose codec keeps one registry: the Demo descriptor
    as a first save at noon builds it. *)
Definition noon_demo : app :=
  App "Demo" "/home/u/.venvs/demo" "/home/u/demo/app.py" (Some "--flag")
      (Some "/home/u/demo") (Some "2024-06-01T12:00:00") None
      None None None None None None None.

Definition codec_env : Env :=
  {| system := "Linux";
     home := "/home/u";
     now := fun _ => DateTime "2024-06-01T12:00:00" "12:00:00";
     answers := fun _ => true;
     can_write := fun _ => true;
     can_spawn := fun _ => true;
     describe := fun _ => "error";
     json_dump := fun apps => String.concat "," (name <$> apps);
     json_load := fun s => if String.eqb s "Demo" then Some [noon_demo] else None;
     png := fun _ => "PNG" |}.

Lemma save_without_effect_witness :
  accepted blank_world = false /\
  exists text,
    save_and_create_script demo_env blank_world
    = (Ok tt,
       with_events (events blank_world ++ [Message "error" "Error" text])
         blank_world).
Proof.
  assert (H : accepted blank_world = false) by reflexivity.
  split; [exact H|].
  exact (proj1 (save_without_effect demo_env blank_world) H).
Defined.

Lemma demo_writable (E : Env) (p : string) :
  can_write E p = true -> fs fresh_world !! p = None -> writable E fresh_world p.
Proof. intros Hc Hp. split; [exact Hc|]. rewrite Hp. discriminate. Qed.



Lemma save_apps_safe_witness :
  writable demo_env demo_world (apps_file demo_env) /\
  save_apps demo_env demo_world
  = (Ok tt,
     written (apps_file demo_env) (json_dump demo_env (saved_apps demo_world))
       demo_world).
Proof.
  assert (H : writable demo_env demo_world (apps_file demo_env)).
  { split; [reflexivity | vm_compute; discriminate]. }
  split; [exact H | exact (proj1 (save_apps_safe demo_env demo_world) H)].
Defined.

Definition noon_world : World := with_saved_apps [noon_demo] fresh_world.

Lemma save_load_round_trip_witness :
  writable codec_env noon_world (apps_file codec_env) /\
  exists w1 w2,
    save_apps codec_env noon_world = (Ok tt, w1) /\
    load_apps codec_env w1 = (Ok tt, w2) /\
    saved_apps w2 = [noon_demo] /\ fs w2 = fs w1.
Proof.
  assert (H : writable codec_env noon_world (apps_file codec_env)).
  { split; [reflexivity | vm_compute; discriminate]. }
  split; [exact H|].
  apply (save_load_round_trip codec_env noon_world); [exact H | reflexivity].
Defined.

(** The Demo app saved by a first session, and then given its desktop
    entry. *)
Definition saved_world : World :=
  (save_and_create_script demo_env fresh_world).2.

Definition listed_world : World :=
  (generate_selected_desktop_file demo_env (Some "Demo") saved_world).2.


Definition noon_stamp (t : datetime) : string := "120000".

Lemma artifact_places_example :
  activation_path demo_env "/tmp/x" = "/tmp/x.sh" /\
  launcher_path demo_env "/tmp/x"
    = "/home/u/.python_app_launcher/scripts/launch_/tmp/x.sh".
Proof. split; reflexivity. Qed.

Lemma run_now_spec_witness :
  is_empty (strip (venv_path_var (vars fresh_world))) = false /\
  exists w', run_now demo_env noon_stamp fresh_world = (Ok tt, w') /\
             ran_now demo_env noon_stamp fresh_world w'.
Proof.
  split; [reflexivity|].
  apply (proj2 (proj2 (run_now_spec demo_env noon_stamp fresh_world)));
    [reflexivity | reflexivity|].
  apply demo_writable; [reflexivity | vm_compute; reflexivity].
Defined.

Lemma delete_selected_app_spec_witness :
  answers demo_env (asked saved_world) = true /\
  exists w',
    delete_selected_app demo_env (Some "Demo") saved_world = (Ok tt, w') /\
    saved_apps w' = without "Demo" (saved_apps saved_world) /\
    ("Demo" ∉ names (saved_apps w')) /\
    (forall a, a ∈ saved_apps saved_world -> name a <> "Demo" ->
               a ∈ saved_apps w') /\
    saved_apps w' `sublist_of` saved_apps saved_world.
Proof.
  split; [reflexivity|].
  exact (proj2 (delete_selected_app_spec demo_env "Demo" saved_world) eq_refl).
Defined.

Lemma delete_selected_app_files_witness :
  answers demo_env (asked saved_world) = true /\
  is_Some (fs saved_world !! demo_activation) /\
  exists w',
    delete_selected_app demo_env (Some "Demo") saved_world = (Ok tt, w') /\
    fs w' !! demo_activation = None.
Proof.
  split; [reflexivity|]. split; [vm_compute; eauto|].
  destruct (delete_selected_app_files demo_env "Demo" saved_world eq_refl)
    as (w' & Hrun & _ & Hgone & _).
  exists w'. split; [exact Hrun|]. apply Hgone.
  - intros H. vm_compute in H. discriminate.
  - vm_compute. apply list_elem_of_here.
  - vm_compute. reflexivity.
Defined.


Lemma listed_world_ready : ready demo_env listed_world.
Proof.
  split; [vm_compute; reflexivity|].
  assert (H : exists a p, saved_apps listed_world = [a] /\
                          launcher_script a = Some p).
  { eexists _, _. split; vm_compute; reflexivity. }
  destruct H as (a & p & -> & Hp). repeat constructor. rewrite Hp. eauto.
Defined.

Lemma generate_and_refresh_desktop_spec_witness :
  ready demo_env listed_world /\ saved_apps listed_world <> [] /\
  exists c e w',
    generate_and_refresh_desktop demo_env listed_world = (Ok tt, w') /\
    (c + e = length (saved_apps listed_world))%nat /\
    last (events w') = Some (Message "info" "Success" (bulk_report c e)).
Proof.
  assert (H : saved_apps listed_world <> [])
    by (intros H; vm_compute in H; discriminate).
  split; [exact listed_world_ready|]. split; [exact H|].
  exact (proj2 (proj2 (generate_and_refresh_desktop_spec demo_env listed_world))
           listed_world_ready H).
Defined.


Definition bad_colour_form : form :=
  Form "Demo" "/home/u/.venvs/demo" "/home/u/demo/app.py" "--flag"
       "/home/u/demo" "generate" "#GGGGGG" "#FFFFFF" false true
       EmptyString "python" "Development" true.

Lemma generated_icon_bad_colour_witness :
  IconGenerator.hex_to_rgb "#GGGGGG" = Raise ValueError /\
  exists w',
    generated_icon demo_env demo_app bad_colour_form fresh_world
    = (Ok (demo_app, default_icon), w') /\
    saved_apps w' = saved_apps fresh_world.
Proof.
  assert (H : IconGenerator.hex_to_rgb "#GGGGGG" = Raise ValueError)
    by reflexivity.
  split; [exact H|].
  destruct (generated_icon_bad_colour demo_env demo_app bad_colour_form
              fresh_world ValueError (or_introl H))
    as (w' & Hrun & Happs & _).
  exists w'. split; [exact Hrun | exact Happs].
Defined.

Lemma scripts_idempotent_witness :
  writable demo_env fresh_world (activation_path demo_env "Demo") /\
  exists w1 w2,
    create_activation_script demo_env demo_app fresh_world
      = (Ok demo_activation, w1) /\
    create_activation_script demo_env demo_app w1 = (Ok demo_activation, w2) /\
    fs w2 = fs w1.
Proof.
  assert (Ha : writable demo_env fresh_world (activation_path demo_env "Demo"))
    by (apply demo_writable; [reflexivity | vm_compute; reflexivity]).
  assert (Hl : writable demo_env fresh_world (launcher_path demo_env "Demo"))
    by (apply demo_writable; [reflexivity | vm_compute; reflexivity]).
  split; [exact Ha|].
  exact (proj1 (scripts_idempotent demo_env demo_app fresh_world Ha Hl)).
Defined.

Lemma stored_fields_trimmed_witness :
  accepted fresh_world = true /\
  strip ("  " +:+ "Demo" +:+ " ") = strip "Demo" /\
  name (form_app demo_env fresh_world) <> EmptyString.
Proof.
  assert (H : accepted fresh_world = true) by (vm_compute; reflexivity).
  split; [exact H|]. split.
  - exact (proj1 (proj2 (stored_fields_trimmed demo_env)) "  " "Demo" " "
             eq_refl eq_refl).
  - exact (proj1 (proj2 (proj2 (stored_fields_trimmed demo_env)) fresh_world H)).
Defined.

Lemma in_use_NoDup_witness :
  in_use demo_env noon_stamp
    (delete_selected_app demo_env (Some "Demo") saved_world).2 /\
  NoDup (names (saved_apps
                  (delete_selected_app demo_env (Some "Demo") saved_world).2)).
Proof.
  assert (H : in_use demo_env noon_stamp
                (delete_selected_app demo_env (Some "Demo") saved_world).2).
  { apply use_delete, use_save, use_start. constructor. }
  split; [exact H | exact (in_use_NoDup demo_env noon_stamp _ H)].
Defined.

End LauncherProps.

(* ================================================================== *)
(** * Preset styles of [IconGenerator] *)
(* ================================================================== *)

Module StyleProps.

Import IconGenerator PyFacts IconGeneratorSpec IconGeneratorProps.

Local Open Scope list_scope.

(** ** Preset styles *)

(** [str(k)] for a natural number. *)
Definition decimal (k : nat) : string := NilEmpty.string_of_uint (Nat.to_uint k).

Definition no_underscore (c : ascii) : bool := negb (Ascii.eqb c "_").

Lemma split_on_whole (cur s : string) :
  sall no_underscore s = true -> split_on "_" cur s = [cur +:+ s].
Proof.
  revert cur. induction s as [|c s IH]; intros cur Hs.
  - now rewrite append_nil_r.
  - cbn [sall] in Hs. apply andb_prop in Hs as [Hc Hs].
    unfold no_underscore in Hc. apply negb_true_iff in Hc.
    cbn [split_on]. rewrite Hc, IH by assumption. now rewrite append_snoc.
Qed.

(** The digits of [d], read after [acc]. *)
Definition read_after (acc : Z) (d : Decimal.uint) : Z :=
  Z.of_nat (Nat.of_uint_acc d (Z.to_nat acc)).

Lemma digits10_uint (d : Decimal.uint) (acc : Z) (count : nat) :
  0 <= acc ->
  digits10 acc count false (NilEmpty.string_of_uint d)
  = Some (read_after acc d, (count + Decimal.nb_digits d)%nat, EmptyString).
Proof.
  unfold read_after. revert acc count.
  induction d as [|d IH|d IH|d IH|d IH|d IH|d IH|d IH|d IH|d IH|d IH];
    intros acc count Hacc;
    [cbn; rewrite Nat.add_0_r, Z2Nat.id by lia; reflexivity | ..];
    cbn [NilEmpty.string_of_uint digits10 Decimal.nb_digits Nat.of_uint_acc];
    match goal with
    | |- context [dec_digit ?c] =>
        let v := eval vm_compute in (dec_digit c) in
        change (dec_digit c) with v
    end;
    cbv iota; rewrite IH by lia; rewrite Nat.tail_mul_spec;
    match goal with
    | |- Some (Z.of_nat (Nat.of_uint_acc d ?x), ?n, _)
         = Some (Z.of_nat (Nat.of_uint_acc d ?y), ?m, _) =>
        replace x with y by lia; replace n with m by lia; reflexivity
    end.
Qed.

Lemma decimal_digits (k : nat) :
  exists c r, decimal k = String c r /\
              int_isspace c = false /\ Ascii.eqb c "+" = false /\
              Ascii.eqb c "-" = false /\ Ascii.eqb c "_" = false.
Proof.
  unfold decimal.
  assert (Hne : Nat.to_uint k <> Decimal.Nil).
  { rewrite <- (DecimalNat.Unsigned.of_to k) at 1.
    rewrite DecimalNat.Unsigned.to_of. apply DecimalFacts.unorm_nonnil. }
  destruct (Nat.to_uint k); [contradiction|..]; eexists _, _;
    (split; [reflexivity|]); repeat split.
Qed.

Lemma decimal_no_underscore (d : Decimal.uint) :
  sall no_underscore (NilEmpty.string_of_uint d) = true.
Proof. induction d; cbn; auto. Qed.

Lemma eqb_auto_false (word rest : string) :
  sall no_underscore word = true ->
  String.eqb (word +:+ String "_" rest) "auto" = false.
Proof.
  intros Hw. apply String.eqb_neq. intros H.
  assert (Hs : sall no_underscore (word +:+ String "_" rest) = true)
    by now rewrite H.
  rewrite sall_append in Hs. apply andb_prop in Hs as [_ Hs]. discriminate Hs.
Qed.

Lemma split_on_first (cur s rest : string) :
  sall no_underscore s = true ->
  split_on "_" cur (s +:+ String "_" rest)
  = (cur +:+ s) :: split_on "_" EmptyString rest.
Proof.
  revert cur. induction s as [|c s IH]; intros cur Hs.
  - cbn. now rewrite append_nil_r.
  - cbn [sall] in Hs. apply andb_prop in Hs as [Hc Hs].
    unfold no_underscore in Hc. apply negb_true_iff in Hc.
    change ((String c s) +:+ String "_" rest) with (String c (s +:+ String "_" rest)).
    cbn [split_on]. rewrite Hc, IH by assumption.
    now rewrite append_snoc.
Qed.

Lemma decimal_length (d : Decimal.uint) :
  String.length (NilEmpty.string_of_uint d) = Decimal.nb_digits d.
Proof. induction d; cbn; auto. Qed.

Lemma int10_decimal (k : nat) :
  (String.length (decimal k) <= int_max_str_digits)%nat ->
  int10 (decimal k) = Ok (Z.of_nat k).
Proof.
  intros Hlen. destruct (decimal_digits k) as (c & r & Hk & Hs & Hp & Hm & Hu).
  unfold int10. rewrite Hk. cbn [lstrip_with]. rewrite Hs.
  cbn [skip_sign]. rewrite Hp, Hm. cbn [starts_with_underscore]. rewrite Hu.
  rewrite <- Hk. unfold decimal in *.
  rewrite digits10_uint by lia. rewrite decimal_length in Hlen.
  cbn [Nat.add].
  assert (Hpos : (0 < Decimal.nb_digits (Nat.to_uint k))%nat).
  { rewrite <- decimal_length, Hk. cbn. lia. }
  destruct (Nat.eqb_spec (Decimal.nb_digits (Nat.to_uint k)) 0); [lia|].
  destruct (Nat.ltb_spec int_max_str_digits (Decimal.nb_digits (Nat.to_uint k)));
    [lia|].
  cbn [sall]. unfold read_after.
  change (Nat.of_uint_acc (Nat.to_uint k) (Z.to_nat 0))
    with (Nat.of_uint (Nat.to_uint k)).
  now rewrite DecimalNat.Unsigned.of_to.
Qed.

Lemma palette_at (i : nat) :
  exists p, COLOR_PALETTES !! (i mod 10)%nat = Some p.
Proof.
  apply lookup_lt_is_Some_2. change (length COLOR_PALETTES) with 10%nat.
  apply Nat.mod_upper_bound. lia.
Qed.

Lemma style_palette_numbered_at (drawn k : nat) (word : string) :
  sall no_underscore word = true ->
  (String.length (decimal k) <= int_max_str_digits)%nat ->
  style_palette drawn (word +:+ String "_" (decimal k))
  = item COLOR_PALETTES ((k + 9) mod 10)%nat.
Proof.
  intros Hw Hk. unfold style_palette.
  rewrite eqb_auto_false by assumption.
  rewrite split_on_first by assumption.
  rewrite (split_on_whole EmptyString) by apply decimal_no_underscore.
  cbn [item lookup list_lookup]. cbn [rbind].
  change (EmptyString +:+ decimal k) with (decimal k).
  rewrite int10_decimal by assumption. cbn [rbind].
  change (length COLOR_PALETTES) with 10%nat.
  f_equal. change (Z.of_nat 10) with 10.
  replace (Z.of_nat k - 1) with (Z.of_nat (k + 9) + (-1) * 10) by lia.
  rewrite Z.mod_add by lia.
  rewrite <- (Nat2Z.id ((k + 9) mod 10)). f_equal.
  rewrite Nat2Z.inj_mod. reflexivity.
Qed.

(** X28. Numbered styles.  A style made of a word without underscore,
    an underscore and the decimal numeral of [k] draws with the palette
    at position [(k - 1) mod 10], whatever the word: [palette_1] to
    [palette_10] give the ten palettes in order, [palette_0] gives the
    last one and [palette_11] the first again.  The icon is the one
    [generate_icon] makes with that palette's two colours, not bold,
    with the gradient. *)
Theorem generate_icon_with_style_numbered
  (exists_ : string -> bool) (size drawn k : nat) (app_name word : string) :
  sall no_underscore word = true ->
  (String.length (decimal k) <= int_max_str_digits)%nat ->
  exists p,
    COLOR_PALETTES !! ((k + 9) mod 10)%nat = Some p /\
    generate_icon_with_style exists_ size drawn app_name
      (word +:+ String "_" (decimal k))
    = generate_icon exists_ size app_name (TupleColor p.1) (TupleColor p.2)
        false true.
Proof.
  intros Hw Hk. destruct (palette_at (k + 9)) as [p Hp]. exists p.
  split; [exact Hp|]. unfold generate_icon_with_style.
  rewrite style_palette_numbered_at by assumption.
  unfold item. rewrite Hp. reflexivity.
Qed.

(** X29. Styles that are refused.  A style other than [auto] with no
    underscore in it raises [IndexError], and a style that ends at its
    first underscore raises [ValueError]; in both cases nothing is
    drawn. *)
Theorem generate_icon_with_style_refused
  (exists_ : string -> bool) (size drawn : nat) (app_name : string) :
  (forall style,
     sall no_underscore style = true -> style <> "auto" ->
     generate_icon_with_style exists_ size drawn app_name style
     = Raise IndexError) /\
  (forall word,
     sall no_underscore word = true ->
     generate_icon_with_style exists_ size drawn app_name
       (word +:+ "_")
     = Raise ValueError).
Proof.
  split.
  - intros style Hs Hne. unfold generate_icon_with_style, style_palette.
    apply String.eqb_neq in Hne. rewrite Hne.
    rewrite (split_on_whole EmptyString) by assumption. reflexivity.
  - intros word Hw. unfold generate_icon_with_style, style_palette.
    rewrite eqb_auto_false by assumption.
    rewrite split_on_first by assumption. reflexivity.
Qed.

Lemma generate_icon_with_style_numbered_witness :
  exists p,
    COLOR_PALETTES !! 9%nat = Some p /\
    generate_icon_with_style (fun _ => false) 64 3 "Demo" "palette_0"
    = generate_icon (fun _ => false) 64 "Demo" (TupleColor p.1)
        (TupleColor p.2) false true.
Proof.
  apply (generate_icon_with_style_numbered (fun _ => false) 64 3 0 "Demo"
           "palette"); [reflexivity | vm_compute; lia].
Defined.

Lemma generate_icon_with_style_refused_witness :
  generate_icon_with_style (fun _ => false) 64 3 "Demo" "flat"
  = Raise IndexError /\
  generate_icon_with_style (fun _ => false) 64 3 "Demo" "palette_"
  = Raise ValueError.
Proof.
  split.
  - apply (proj1 (generate_icon_with_style_refused (fun _ => false) 64 3
                    "Demo") "flat"); [reflexivity | discriminate].
  - apply (proj2 (generate_icon_with_style_refused (fun _ => false) 64 3
                    "Demo") "palette"); reflexivity.
Defined.

End StyleProps.

(* ================================================================== *)
(** * Loading an entry of [PythonAppLauncher] into the form *)
(* ================================================================== *)

Module LoadProps.

Import Launcher PyFacts LauncherSpec IconGeneratorProps LauncherProps.

Local Open Scope list_scope.

Section Loading.

Variable E : Env.

(** The state after the entry [a], shown as [nm], is loaded into the
    form. *)
Definition loaded (cwd nm : string) (a : app) (w : World) : World :=
  let w1 :=
    with_vars
      (set_fields (name a) (venv a) (script a)
         (default EmptyString (args a)) (default cwd (workdir a)) (vars w)) w in
  with_output_text
    (output_text w
     ++ [(timestamped (now E (ticks w)) ("✓ Loaded app: " +:+ nm), "success")])
    (with_ticks (S (ticks w)) w1).

Lemma run_load (cwd nm : string) (i : nat) (a : app) (w : World) :
  find_app nm (saved_apps w) = Some (i, a) ->
  load_selected_app E cwd (Some nm) w = (Ok tt, loaded cwd nm a w).
Proof.
  intros Hfind. unfold load_selected_app. rewrite bind_gets, Hfind.
  rewrite bind_modify. reflexivity.
Qed.

Lemma accepted_loaded (cwd nm : string) (a : app) (w : World) :
  is_empty (strip (name a)) = false ->
  is_empty (strip (venv a)) = false ->
  is_empty (strip (script a)) = false ->
  path_exists w (strip (venv a)) = true ->
  path_exists w (strip (script a)) = true ->
  accepted (loaded cwd nm a w) = true.
Proof.
  intros H1 H2 H3 H4 H5. unfold accepted, loaded.
  cbn [vars with_vars with_ticks with_output_text set_fields
       app_name_var venv_path_var script_path_var].
  rewrite H1, H2, H3. cbn [negb andb].
  unfold path_exists in *.
  cbn [fs with_vars with_ticks with_output_text]. now rewrite H4, H5.
Qed.

(** X30. Loading an entry and saving it again.  When the entry shown as
    [nm] is loaded into the form and saved straight away (the overwrite
    confirmed, its environment and script still there, the three files
    writable), both calls return normally and the entry's slot holds a
    new descriptor: the same name, the other fields trimmed, a new
    creation time and the two script paths, but no last run, no desktop
    file and no icon, whatever the old entry recorded.  The other slots
    are as before, and apart from the registry file and the two scripts
    no file changes, so a desktop file on disk stays there. *)
Theorem load_then_save (cwd nm : string) (i : nat) (a : app) (w : World) :
  find_app nm (saved_apps w) = Some (i, a) ->
  strip nm = nm -> nm <> EmptyString ->
  strip (venv a) <> EmptyString -> strip (script a) <> EmptyString ->
  path_exists w (strip (venv a)) = true ->
  path_exists w (strip (script a)) = true ->
  answers E (asked w) = true ->
  writable E w (apps_file E) ->
  writable E w (activation_path E nm) ->
  writable E w (launcher_path E nm) ->
  exists w1 w2 b,
    load_selected_app E cwd (Some nm) w = (Ok tt, w1) /\
    save_and_create_script E w1 = (Ok tt, w2) /\
    saved_apps w2 = <[i := b]> (saved_apps w) /\
    (name b = nm /\ venv b = strip (venv a) /\ script b = strip (script a) /\
     args b = Some (strip (default EmptyString (args a))) /\
     workdir b = Some (strip (default cwd (workdir a))) /\
     created b = Some (isoformat (now E (S (ticks w))))) /\
    (activation_script b = Some (activation_path E nm) /\
     launcher_script b = Some (launcher_path E nm)) /\
    (last_run b = None /\ desktop_file b = None /\ icon_path b = None /\
     icon_type b = None /\ icon_settings_of b = None /\ icon_name b = None) /\
    (forall q, q <> apps_file E -> q <> activation_path E nm ->
               q <> launcher_path E nm -> fs w2 !! q = fs w !! q).
Proof.
  intros Hfind Hnm Hne Hv Hs Hpv Hps Hyes Hf Ha Hl.
  destruct (find_app_Some _ _ _ _ Hfind) as (Hi & Hname & _).
  assert (Hstrip : strip (name a) = nm) by now rewrite Hname.
  set (w1 := loaded cwd nm a w).
  assert (Hacc : accepted w1 = true).
  { apply accepted_loaded; try assumption.
    - rewrite Hstrip. now destruct nm.
    - now destruct (strip (venv a)).
    - now destruct (strip (script a)). }
  assert (Hcfg : name (form_app E w1) = nm) by exact Hstrip.
  assert (Hfind1 : find_app (name (form_app E w1)) (saved_apps w1) = Some (i, a))
    by now rewrite Hcfg.
  destruct (run_save E w1 Hacc) as (w2 & Hrun & Hdone).
  - right. exact Hyes.
  - exact Hf.
  - rewrite Hcfg. exact Ha.
  - rewrite Hcfg. exact Hl.
  - destruct Hdone as (Happs & _ & _ & _ & _ & _ & Hrest).
    rewrite Hcfg in Hrest.
    unfold registry_with, slot_of in Happs. rewrite Hfind1 in Happs.
    rewrite list_insert_insert_eq, Hcfg in Happs.
    eexists w1, w2, _. split; [exact (run_load cwd nm i a w Hfind)|].
    split; [exact Hrun|]. split; [exact Happs|].
    split; [|split; [|split]].
    + repeat split; try reflexivity. exact Hstrip.
    + split; reflexivity.
    + repeat split.
    + intros q H1 H2 H3. now rewrite Hrest.
Qed.

End Loading.

(** The Demo entry of [listed_world]. *)
Definition listed_demo : app :=
  App "Demo" "/home/u/.venvs/demo" "/home/u/demo/app.py" (Some "--flag")
      (Some "/home/u/demo") (Some "2024-06-01T12:00:00") None
      (Some demo_activation) (Some demo_launcher)
      (Some "/home/u/.local/share/applications/demo.desktop") None
      (Some "system") None (Some "python").

Lemma load_then_save_witness :
  find_app "Demo" (saved_apps listed_world) = Some (0%nat, listed_demo) /\
  exists w1 w2 b,
    load_selected_app demo_env "/home/u" (Some "Demo") listed_world
    = (Ok tt, w1) /\
    save_and_create_script demo_env w1 = (Ok tt, w2) /\
    saved_apps w2 = <[0%nat := b]> (saved_apps listed_world) /\
    desktop_file b = None /\
    fs w2 !! "/home/u/.local/share/applications/demo.desktop"
    = fs listed_world !! "/home/u/.local/share/applications/demo.desktop".
Proof.
  assert (H : find_app "Demo" (saved_apps listed_world)
              = Some (0%nat, listed_demo)) by (vm_compute; reflexivity).
  split; [exact H|].
  assert (Hv : path_exists listed_world (strip (venv listed_demo)) = true)
    by (vm_compute; reflexivity).
  assert (Hs : path_exists listed_world (strip (script listed_demo)) = true)
    by (vm_compute; reflexivity).
  assert (Hw : forall p, fs listed_world !! p <> Some Dir ->
                         writable demo_env listed_world p)
    by (intros p Hp; split; [reflexivity | exact Hp]).
  destruct (load_then_save demo_env "/home/u" "Demo" 0 listed_demo
              listed_world H)
    as (w1 & w2 & b & H1 & H2 & H3 & _ & _ & H4 & H5);
    [ reflexivity | discriminate
    | intros Heq; vm_compute in Heq; discriminate Heq
    | intros Heq; vm_compute in Heq; discriminate Heq
    | exact Hv | exact Hs | reflexivity
    | apply Hw; intros Heq; vm_compute in Heq; discriminate Heq
    | apply Hw; intros Heq; vm_compute in Heq; discriminate Heq
    | apply Hw; intros Heq; vm_compute in Heq; discriminate Heq
    | ].
  exists w1, w2, b. split; [exact H1|]. split; [exact H2|].
  split; [exact H3|]. split; [apply H4|].
  apply H5; intros Heq; vm_compute in Heq; discriminate Heq.
Defined.

End LoadProps.
